(** * gallery_xlsx_export: layout and scaling engine

    A shallow embedding of [gallery_xlsx_export.py] and the properties of its
    frame-code parser, timecode converter, unit converter, resize strategy
    and layout engine.

    Python values are modelled as follows.
    - [int] is [Z] (unbounded).
    - [float] is IEEE 754 binary64: a finite value is carried by the
      rational it denotes, every arithmetic operation rounds its exact
      result to the nearest binary64 value, ties to even ([rnd]); the two
      infinities and NaN are separate constructors.  The sign of zero is
      not tracked: no operation of the program observes it.
    - [str] is [string], restricted to the characters with a code point
      below 256 (U+0000 to U+00FF): file names and arguments with other
      characters are outside the model.
    - an exception is a value of [exn]; a computation that may raise
      returns a [result]. *)

From Stdlib Require Import ZArith QArith Qround Qabs Qpower Lia Lqa Psatz.
From Stdlib Require Import List String Ascii Bool.
From Stdlib Require Import Floats.
From Stdlib Require Import Orders Sorting Permutation.
Import ListNotations.

Set Implicit Arguments.

(** ** Exceptions *)

Inductive exn : Type :=
| OverflowError
| ValueError
| ZeroDivisionError
| FileNotFoundError
| IndexError
| SystemExit (status : Z)  (* sys.exit(status); not an [Exception] *)
| LibraryError.            (* any exception raised inside Pillow or xlsxwriter *)

Inductive result (A : Type) : Type :=
| Ok (a : A)
| Raise (e : exn).

Arguments Ok {A} a.
Arguments Raise {A} e.

Definition rbind {A B : Type} (m : result A) (k : A -> result B) : result B :=
  match m with
  | Ok a => k a
  | Raise e => Raise e
  end.

Declare Scope py_scope.
Delimit Scope py_scope with py.
Notation "x <- m ;; k" := (rbind m (fun x => k))
  (at level 61, m at next level, right associativity) : py_scope.

(** ** Floats *)

Module PyFloat.

Open Scope Q_scope.

Inductive float : Type :=
| Fin (q : Q)
| Inf (neg : bool)
| NaN.

Definition pow2 (e : Z) : Q := Qpower 2 e.

(** Nearest integer, ties to the even one. *)
Definition round_half_even (q : Q) : Z :=
  let f := Qfloor q in
  let r := q - inject_Z f in
  if Qle_bool r (1 # 2)
  then (if Qle_bool (1 # 2) r then (if Z.even f then f else f + 1)%Z else f)
  else (f + 1)%Z.

(** [floor (log2 q)] for [q > 0]. *)
Definition ilog2 (q : Q) : Z :=
  let e0 := (Z.log2 (Qnum q) - Z.log2 (Zpos (Qden q)))%Z in
  if Qle_bool (pow2 e0) q then e0 else (e0 - 1)%Z.

(** Exponent of the unit in the last place of the binade of [q]:
    53 significant bits, subnormals below [2^-1022]. *)
Definition ulp_exp (q : Q) : Z := Z.max (ilog2 (Qabs q) - 52) (-1074).

(** Round to nearest binary64, ties to even; overflow gives an infinity. *)
Definition rnd (q : Q) : float :=
  if Qeq_bool q 0 then Fin 0
  else
    let u := ulp_exp q in
    let r := Qred (inject_Z (round_half_even (q / pow2 u)) * pow2 u) in
    if Qle_bool (pow2 1024) (Qabs r) then Inf (Qnum q <? 0)%Z else Fin r.

Definition is_neg (q : Q) : bool := (Qnum q <? 0)%Z.
Definition is_zero (q : Q) : bool := Qeq_bool q 0.

(** [float(n)] for an [int]: raises when [n] is too large. *)
Definition float_of_int (n : Z) : result float :=
  match rnd (inject_Z n) with
  | Inf _ => Raise OverflowError
  | f => Ok f
  end.

Definition fmul (a b : float) : float :=
  match a, b with
  | NaN, _ | _, NaN => NaN
  | Fin x, Fin y => rnd (x * y)
  | Inf s, Fin y => if is_zero y then NaN else Inf (xorb s (is_neg y))
  | Fin x, Inf s => if is_zero x then NaN else Inf (xorb (is_neg x) s)
  | Inf s, Inf t => Inf (xorb s t)
  end.

Definition fadd (a b : float) : float :=
  match a, b with
  | NaN, _ | _, NaN => NaN
  | Fin x, Fin y => rnd (x + y)
  | Inf s, Fin _ => Inf s
  | Fin _, Inf s => Inf s
  | Inf s, Inf t => if Bool.eqb s t then Inf s else NaN
  end.

(** [a / b] on floats: a zero divisor raises, whatever [a] is. *)
Definition fdiv (a b : float) : result float :=
  match b with
  | Fin y =>
      if is_zero y then Raise ZeroDivisionError
      else match a with
           | Fin x => Ok (rnd (x / y))
           | Inf s => Ok (Inf (xorb s (is_neg y)))
           | NaN => Ok NaN
           end
  | Inf _ =>
      match a with
      | Fin _ => Ok (Fin 0)
      | _ => Ok NaN
      end
  | NaN => Ok NaN
  end.

(** [a / b] on two [int]s: the exact quotient, correctly rounded. *)
Definition int_truediv (a b : Z) : result float :=
  if (b =? 0)%Z then Raise ZeroDivisionError
  else match rnd (inject_Z a / inject_Z b) with
       | Inf _ => Raise OverflowError
       | f => Ok f
       end.

(** [a < b]; false as soon as one side is NaN. *)
Definition flt (a b : float) : bool :=
  match a, b with
  | NaN, _ | _, NaN => false
  | Fin x, Fin y => negb (Qle_bool y x)
  | Fin _, Inf s => negb s
  | Inf s, Fin _ => s
  | Inf s, Inf t => s && negb t
  end.

Definition fgt (a b : float) : bool := flt b a.

(** Truth value of a float: false exactly for zero. *)
Definition truthy (a : float) : bool :=
  match a with
  | Fin x => negb (is_zero x)
  | _ => true
  end.

(** [a or b]. *)
Definition for_ (a b : float) : float := if truthy a then a else b.

(** The builtin [max(a, b)]: [a] unless [b > a]. *)
Definition max2 (a b : float) : float := if fgt b a then b else a.

(** [round(x)] with one argument: nearest [int], ties to even. *)
Definition py_round (a : float) : result Z :=
  match a with
  | Fin x => Ok (round_half_even x)
  | Inf _ => Raise OverflowError
  | NaN => Raise ValueError
  end.

(** Truncation toward zero. *)
Definition Qtrunc (q : Q) : Z := if is_neg q then Qceiling q else Qfloor q.

(** [int(x)] on a float. *)
Definition py_int (a : float) : result Z :=
  match a with
  | Fin x => Ok (Qtrunc x)
  | Inf _ => Raise OverflowError
  | NaN => Raise ValueError
  end.

(** [math.floor(x)]. *)
Definition math_floor (a : float) : result Z :=
  match a with
  | Fin x => Ok (Qfloor x)
  | Inf _ => Raise OverflowError
  | NaN => Raise ValueError
  end.

(** Reading of a kernel binary64 value, to compare [rnd] with the
    arithmetic of the hardware on samples. *)
Definition of_spec_float (f : SpecFloat.spec_float) : float :=
  match f with
  | SpecFloat.S754_zero _ => Fin 0
  | SpecFloat.S754_infinity s => Inf s
  | SpecFloat.S754_nan => NaN
  | SpecFloat.S754_finite s m e =>
      Fin (Qred (inject_Z (if s then Z.neg m else Z.pos m) * pow2 e))
  end.

Definition of_prim (f : PrimFloat.float) : float := of_spec_float (Prim2SF f).

End PyFloat.

Import PyFloat.
Open Scope py_scope.

(** ** Unit converter (lines 75-85) *)

Definition pixels_to_col_width (pixels : Z) : result float :=
  x <- float_of_int (pixels - 5) ;;
  v <- fdiv x (Fin 7) ;;
  Ok (max2 (Fin 1) v).

Definition col_width_to_pixels (width : float) : result Z :=
  py_int (fadd (fmul (Fin 7) width) (Fin 5)).

Definition pixels_to_row_points (pixels : Z) : result float :=
  k <- fdiv (Fin 3) (Fin 4) ;;
  x <- float_of_int pixels ;;
  Ok (max2 (Fin 1) (fmul k x)).

(** ** Strings *)

Module PyStr.

Open Scope string_scope.
Open Scope char_scope.

Definition code (c : ascii) : N := N_of_ascii c.

Definition in_range (lo hi n : N) : bool := (lo <=? n)%N && (n <=? hi)%N.

(** [str.lower] on one character: the upper-case letters below 256 are
    A-Z and the two Latin-1 ranges, each 32 below its lower-case letter. *)
Definition lower_char (c : ascii) : ascii :=
  let n := code c in
  if in_range 65 90 n || in_range 192 214 n || in_range 216 222 n
  then ascii_of_N (n + 32)
  else c.

Fixpoint lower (s : string) : string :=
  match s with
  | EmptyString => EmptyString
  | String c t => String (lower_char c) (lower t)
  end.

(** [\d] and the digits [int] accepts, on the characters of the model:
    below 256 the decimal digits of Unicode are 0-9 and no other.  (Above,
    [\d] and [int] accept the decimal digits of every script; such names
    are outside the model.) *)
Definition is_digit (c : ascii) : bool := in_range 48 57 (code c).

(** [str.isspace] below 256. *)
Definition is_space (c : ascii) : bool :=
  let n := code c in
  in_range 9 13 n || in_range 28 32 n || (n =? 133)%N || (n =? 160)%N.

Fixpoint all_digits (s : string) : bool :=
  match s with
  | EmptyString => true
  | String c t => is_digit c && all_digits t
  end.

(** [s.endswith(suffix)]. *)
Definition endswith (s suffix : string) : bool :=
  let n := String.length s in
  let m := String.length suffix in
  (m <=? n)%nat && String.eqb (substring (n - m) m s) suffix.

(** [s.endswith((a, b, ...))]. *)
Definition endswith_any (s : string) (suffixes : list string) : bool :=
  existsb (endswith s) suffixes.

Fixpoint lstrip (s : string) : string :=
  match s with
  | EmptyString => EmptyString
  | String c t => if is_space c then lstrip t else s
  end.

Fixpoint rstrip (s : string) : string :=
  match s with
  | EmptyString => EmptyString
  | String c t =>
      match rstrip t with
      | EmptyString => if is_space c then EmptyString else String c EmptyString
      | t' => String c t'
      end
  end.

(** [s.strip()]. *)
Definition strip (s : string) : string := rstrip (lstrip s).

Definition digit_value (c : ascii) : Z := Z.of_N (code c) - 48.

Fixpoint digits_to_Z_acc (acc : Z) (s : string) : Z :=
  match s with
  | EmptyString => acc
  | String c t => digits_to_Z_acc (10 * acc + digit_value c) t
  end.

Definition digits_to_Z (s : string) : Z := digits_to_Z_acc 0 s.

(** [int(s)] on a string of decimal digits; any other string raises
    [ValueError] (signs, blanks and underscores never reach it here). *)
Definition int_of_str (s : string) : result Z :=
  match s with
  | EmptyString => Raise ValueError
  | _ => if all_digits s then Ok (digits_to_Z s) else Raise ValueError
  end.

Definition digit_char (n : Z) : ascii := ascii_of_N (Z.to_N (48 + n)).

(** Decimal digits of a natural number, most significant first; [fuel]
    bounds the number of digits. *)
Fixpoint decimal_acc (fuel : nat) (n : Z) (acc : string) : string :=
  match fuel with
  | O => acc
  | S k =>
      let acc' := String (digit_char (n mod 10)) acc in
      if (n <? 10)%Z then acc' else decimal_acc k (n / 10) acc'
  end.

Definition decimal (n : Z) : string :=
  decimal_acc (S (Z.to_nat (Z.log2 n))) n EmptyString.

(** The format specification [02d]: decimal, sign first, zero-padded to
    width two. *)
Definition format_02d (n : Z) : string :=
  if (n <? 0)%Z then String "-" (decimal (- n))
  else if (n <? 10)%Z then String "0" (decimal n)
  else decimal n.

End PyStr.

Import PyStr.

(** ** Regular expressions of the [re] module, as far as the program uses
    them: literals, [\d], sequence, alternation, [?], [{n}], one capture
    group, [^] and [$], with or without [re.IGNORECASE].  Matching is by
    backtracking: the alternatives are tried in order and the first
    complete match wins. *)

Module Re.

Inductive regex : Type :=
| Bol                           (* ^ *)
| Eol                           (* $ *)
| Lit (c : ascii)
| Digit                         (* \d *)
| Seq (a b : regex)
| Alt (a b : regex)
| Opt (a : regex)               (* a? *)
| Rep (n : nat) (a : regex)     (* a{n} *)
| Group (a : regex).            (* ( a ) *)

(** A matcher state: the position reached, the text from there on, and
    the text of group 1 once it has been closed. *)
Record state : Type := mkState {
  pos : nat;
  rest : string;
  group1 : option string
}.

Definition lit_matches (icase : bool) (c c' : ascii) : bool :=
  if icase then Ascii.eqb (lower_char c) (lower_char c') else Ascii.eqb c c'.

Definition step_char (p : ascii -> bool) (st : state) : list state :=
  match rest st with
  | String c t => if p c then [mkState (S (pos st)) t (group1 st)] else []
  | EmptyString => []
  end.

Fixpoint rep {A : Type} (n : nat) (f : A -> list A) (x : A) : list A :=
  match n with
  | O => [x]
  | S k => flat_map (rep k f) (f x)
  end.

(** All the ways [r] can match at [st], in the order backtracking tries
    them. *)
Fixpoint run (icase : bool) (r : regex) (st : state) : list state :=
  match r with
  | Bol => if Nat.eqb (pos st) 0 then [st] else []
  | Eol =>
      (* the end of the text, or just before a final newline *)
      match rest st with
      | EmptyString => [st]
      | String c EmptyString => if Ascii.eqb c "010" then [st] else []
      | _ => []
      end
  | Lit c => step_char (lit_matches icase c) st
  | Digit => step_char is_digit st
  | Seq a b => flat_map (run icase b) (run icase a st)
  | Alt a b => run icase a st ++ run icase b st
  | Opt a => run icase a st ++ [st]
  | Rep n a => rep n (run icase a) st
  | Group a =>
      map (fun st' =>
             mkState (pos st') (rest st')
                     (Some (substring 0 (pos st' - pos st) (rest st))))
          (run icase a st)
  end.

(** [re.match(r, s)]: the first match starting at position 0. *)
Definition re_match (icase : bool) (r : regex) (s : string) : option state :=
  hd_error (run icase r (mkState 0 s None)).

Fixpoint search_from (icase : bool) (r : regex) (p : nat) (s : string)
  : option state :=
  match run icase r (mkState p s None) with
  | st :: _ => Some st
  | [] =>
      match s with
      | EmptyString => None
      | String _ t => search_from icase r (S p) t
      end
  end.

(** [re.search(r, s)]: the first match at the leftmost position. *)
Definition re_search (icase : bool) (r : regex) (s : string) : option state :=
  search_from icase r 0 s.

(** [m.group(1)] for a group that took part in the match. *)
Definition group (m : state) : string :=
  match group1 m with
  | Some g => g
  | None => EmptyString
  end.

Notation "a @@ b" := (Seq a b) (at level 60, right associativity).

End Re.

Import Re.

Open Scope string_scope.

(** ** Directory listing (lines 39-49) *)

Module StringOrder.

Definition t := string.
Definition leb := String.leb.

Lemma leb_total : forall x y, leb x y = true \/ leb y x = true.
Proof. exact String.leb_total. Qed.

End StringOrder.

Module StringSort := Mergesort.Sort StringOrder.

(** A file the program names: an image of the directory or its resized
    copy. *)
Inductive path : Type :=
| Src (name : string)     (* os.path.join(images_dir, name) *)
| Tmp (name : string).    (* os.path.join(tmpdir, name) *)

(** What the program sees of its surroundings during one run.  The
    directory does not change while the program runs: opening the same file
    twice reports the same size. *)
Record world : Type := mkWorld {
  (** [os.listdir(images_dir)] *)
  listdir : result (list string);
  (** whether [from PIL import Image] succeeded *)
  PIL_AVAILABLE : bool;
  (** the width and height Pillow reports after [Image.open(p)], or [None]
      when opening raises *)
  image_size : path -> option (Z * Z);
  (** whether [im.resize] or [im.save] raises for this source *)
  resize_raises : path -> bool;
  (** whether [ws.insert_image] raises for this file *)
  insert_raises : path -> bool
}.

Definition image_suffixes : list string := [".jpg"; ".jpeg"; ".png"].

Definition list_images_sorted (w : world) : result (list string) :=
  match listdir w with
  | Ok names =>
      Ok (filter (fun name => endswith_any (lower name) image_suffixes)
                 (StringSort.sort names))
  | Raise FileNotFoundError => Ok []
  | Raise e => Raise e
  end.

(** ** Frame-code parser (lines 51-64) *)

(** [^f(\d{8})\.(?:jpe?g|png)$] *)
Definition strict_re : regex :=
  Bol @@ Lit "f" @@ Group (Rep 8 Digit) @@ Lit "." @@
  Alt (Lit "j" @@ Lit "p" @@ Opt (Lit "e") @@ Lit "g")
      (Lit "p" @@ Lit "n" @@ Lit "g") @@
  Eol.

(** [(\d{8})] *)
Definition digits_re : regex := Group (Rep 8 Digit).

(** [try: return int(g) except ValueError: return None] *)
Definition int_or_none (g : string) : option Z :=
  match int_of_str g with
  | Ok n => Some n
  | Raise _ => None
  end.

Definition parse_frame_from_filename (name : string) : option Z :=
  match re_match true strict_re name with
  | Some m => int_or_none (group m)
  | None =>
      match re_search false digits_re name with
      | Some m => int_or_none (group m)
      | None => None
      end
  end.

(** ** Timecode converter (lines 66-73 and 206-209) *)

Definition seconds_to_hhmmss_floor (seconds : float) : result string :=
  if negb (truthy seconds) || flt seconds (Fin 0) then Ok "00:00:00"
  else
    s <- math_floor seconds ;;
    let h := (s / 3600)%Z in
    let m := ((s mod 3600) / 60)%Z in
    let r := (s mod 60)%Z in
    Ok (format_02d h ++ ":" ++ format_02d m ++ ":" ++ format_02d r).

(** The timecode of one row, from the frame index and the frame rate. *)
Definition timecode (frame : option Z) (fps : float) : result string :=
  match frame with
  | Some f =>
      if fgt fps (Fin 0)
      then (x <- float_of_int f ;;
            seconds <- fdiv x fps ;;
            seconds_to_hhmmss_floor seconds)
      else Ok ""
  | None => Ok ""
  end.

(** ** Resize strategy (lines 87-108 and 147-162) *)

(** [w or 0] for a dimension that may be [None]. *)
Definition or0 (w : option Z) : Z :=
  match w with
  | Some n => n
  | None => 0
  end.

Definition get_image_size (w : world) (p : path) : option Z * option Z :=
  if PIL_AVAILABLE w then
    match image_size w p with
    | Some (iw, ih) => (Some iw, Some ih)
    | None => (None, None)
    end
  else (None, None).

(** [int(round(n * scale))] *)
Definition scaled (n : Z) (scale : float) : result Z :=
  x <- float_of_int n ;;
  py_round (fmul x scale).

Definition physical_resize_image (w : world) (src : path) (scale : float)
  : result (Z * Z) :=
  match image_size w src with
  | None => Raise LibraryError
  | Some (iw, ih) =>
      sw <- scaled iw scale ;;
      let nw := Z.max 1 sw in
      sh <- scaled ih scale ;;
      let nh := Z.max 1 sh in
      if resize_raises w src then Raise LibraryError
      else Ok (nw, nh)
  end.

(** One processed image: the file to insert and its display size. *)
Definition record : Type := (path * Z * Z)%type.

Definition rec_path (r : record) : path := fst (fst r).
Definition rec_w (r : record) : Z := snd (fst r).
Definition rec_h (r : record) : Z := snd r.

(** The body of the preprocessing loop. *)
Definition preprocess_one (w : world) (use_physical : bool) (scale : float)
  (name : string) : result record :=
  let src := Src name in
  if use_physical then
    match physical_resize_image w src scale with
    | Ok (nw, nh) => Ok (Tmp name, nw, nh)
    | Raise _ =>
        let '(iw, ih) := get_image_size w src in
        Ok (src, or0 iw, or0 ih)
    end
  else
    let '(iw, ih) := get_image_size w src in
    sw <- scaled (or0 iw) scale ;;
    sh <- scaled (or0 ih) scale ;;
    Ok (src, sw, sh).

Fixpoint preprocess (w : world) (use_physical : bool) (scale : float)
  (imgs : list string) : result (list record) :=
  match imgs with
  | [] => Ok []
  | name :: rest =>
      r <- preprocess_one w use_physical scale name ;;
      rs <- preprocess w use_physical scale rest ;;
      Ok (r :: rs)
  end.

(** [max(xs, default=0)] *)
Definition max_default0 (xs : list Z) : Z :=
  match xs with
  | [] => 0
  | x :: rest => fold_left Z.max rest x
  end.

(** ** Layout engine and worksheet output (lines 110-251) *)

(** The calls into Pillow that may raise are [Image.open], [im.resize] and
    [im.save]; the call into xlsxwriter that the source guards is
    [insert_image].  [main] below is the run in which the calls the source
    does not guard ([os.makedirs], [tempfile.mkdtemp], the creation of the
    workbook, [wb.close]) return; [Unguarded.main] further down is the run
    in which each of them may raise.  The worksheet methods return.
    Writing the resized copy is not an event of its own; [max_h] is
    computed by the source and never read, so it is left out. *)

Inductive resize_mode : Type := Physical | ScaleOnly.

(** The parsed command line, as far as the layout depends on it. *)
Record args : Type := mkArgs {
  fps : float;             (* --fps *)
  scale : float;           (* --scale *)
  resize : resize_mode;    (* --resize *)
  center : string;         (* --center *)
  pad_x : Z;               (* --pad-x *)
  pad_y : Z                (* --pad-y *)
}.

Inductive format : Type := header_fmt | text_fmt.

(** The [insert_opts] dictionary: a key that is absent is [None]. *)
Record insert_opts : Type := mkOpts {
  x_offset : option Z;
  y_offset : option Z;
  x_scale : option float;
  y_scale : option float
}.

Inductive cell : Type :=
| CStr (s : string)
| CPath (p : path).

(** What a run does to its surroundings, in order. *)
Inductive event : Type :=
| Print_stderr (msg : string)
| Print_ok                                 (* print(f"OK: {out_path}") *)
| Makedirs                                 (* os.makedirs(dirname(out_path)) *)
| Mkdtemp                                  (* tempfile.mkdtemp *)
| Rmtree                                   (* shutil.rmtree(tmpdir) *)
| Workbook                                 (* xlsxwriter.Workbook(out_path) *)
| Add_worksheet (name : string)
| Add_format (f : format)
| Set_column (cols : string) (width : float)
| Freeze_panes (row col : Z)
| Write (row col : Z) (v : cell) (f : option format)
| Set_row (row : Z) (height : float) (f : option format)
| Insert_image (row col : Z) (file : path) (opts : insert_opts)
| Close.                                   (* wb.close(): the file is written *)

(** A computation that leaves a trace of events and returns or raises. *)
Definition io (A : Type) : Type := (list event * result A)%type.

Definition ret {A : Type} (a : A) : io A := ([], Ok a).
Definition lift {A : Type} (r : result A) : io A := ([], r).
Definition emit (e : event) : io unit := ([e], Ok tt).

Definition iobind {A B : Type} (m : io A) (k : A -> io B) : io B :=
  match m with
  | (t, Ok a) => let '(t', r) := k a in ((t ++ t')%list, r)
  | (t, Raise e) => (t, Raise e)
  end.

(** [try: m finally: cleanup] *)
Definition finally {A : Type} (m : io A) (cleanup : list event) : io A :=
  ((fst m ++ cleanup)%list, snd m).

Declare Scope io_scope.
Delimit Scope io_scope with io.
Notation "x <- m ;; k" := (iobind m (fun x => k))
  (at level 61, m at next level, right associativity) : io_scope.
Notation "m ;; k" := (iobind m (fun _ => k))
  (at level 61, right associativity) : io_scope.

(** [str(args.center).strip() not in ("0", "false", "False", "no", "No")] *)
Definition do_center (a : args) : bool :=
  negb (existsb (String.eqb (strip (center a)))
                ["0"; "false"; "False"; "no"; "No"]).

Definition use_physical (w : world) (a : args) : bool :=
  match resize a with
  | Physical => PIL_AVAILABLE w
  | ScaleOnly => false
  end.

(** [max(0, int((avail - size) / 2))] *)
Definition center_offset (avail size : Z) : result Z :=
  v <- int_truediv (avail - size) 2 ;;
  t <- py_int v ;;
  Ok (Z.max 0 t).

(** [ow and oh and ow > 0 and oh > 0] *)
Definition both_positive (ow oh : option Z) : bool :=
  match ow, oh with
  | Some x, Some y => negb (x =? 0)%Z && negb (y =? 0)%Z && (0 <? x)%Z && (0 <? y)%Z
  | _, _ => false
  end.

(** [processed[i]] *)
Definition getitem (processed : list record) (i : nat) : result record :=
  match nth_error processed i with
  | Some r => Ok r
  | None => Raise IndexError
  end.

(** The values the row loop reads but does not change. *)
Record context : Type := mkContext {
  c_world : world;
  c_fps : float;
  c_scale : float;
  c_center : bool;
  c_physical : bool;
  c_pad_y : Z;
  c_processed : list record;
  c_col_pixels : Z
}.

Definition row_format (c : context) : option format :=
  if c_center c then Some text_fmt else None.

(** Display size of row [i] (lines 190-203). *)
Definition display_size (c : context) (i : nat) : result (path * Z * Z) :=
  r <- getitem (c_processed c) i ;;
  let '(img_path, w, h) := r in
  if c_physical c then Ok (img_path, w, h)
  else
    let '(ow, oh) := get_image_size (c_world c) img_path in
    if both_positive ow oh then
      w' <- scaled (or0 ow) (c_scale c) ;;
      h' <- scaled (or0 oh) (c_scale c) ;;
      Ok (img_path, w', h')
    else Ok (img_path, w, h).

(** The options of [insert_image] (lines 216-227 and 231-236). *)
Definition make_opts (c : context) (w h row_pixels : Z) : result insert_opts :=
  offs <- (if c_center c then
             x_off <- center_offset (c_col_pixels c) w ;;
             y_off <- center_offset row_pixels h ;;
             Ok (Some x_off, Some y_off)
           else Ok (None, None)) ;;
  let '(xo, yo) := offs in
  if c_physical c then Ok (mkOpts xo yo None None)
  else Ok (mkOpts xo yo (Some (c_scale c)) (Some (c_scale c))).

(** The body of the row loop (lines 188-244). *)
Definition write_row (c : context) (i : nat) (row : Z) (name : string)
  : io unit :=
  (let orig_path := Src name in
   d <- lift (display_size c i) ;;
   let '(img_path, w, h) := d in
   tc <- lift (timecode (parse_frame_from_filename name) (c_fps c)) ;;
   let row_pixels := (h + 2 * c_pad_y c)%Z in
   height <- lift (pixels_to_row_points row_pixels) ;;
   emit (Set_row row height (row_format c)) ;;
   opts <- lift (make_opts c w h row_pixels) ;;
   (if insert_raises (c_world c) img_path
    then emit (Write row 0 (CPath orig_path) (row_format c))
    else emit (Insert_image row 0 img_path opts)) ;;
   emit (Write row 1 (CStr tc) (row_format c)))%io.

(** [for i, name in enumerate(imgs): ...; row += 1] *)
Fixpoint write_rows (c : context) (i : nat) (row : Z) (imgs : list string)
  : io unit :=
  match imgs with
  | [] => ret tt
  | name :: rest =>
      (write_row c i row name ;; write_rows c (S i) (row + 1) rest)%io
  end.

Definition main (w : world) (a : args) : io Z :=
  (let fps := for_ (fps a) (Fin 0) in
   let scale := for_ (scale a) (Fin (1 # 4)) in
   imgs <- lift (list_images_sorted w) ;;
   match imgs with
   | [] =>
       emit (Print_stderr "No images to export.") ;;
       lift (Raise (SystemExit 2))
   | _ =>
       emit Makedirs ;;
       (match resize a with
        | Physical =>
            if PIL_AVAILABLE w then ret tt
            else emit (Print_stderr
                         "Pillow not available, falling back to scale-only mode.")
        | ScaleOnly => ret tt
        end) ;;
       (if use_physical w a then emit Mkdtemp else ret tt) ;;
       finally
         (processed <- lift (preprocess w (use_physical w a) scale imgs) ;;
          let max_w := max_default0 (map rec_w processed) in
          emit Workbook ;;
          emit (Add_worksheet "Gallery") ;;
          emit (Add_format header_fmt) ;;
          emit (Add_format text_fmt) ;;
          let colA_pixels := (max_w + 2 * pad_x a)%Z in
          colA_width <- lift (pixels_to_col_width colA_pixels) ;;
          emit (Set_column "A:A" colA_width) ;;
          emit (Set_column "B:B" (Fin 16)) ;;
          emit (Write 0 0 (CStr "Image") (Some header_fmt)) ;;
          emit (Write 0 1 (CStr "Timecode") (Some header_fmt)) ;;
          emit (Freeze_panes 1 0) ;;
          write_rows (mkContext w fps scale (do_center a) (use_physical w a)
                                (pad_y a) processed colA_pixels)
                     0 1 imgs ;;
          emit Close ;;
          emit Print_ok ;;
          ret 0%Z)
         (if use_physical w a then [Rmtree] else [])
   end)%io.

(** The status the process exits with: [sys.exit(main())]. *)
Definition exit_status (r : result Z) : Z :=
  match r with
  | Ok n => n
  | Raise (SystemExit n) => n
  | Raise _ => 1
  end.

(** ** The run with its unguarded library calls (lines 135, 144, 168, 246) *)

(** Which of the library calls that [main] makes outside any [try ...
    except] raise during a run. *)
Record library : Type := mkLibrary {
  makedirs_raises : bool;    (* os.makedirs, line 135 *)
  mkdtemp_raises : bool;     (* tempfile.mkdtemp, line 144 *)
  workbook_raises : bool;    (* xlsxwriter.Workbook, line 168 *)
  close_raises : bool        (* wb.close, line 246 *)
}.

(** A library call: it raises and nothing has happened, or it takes
    place and returns. *)
Definition call (raises : bool) (e : event) : io unit :=
  if raises then lift (Raise LibraryError) else emit e.

Module Unguarded.

(** Lines 110-251 again, with the four calls as [l] has them.  The
    scratch directory exists from [mkdtemp] on: an exception before the
    [try] block skips the [finally] block. *)
Definition main (l : library) (w : world) (a : args) : io Z :=
  (let fps := for_ (fps a) (Fin 0) in
   let scale := for_ (scale a) (Fin (1 # 4)) in
   imgs <- lift (list_images_sorted w) ;;
   match imgs with
   | [] =>
       emit (Print_stderr "No images to export.") ;;
       lift (Raise (SystemExit 2))
   | _ =>
       call (makedirs_raises l) Makedirs ;;
       (match resize a with
        | Physical =>
            if PIL_AVAILABLE w then ret tt
            else emit (Print_stderr
                         "Pillow not available, falling back to scale-only mode.")
        | ScaleOnly => ret tt
        end) ;;
       (if use_physical w a then call (mkdtemp_raises l) Mkdtemp else ret tt) ;;
       finally
         (processed <- lift (preprocess w (use_physical w a) scale imgs) ;;
          let max_w := max_default0 (map rec_w processed) in
          call (workbook_raises l) Workbook ;;
          emit (Add_worksheet "Gallery") ;;
          emit (Add_format header_fmt) ;;
          emit (Add_format text_fmt) ;;
          let colA_pixels := (max_w + 2 * pad_x a)%Z in
          colA_width <- lift (pixels_to_col_width colA_pixels) ;;
          emit (Set_column "A:A" colA_width) ;;
          emit (Set_column "B:B" (Fin 16)) ;;
          emit (Write 0 0 (CStr "Image") (Some header_fmt)) ;;
          emit (Write 0 1 (CStr "Timecode") (Some header_fmt)) ;;
          emit (Freeze_panes 1 0) ;;
          write_rows (mkContext w fps scale (do_center a) (use_physical w a)
                                (pad_y a) processed colA_pixels)
                     0 1 imgs ;;
          call (close_raises l) Close ;;
          emit Print_ok ;;
          ret 0%Z)
         (if use_physical w a then [Rmtree] else [])
   end)%io.

End Unguarded.

(** The library in which every call returns. *)
Definition reliable : library := mkLibrary false false false false.

(** None of the unguarded calls raises. *)
Definition all_return (l : library) : Prop :=
  makedirs_raises l = false /\ mkdtemp_raises l = false /\
  workbook_raises l = false /\ close_raises l = false.

(** ** Vocabulary of the properties *)

(** [pixels_to_col_width(col_width_to_pixels(x))] *)
Definition round_trip (x : float) : result float :=
  p <- col_width_to_pixels x ;;
  pixels_to_col_width p.

(** Half a unit in the last place, relative to the value: [2^-53]. *)
Definition eps : Q := 1 # 9007199254740992.

(** The 8 characters of [name] from position [i] on exist and are decimal
    digits. *)
Definition window8 (name : string) (i : nat) : bool :=
  let ds := substring i 8 name in
  (String.length ds =? 8)%nat && all_digits ds.




(** [s[n:]] *)
Fixpoint drop (n : nat) (s : string) : string :=
  match n, s with
  | O, _ => s
  | S k, String _ t => drop k t
  | S _, EmptyString => EmptyString
  end.

(** The expression has no capture group. *)
Fixpoint no_group (r : regex) : bool :=
  match r with
  | Group _ => false
  | Seq a b | Alt a b => no_group a && no_group b
  | Opt a | Rep _ a => no_group a
  | _ => true
  end.

(** [a <= b] on floats; false as soon as one side is NaN. *)
Definition fle (a b : float) : bool :=
  match a, b with
  | NaN, _ | _, NaN => false
  | Fin x, Fin y => Qle_bool x y
  | Fin _, Inf s => negb s
  | Inf s, Fin _ => s
  | Inf s, Inf t => s || negb t
  end.

(** A number below 100 written with exactly two decimal digits. *)
Definition two_digits (n : Z) : string :=
  String (digit_char (n / 10)) (String (digit_char (n mod 10)) EmptyString).

(** The context the row loop of [main] runs in. *)
Definition run_context (w : world) (a : args) (processed : list record)
  : context :=
  mkContext w (for_ (fps a) (Fin 0)) (for_ (scale a) (Fin (1 # 4)))
            (do_center a) (use_physical w a) (pad_y a) processed
            (max_default0 (map rec_w processed) + 2 * pad_x a).

(** What [main] does before the [try] block. *)
Definition setup_events (w : world) (a : args) : list event :=
  (Makedirs ::
   match resize a with
   | Physical =>
       if PIL_AVAILABLE w then []
       else [Print_stderr
               "Pillow not available, falling back to scale-only mode."]
   | ScaleOnly => []
   end ++
   (if use_physical w a then [Mkdtemp] else []))%list.

(** The [finally] block. *)
Definition cleanup_events (w : world) (a : args) : list event :=
  if use_physical w a then [Rmtree] else [].

Definition workbook_events : list event :=
  [Workbook; Add_worksheet "Gallery"; Add_format header_fmt;
   Add_format text_fmt].

Definition header_events (width : float) : list event :=
  [Set_column "A:A" width; Set_column "B:B" (Fin 16);
   Write 0 0 (CStr "Image") (Some header_fmt);
   Write 0 1 (CStr "Timecode") (Some header_fmt);
   Freeze_panes 1 0].

(** The image cell of a row: the image, or its path when the insertion
    raises. *)
Definition image_event (c : context) (row : Z) (name : string)
  (img_path : path) (opts : insert_opts) : event :=
  if insert_raises (c_world c) img_path
  then Write row 0 (CPath (Src name)) (row_format c)
  else Insert_image row 0 img_path opts.

(** The events of the rows of [imgs], written from index [i] and row
    [row] on. *)
Fixpoint rows_trace (c : context) (i : nat) (row : Z) (imgs : list string)
  : list event :=
  match imgs with
  | [] => []
  | name :: rest =>
      (fst (write_row c i row name) ++ rows_trace c (S i) (row + 1) rest)%list
  end.

(** A qualifying image file: the name ends in one of the extensions,
    in any case. *)
Definition qualifying (name : string) : Prop :=
  exists stem ext, name = stem ++ ext /\ In (lower ext) image_suffixes.

(** A frame rate whose timecodes stay finite: not positive, infinite,
    NaN, or at least [2^-31]. *)
Definition sane_fps (f : float) : Prop :=
  match f with
  | Fin r => (r <= 0 \/ 1 # 2147483648 <= r)%Q
  | _ => True
  end.

(** An ordinary run: sizes and paddings within 31 bits, a finite scale
    of magnitude at most [2^31], and a sane frame rate. *)
Definition ordinary (w : world) (a : args) : Prop :=
  (forall p iw ih,
      image_size w p = Some (iw, ih) ->
      (- 2 ^ 31 <= iw <= 2 ^ 31 /\ - 2 ^ 31 <= ih <= 2 ^ 31)%Z) /\
  (- 2 ^ 31 <= pad_x a <= 2 ^ 31)%Z /\
  (- 2 ^ 31 <= pad_y a <= 2 ^ 31)%Z /\
  (exists s, scale a = Fin s /\ (- (2147483648) <= s <= 2147483648)%Q) /\
  sane_fps (fps a).

(** The record of one image when every step of its preprocessing works. *)
Definition bounded_record (r : record) : Prop :=
  (- 2 ^ 66 <= rec_w r <= 2 ^ 66 /\ - 2 ^ 66 <= rec_h r <= 2 ^ 66)%Z.

(** A directory with three images, the last of which cannot be decoded,
    and one other file; every frame is 1920 x 1080. *)
Definition sample_world : world :=
  mkWorld (Ok ["f00000050.png"; "notes.txt"; "F00000025.JPG"; "zz.jpeg"])
          true
          (fun p => match p with
                    | Src n => if String.eqb n "zz.jpeg" then None
                               else Some (1920, 1080)%Z
                    | Tmp _ => None
                    end)
          (fun _ => false)
          (fun _ => false).

Definition sample_args : args :=
  mkArgs (Fin 25) (Fin (1 # 4)) Physical "1" 0 0.

(** A directory without any image. *)
Definition empty_world : world :=
  mkWorld (Ok ["notes.txt"; "clip.mp4"]) true
          (fun _ => None) (fun _ => false) (fun _ => false).

(** The offset [insert_image] applies: an absent key counts as 0, the
    default of the worksheet builder. *)
Definition effective_offset (o : option Z) : Z :=
  match o with
  | Some v => v
  | None => 0
  end.

(** The scale keys of [insert_opts] in the current mode. *)
Definition scale_keys (c : context) : option float :=
  if c_physical c then None else Some (c_scale c).

(** The events that size column A. *)
Definition is_col_a (e : event) : bool :=
  match e with
  | Set_column cols _ => String.eqb cols "A:A"
  | _ => false
  end.

(** The events that size a row: one per row written. *)
Definition is_set_row (e : event) : bool :=
  match e with
  | Set_row _ _ _ => true
  | _ => false
  end.

(** The same command line with another value of [--center]. *)
Definition with_center (v : string) : args :=
  mkArgs (Fin 25) (Fin (1 # 4)) Physical v 0 0.

(** The sample command line in scale-only mode. *)
Definition scale_only_args : args :=
  mkArgs (Fin 25) (Fin (1 # 4)) ScaleOnly "1" 0 0.

(** The image files of [sample_world], as [list_images_sorted] returns
    them. *)
Definition sample_images : list string :=
  ["F00000025.JPG"; "f00000050.png"; "zz.jpeg"].

(** C1, for a run with trace [trace]: one column width, the largest
    display width plus twice the horizontal padding, taken over the
    records of all images; column A is sized from it by the only
    [Set_column "A:A"] of the run; every row shows its image (or the
    placeholder) with the display size of its record, and with centering
    its horizontal offset is computed against that same width. *)
Definition column_shared (w : world) (a : args) (trace : list event) : Prop :=
  exists imgs processed width,
    list_images_sorted w = Ok imgs /\ imgs <> [] /\
    preprocess w (use_physical w a) (for_ (scale a) (Fin (1 # 4))) imgs
    = Ok processed /\
    List.length processed = List.length imgs /\
    let col := (max_default0 (map rec_w processed) + 2 * pad_x a)%Z in
    (forall r, In r processed -> (rec_w r + 2 * pad_x a <= col)%Z) /\
    (exists r, In r processed /\ col = (rec_w r + 2 * pad_x a)%Z) /\
    pixels_to_col_width col = Ok width /\
    filter is_col_a trace = [Set_column "A:A" width] /\
    forall k name,
      nth_error imgs k = Some name ->
      exists r opts,
        nth_error processed k = Some r /\
        display_size (run_context w a processed) k = Ok r /\
        In (image_event (run_context w a processed) (1 + Z.of_nat k) name
                        (rec_path r) opts) trace /\
        (do_center a = true ->
         exists xo, center_offset col (rec_w r) = Ok xo /\
                    x_offset opts = Some xo).

(** C8, for the image [name] of height [oh] at index [k] of a scale-only
    run with trace [trace]: the row height is [hpx + 2 * pad_y] converted
    to points, where [hpx] is [int(round(oh * scale))]: the float product
    rounded to the nearest integer, which for a scale of magnitude at most
    1 and a height within 31 bits is within [1/2 + 2^-21] of the exact
    product; and the file inserted is the original one, with both scale
    keys set to [scale]. *)
Definition scaled_row (w : world) (a : args) (trace : list event)
  (k : nat) (name : string) (oh : Z) : Prop :=
  let s := for_ (scale a) (Fin (1 # 4)) in
  let row := (1 + Z.of_nat k)%Z in
  let fmt := if do_center a then Some text_fmt else None in
  exists x hpx height opts,
    float_of_int oh = Ok x /\
    py_round (fmul x s) = Ok hpx /\
    (forall q,
        s = Fin q -> (- (1) <= q <= 1)%Q -> (- 2 ^ 31 <= oh <= 2 ^ 31)%Z ->
        (Qabs (inject_Z hpx - inject_Z oh * q) <= (1 # 2) + (1 # 2097152))%Q) /\
    pixels_to_row_points (hpx + 2 * pad_y a) = Ok height /\
    In (Set_row row height fmt) trace /\
    In (if insert_raises w (Src name)
        then Write row 0 (CPath (Src name)) fmt
        else Insert_image row 0 (Src name) opts) trace /\
    x_scale opts = Some s /\ y_scale opts = Some s.

(** C7, for the images [imgs] of a physical-resize run: preprocessing
    never raises and yields one record per image; the record of an image
    depends on that image alone.  It is the original file with 0 x 0 when
    the file cannot be decoded, the original file with the size Pillow
    reads when the resize, the save or the rounding of a new dimension
    raises, and the resized copy with its new size otherwise.  When the
    unguarded library calls return, an ordinary run ends normally with one
    row per image, each showing the file of its record or, when the
    insertion raises, the placeholder. *)
Definition degraded_locally (w : world) (a : args) (imgs : list string)
  : Prop :=
  let s := for_ (scale a) (Fin (1 # 4)) in
  exists processed,
    preprocess w true s imgs = Ok processed /\
    List.length processed = List.length imgs /\
    (forall k name,
        nth_error imgs k = Some name ->
        match image_size w (Src name) with
        | None => nth_error processed k = Some (Src name, 0, 0)%Z
        | Some (iw, ih) =>
            if resize_raises w (Src name)
            then nth_error processed k = Some (Src name, iw, ih)
            else
              match scaled iw s, scaled ih s with
              | Ok sw, Ok sh =>
                  nth_error processed k
                  = Some (Tmp name, Z.max 1 sw, Z.max 1 sh)
              | _, _ => nth_error processed k = Some (Src name, iw, ih)
              end
        end) /\
    (forall l,
        all_return l -> ordinary w a -> imgs <> [] ->
        snd (Unguarded.main l w a) = Ok 0%Z /\
        List.length (filter is_set_row (fst (Unguarded.main l w a)))
        = List.length imgs /\
        forall k name,
          nth_error imgs k = Some name ->
          exists r opts,
            nth_error processed k = Some r /\
            In (image_event (run_context w a processed) (1 + Z.of_nat k) name
                            (rec_path r) opts) (fst (Unguarded.main l w a))).

(** C2, for a run with trace [trace]: every image of the listing has its
    image cell in the trace, shown with the display size of its record.
    With centering the cell carries both offsets, computed by
    [center_offset] against the column and the row; an offset is never
    negative, and while the space left is below [2^53] in magnitude it is
    [max(0, floor(space / 2))]; it is 0 for an image as wide as the
    column.  Without centering the cell carries no offset, which the
    worksheet builder reads as 0. *)
Definition offsets_centered (w : world) (a : args) (trace : list event)
  : Prop :=
  exists imgs processed,
    list_images_sorted w = Ok imgs /\
    preprocess w (use_physical w a) (for_ (scale a) (Fin (1 # 4))) imgs
    = Ok processed /\
    let col := (max_default0 (map rec_w processed) + 2 * pad_x a)%Z in
    forall k name,
      nth_error imgs k = Some name ->
      exists r opts,
        nth_error processed k = Some r /\
        display_size (run_context w a processed) k = Ok r /\
        In (image_event (run_context w a processed) (1 + Z.of_nat k) name
                        (rec_path r) opts) trace /\
        let row_pixels := (rec_h r + 2 * pad_y a)%Z in
        (do_center a = true ->
         exists xo yo,
           x_offset opts = Some xo /\ y_offset opts = Some yo /\
           center_offset col (rec_w r) = Ok xo /\
           center_offset row_pixels (rec_h r) = Ok yo /\
           (0 <= xo)%Z /\ (0 <= yo)%Z /\
           ((- 2 ^ 53 < col - rec_w r < 2 ^ 53)%Z ->
            xo = Z.max 0 ((col - rec_w r) / 2)) /\
           ((- 2 ^ 53 < row_pixels - rec_h r < 2 ^ 53)%Z ->
            yo = Z.max 0 ((row_pixels - rec_h r) / 2)) /\
           (col = rec_w r -> xo = 0%Z)) /\
        (do_center a = false ->
         x_offset opts = None /\ y_offset opts = None /\
         effective_offset (x_offset opts) = 0%Z /\
         effective_offset (y_offset opts) = 0%Z).

(** The sample command line with a horizontal padding of [2^53 + 1]
    pixels. *)
Definition wide_pad_args : args :=
  mkArgs (Fin 25) (Fin (1 # 4)) Physical "1" 9007199254740993 0.

(** ** Saving a resized copy (lines 100-107) *)

(** [s.rfind(".")], when there is a dot. *)
Fixpoint rfind_dot (s : string) : option nat :=
  match s with
  | EmptyString => None
  | String c t =>
      match rfind_dot t with
      | Some i => Some (S i)
      | None => if Ascii.eqb c "." then Some O else None
      end
  end.

(** Some character of [s] before position [n] is not a dot. *)
Fixpoint has_stem (n : nat) (s : string) : bool :=
  match n, s with
  | S k, String c t => negb (Ascii.eqb c ".") || has_stem k t
  | _, _ => false
  end.

(** [os.path.splitext(src)[1]] for [src = os.path.join(images_dir, name)]:
    [name] comes from [os.listdir] and holds no separator, so that the
    extension is the one of [name]: it starts at the last dot, unless
    only dots come before it. *)
Definition splitext_ext (name : string) : string :=
  match rfind_dot name with
  | Some d => if has_stem d name then drop d name else EmptyString
  | None => EmptyString
  end.

(** The [format] argument of [im.save]. *)
Inductive image_format : Type := JPEG | PNG.

(** The format a resized copy is saved in (lines 101-107). *)
Definition save_format (name : string) : image_format :=
  let ext := lower (splitext_ext name) in
  if existsb (String.eqb ext) [".jpg"; ".jpeg"] then JPEG
  else if String.eqb ext ".png" then PNG
  else PNG.

(** ** Vocabulary of the further properties *)

(** The events of the row loop: they write to the worksheet. *)
Definition is_sheet_event (e : event) : bool :=
  match e with
  | Set_row _ _ _ | Insert_image _ _ _ _ | Write _ _ _ _ => true
  | _ => false
  end.

(** The image cell of a row, either way it is filled. *)
Definition is_image_cell (e : event) : bool :=
  match e with
  | Insert_image _ _ _ _ => true
  | Write _ _ (CPath _) _ => true
  | _ => false
  end.

(** The same surroundings with another behaviour of [insert_image]. *)
Definition with_insert_raises (w : world) (f : path -> bool) : world :=
  mkWorld (listdir w) (PIL_AVAILABLE w) (image_size w) (resize_raises w) f.

(** The same command line with another value of [--resize]. *)
Definition with_resize (a : args) (m : resize_mode) : args :=
  mkArgs (fps a) (scale a) m (center a) (pad_x a) (pad_y a).

(** The notice of the fallback to scale-only mode. *)
Definition pillow_notice : event :=
  Print_stderr "Pillow not available, falling back to scale-only mode.".

(** The exceptions of the arithmetic of the program. *)
Definition arith_error (e : exn) : Prop := e = OverflowError \/ e = ValueError.

(** Everything of a trace but the image cells. *)
Definition outside_image_cells (trace : list event) : list event :=
  filter (fun e => negb (is_image_cell e)) trace.

(** The same surroundings on a machine where Pillow cannot be imported. *)
Definition without_pillow (w : world) : world :=
  mkWorld (listdir w) false (image_size w) (resize_raises w) (insert_raises w).

(** The events of the rows below the header. *)
Definition is_row_event (e : event) : bool :=
  match e with
  | Set_row _ _ _ | Insert_image _ _ _ _ => true
  | Write row _ _ _ => negb (row =? 0)%Z
  | _ => false
  end.

(** The cells of column B below the header, in the order they are
    written: row and text. *)
Definition timecode_cells (trace : list event) : list (Z * string) :=
  flat_map (fun e => match e with
                     | Write row col (CStr s) _ =>
                         if (col =? 1)%Z && (0 <? row)%Z then [(row, s)] else []
                     | _ => []
                     end) trace.

(** The sample command line in scale-only mode with [--scale nan]. *)
Definition nan_scale_args : args :=
  mkArgs (Fin 25) NaN ScaleOnly "1" 0 0.

(** [a <= b] for two [str]: code point by code point. *)
Definition str_le (a b : string) : Prop := String.leb a b = true.

(** The test [list_images_sorted] applies to a name. *)
Definition has_image_suffix (name : string) : bool :=
  endswith_any (lower name) image_suffixes.

(** The same surroundings with the directory listed in another order. *)
Definition with_listing (w : world) (names : list string) : world :=
  mkWorld (Ok names) (PIL_AVAILABLE w) (image_size w) (resize_raises w)
          (insert_raises w).

(** [k] characters [0]. *)
Fixpoint zeros (k : nat) : string :=
  match k with
  | O => EmptyString
  | S j => String "0" (zeros j)
  end.

(** A frame index that is not negative, in decimal, zero-padded to width
    eight. *)
Definition eight_digits (n : Z) : string :=
  zeros (8 - String.length (decimal n)) ++ decimal n.

(** The name of the screenshot of frame [n]: the letter f, the index on
    eight digits, the extension. *)
Definition frame_name (n : Z) (ext : string) : string :=
  String "f" (eight_digits n ++ ext).

(** What the fallback search of [parse_frame_from_filename] returns when
    it is run alone. *)
Definition search_only (name : string) : option Z :=
  match re_search false digits_re name with
  | Some m => int_or_none (group m)
  | None => None
  end.

(** [col_width_to_pixels(pixels_to_col_width(pixels))] *)
Definition pixel_round_trip (pixels : Z) : result Z :=
  (w <- pixels_to_col_width pixels ;; col_width_to_pixels w)%py.

(** The string [seconds_to_hhmmss_floor] builds for [s] whole seconds. *)
Definition hhmmss (s : Z) : string :=
  format_02d (s / 3600) ++ ":" ++ format_02d ((s mod 3600) / 60)
  ++ ":" ++ format_02d (s mod 60).

(** The sample command line with paddings of 4 and 3 pixels. *)
Definition padded_args : args :=
  mkArgs (Fin 25) (Fin (1 # 4)) Physical "1" 4 3.

(** Two records: a resized copy and a smaller original. *)
Definition sample_records : list record :=
  [(Tmp "a.png", 480, 270)%Z; (Src "b.png", 100, 50)%Z].

(** Every character of [s] is a dot. *)
Fixpoint all_dots (s : string) : bool :=
  match s with
  | EmptyString => true
  | String c t => Ascii.eqb c "." && all_dots t
  end.

(** ** The frame-code parser on names of any characters (lines 51-64) *)

Module Unicode.

(** A [str] as the sequence of its code points. *)
Definition str : Type := list N.

(** What the parser reads from the Unicode database of the interpreter:
    the value of a decimal digit ([unicodedata.decimal], defined on the
    characters of category Nd, which are the ones [\d] matches and [int]
    accepts) and the simple case mappings [re.IGNORECASE] works with. *)
Record database : Type := mkDatabase {
  decimal : N -> option Z;
  tolower : N -> N;
  toupper : N -> N
}.

Section Engine.

Variable db : database.

(** [\d] *)
Definition is_decimal (c : N) : bool :=
  match decimal db c with
  | Some _ => true
  | None => false
  end.

Record state : Type := mkState {
  pos : nat;
  rest : str;
  group1 : option str
}.

(** A character is cased when a case mapping changes it. *)
Definition iscased (c : N) : bool :=
  negb (N.eqb c (tolower db c)) || negb (N.eqb c (toupper db c)).

(** A literal of the pattern against a character of the text: with
    [re.IGNORECASE] a cased literal is compared after lower-casing, any
    other literal as it is.  (The letters of the two patterns have no
    further case-insensitive equivalents in the [re] module.) *)
Definition lit_matches (icase : bool) (lit : ascii) (c : N) : bool :=
  if icase && iscased (N_of_ascii lit)
  then N.eqb (tolower db c) (tolower db (N_of_ascii lit))
  else N.eqb c (N_of_ascii lit).

Definition step_char (p : N -> bool) (st : state) : list state :=
  match rest st with
  | c :: t => if p c then [mkState (S (pos st)) t (group1 st)] else []
  | [] => []
  end.

(** The matcher of [Re.run], on code points. *)
Fixpoint run (icase : bool) (r : regex) (st : state) : list state :=
  match r with
  | Bol => if Nat.eqb (pos st) 0 then [st] else []
  | Eol =>
      match rest st with
      | [] => [st]
      | [c] => if N.eqb c 10 then [st] else []
      | _ => []
      end
  | Lit c => step_char (lit_matches icase c) st
  | Digit => step_char is_decimal st
  | Seq a b => flat_map (run icase b) (run icase a st)
  | Alt a b => run icase a st ++ run icase b st
  | Opt a => run icase a st ++ [st]
  | Rep n a => rep n (run icase a) st
  | Group a =>
      map (fun st' =>
             mkState (pos st') (rest st')
                     (Some (firstn (pos st' - pos st) (rest st))))
          (run icase a st)
  end.

Definition re_match (icase : bool) (r : regex) (s : str) : option state :=
  hd_error (run icase r (mkState 0 s None)).

Fixpoint search_from (icase : bool) (r : regex) (p : nat) (s : str)
  : option state :=
  match run icase r (mkState p s None) with
  | st :: _ => Some st
  | [] =>
      match s with
      | [] => None
      | _ :: t => search_from icase r (S p) t
      end
  end.

Definition re_search (icase : bool) (r : regex) (s : str) : option state :=
  search_from icase r 0 s.

Definition group (m : state) : str :=
  match group1 m with
  | Some g => g
  | None => []
  end.

(** The number a string of decimal digits denotes, if it is one. *)
Fixpoint digits_value (acc : Z) (s : str) : option Z :=
  match s with
  | [] => Some acc
  | c :: t =>
      match decimal db c with
      | Some d => digits_value (10 * acc + d) t
      | None => None
      end
  end.

(** [int(s)] on a string of decimal digits; any other string raises
    [ValueError] (signs, blanks and underscores never reach it here). *)
Definition int_of_str (s : str) : result Z :=
  match s with
  | [] => Raise ValueError
  | _ =>
      match digits_value 0 s with
      | Some n => Ok n
      | None => Raise ValueError
      end
  end.

Definition int_or_none (g : str) : option Z :=
  match int_of_str g with
  | Ok n => Some n
  | Raise _ => None
  end.

Definition parse_frame_from_filename (name : str) : option Z :=
  match re_match true strict_re name with
  | Some m => int_or_none (group m)
  | None =>
      match re_search false digits_re name with
      | Some m => int_or_none (group m)
      | None => None
      end
  end.

(** The 8 characters of [name] from position [i] on exist and are decimal
    digits. *)
Definition window8 (name : str) (i : nat) : bool :=
  let ds := firstn 8 (skipn i name) in
  (List.length ds =? 8)%nat && forallb is_decimal ds.

End Engine.

(** The facts of the Unicode database the parser depends on: a decimal
    digit has a value from 0 to 9, and no decimal digit is lower-cased to
    the lower-case form of the letter f. *)
Definition sound (db : database) : Prop :=
  (forall c d, decimal db c = Some d -> (0 <= d <= 9)%Z) /\
  (forall c, tolower db c = tolower db 102 -> decimal db c = None).

(** The code points of a string of the model. *)
Fixpoint codes (s : string) : str :=
  match s with
  | EmptyString => []
  | String c t => N_of_ascii c :: codes t
  end.

(** A database with the digits 0-9 and the Arabic-Indic digits
    (U+0660 to U+0669), and the letters A-Z as the only capitals. *)
Definition sample_database : database :=
  mkDatabase
    (fun c => if (48 <=? c)%N && (c <=? 57)%N then Some (Z.of_N c - 48)%Z
              else if (1632 <=? c)%N && (c <=? 1641)%N
                   then Some (Z.of_N c - 1632)%Z
                   else None)
    (fun c => if (65 <=? c)%N && (c <=? 90)%N then (c + 32)%N else c)
    (fun c => if (97 <=? c)%N && (c <=? 122)%N then (c - 32)%N else c).

(** The name of eight Arabic-Indic digits, one to eight, and [.png]. *)
Definition arabic_indic_name : str :=
  [1633; 1634; 1635; 1636; 1637; 1638; 1639; 1640; 46; 112; 110; 103]%N.

(** Below 256 the decimal digits of the database are the characters 0-9,
    with their values. *)
Definition latin1_digits (db : database) : Prop :=
  forall c : ascii,
    decimal db (N_of_ascii c)
    = if is_digit c then Some (digit_value c) else None.

End Unicode.

(** * Properties *)

(** ** Rounding to binary64 *)

Section Rounding.

Open Scope Q_scope.

Lemma pow2_pos e : 0 < pow2 e.
Proof. apply Qpower_0_lt. reflexivity. Qed.

Lemma pow2_plus a b : pow2 (a + b) == pow2 a * pow2 b.
Proof. apply Qpower_plus. discriminate. Qed.

Lemma pow2_inject k : (0 <= k)%Z -> pow2 k == inject_Z (2 ^ k).
Proof. intros H. unfold pow2. rewrite (Zpower_Qpower 2 k H). reflexivity. Qed.

Lemma pow2_le a b : (a <= b)%Z -> pow2 a <= pow2 b.
Proof. intros H. apply Qpower_le_compat_l; [exact H | discriminate]. Qed.

Lemma pow2_lt_inv a b : pow2 a < pow2 b -> (a < b)%Z.
Proof. intros H. apply (Qpower_lt_compat_l_inv 2); [exact H | reflexivity]. Qed.

Lemma Qle_bool_false a b : Qle_bool a b = false -> b < a.
Proof.
  intros H. apply Qnot_le_lt. intros Hle.
  apply Qle_bool_iff in Hle. congruence.
Qed.

Lemma round_half_even_bounds q :
  q - (1 # 2) <= inject_Z (round_half_even q) <= q + (1 # 2).
Proof.
  unfold round_half_even.
  pose proof (Qfloor_le q) as Hlo.
  pose proof (Qlt_floor q) as Hhi.
  rewrite inject_Z_plus in Hhi. change (inject_Z 1) with 1 in Hhi.
  destruct (Qle_bool (q - inject_Z (Qfloor q)) (1 # 2)) eqn:E1.
  - apply Qle_bool_iff in E1.
    destruct (Qle_bool (1 # 2) (q - inject_Z (Qfloor q))) eqn:E2.
    + apply Qle_bool_iff in E2.
      destruct (Z.even (Qfloor q)).
      * lra.
      * rewrite inject_Z_plus. change (inject_Z 1) with 1. lra.
    + lra.
  - apply Qle_bool_false in E1.
    rewrite inject_Z_plus. change (inject_Z 1) with 1. lra.
Qed.

Lemma ilog2_lower q : 0 < q -> pow2 (ilog2 q) <= q.
Proof.
  intros Hq. unfold ilog2.
  destruct (Qle_bool _ q) eqn:E.
  - now apply Qle_bool_iff.
  - clear E. destruct q as [n d]. cbn [Qnum Qden].
    assert (Hn : (0 < n)%Z) by (unfold Qlt in Hq; cbn in Hq; lia).
    pose proof (Z.log2_spec n Hn) as [Hn1 _].
    pose proof (Z.log2_spec (Z.pos d) (Pos2Z.is_pos d)) as [_ Hd2].
    pose proof (Z.log2_nonneg n) as Hln.
    pose proof (Z.log2_nonneg (Z.pos d)) as Hld.
    set (ln := Z.log2 n) in *. set (ld := Z.log2 (Z.pos d)) in *.
    assert (Hsplit : pow2 (ln - ld - 1) * pow2 (ld + 1) == pow2 ln).
    { rewrite <- pow2_plus. replace (ln - ld - 1 + (ld + 1))%Z with ln by lia.
      reflexivity. }
    rewrite (pow2_inject Hln) in Hsplit.
    assert (Hd' : inject_Z (Z.pos d) <= pow2 (ld + 1)).
    { rewrite pow2_inject by lia. rewrite <- Zle_Qle.
      replace (ld + 1)%Z with (Z.succ ld) by lia. lia. }
    assert (Hn' : inject_Z (2 ^ ln) <= inject_Z n) by (rewrite <- Zle_Qle; lia).
    pose proof (pow2_pos (ln - ld - 1)) as Hp.
    assert (Hq' : n # d == inject_Z n / inject_Z (Z.pos d)) by apply Qmake_Qdiv.
    rewrite Hq'.
    assert (Hdpos : 0 < inject_Z (Z.pos d)) by (unfold Qlt; cbn; lia).
    apply Qle_shift_div_l; [exact Hdpos|].
    apply Qle_trans with (pow2 (ln - ld - 1) * pow2 (ld + 1)).
    + apply Qmult_le_l; assumption.
    + rewrite Hsplit. exact Hn'.
Qed.

Lemma ulp_exp_bound q :
  ~ q == 0 -> pow2 (ulp_exp q) <= Qabs q * pow2 (-52) \/ ulp_exp q = (-1074)%Z.
Proof.
  intros Hq. unfold ulp_exp.
  destruct (Z.max_spec (ilog2 (Qabs q) - 52) (-1074)) as [[_ ->] | [_ ->]].
  - now right.
  - left.
    replace (ilog2 (Qabs q) - 52)%Z with (ilog2 (Qabs q) + -52)%Z by lia.
    rewrite pow2_plus.
    apply Qmult_le_compat_r.
    + apply ilog2_lower.
      apply Qabs_case; intros H.
      * apply Qle_lteq in H. destruct H as [H | H]; [exact H|].
        exfalso. apply Hq. now symmetry.
      * apply Qle_lteq in H. destruct H as [H | H]; [lra|].
        exfalso. now apply Hq.
    + apply Qlt_le_weak, pow2_pos.
Qed.

Lemma rnd_value q :
  ~ q == 0 ->
  let r := inject_Z (round_half_even (q / pow2 (ulp_exp q))) * pow2 (ulp_exp q) in
  q - pow2 (ulp_exp q) * (1 # 2) <= r <= q + pow2 (ulp_exp q) * (1 # 2).
Proof.
  intros Hq r. subst r.
  pose proof (pow2_pos (ulp_exp q)) as HP.
  set (P := pow2 (ulp_exp q)) in *.
  pose proof (round_half_even_bounds (q / P)) as [Hlo Hhi].
  set (m := inject_Z (round_half_even (q / P))) in *.
  assert (Hq' : q == (q / P) * P) by (field; lra).
  set (t := q / P) in *.
  clearbody m t P.
  assert (H1 : (t - (1 # 2)) * P <= m * P) by (apply Qmult_le_compat_r; lra).
  assert (H2 : m * P <= (t + (1 # 2)) * P) by (apply Qmult_le_compat_r; lra).
  rewrite Hq'. split; lra.
Qed.

Lemma Qabs_pos_nonzero q : ~ q == 0 -> 0 < Qabs q.
Proof.
  intros Hq. apply Qabs_case; intros H.
  - apply Qle_lteq in H. destruct H as [H | H]; [exact H|].
    exfalso. apply Hq. now symmetry.
  - apply Qle_lteq in H. destruct H as [H | H]; [lra|].
    exfalso. now apply Hq.
Qed.

Lemma ulp_exp_le q :
  ~ q == 0 -> pow2 (ulp_exp q) <= Qabs q * pow2 (-52) + pow2 (-1074).
Proof.
  intros Hq. pose proof (pow2_pos (-1074)) as H1.
  pose proof (Qabs_pos_nonzero Hq) as H2.
  pose proof (pow2_pos (-52)) as H3.
  assert (0 <= Qabs q * pow2 (-52)) by (apply Qmult_le_0_compat; lra).
  destruct (ulp_exp_bound Hq) as [Hb | ->]; lra.
Qed.

Lemma ulp_exp_normal q :
  pow2 (-1022) <= Qabs q -> pow2 (ulp_exp q) <= Qabs q * pow2 (-52).
Proof.
  intros Hq.
  assert (Hnz : ~ q == 0).
  { intros E. rewrite E in Hq. pose proof (pow2_pos (-1022)).
    change (Qabs 0) with 0 in Hq. lra. }
  destruct (ulp_exp_bound Hnz) as [H | ->]; [exact H|].
  change (-1074)%Z with (-1022 + -52)%Z. rewrite pow2_plus.
  apply Qmult_le_compat_r; [exact Hq|]. apply Qlt_le_weak, pow2_pos.
Qed.

Lemma Qabs_bounds x y e : x - e <= y <= x + e -> Qabs (y - x) <= e.
Proof. intros [H1 H2]. apply Qabs_Qle_condition. split; lra. Qed.

Lemma rnd_finite q :
  Qabs q <= pow2 1000 ->
  exists r, rnd q = Fin r /\ Qabs (r - q) <= pow2 (ulp_exp q) * (1 # 2).
Proof.
  intros Hb. unfold rnd.
  destruct (Qeq_bool q 0) eqn:E0.
  - apply Qeq_bool_iff in E0. exists 0. split; [reflexivity|].
    pose proof (pow2_pos (ulp_exp q)).
    setoid_replace (0 - q) with 0 by lra. change (Qabs 0) with 0. lra.
  - assert (Hnz : ~ q == 0).
    { intros E. apply Qeq_bool_iff in E. congruence. }
    pose proof (rnd_value Hnz) as Hv. cbv zeta in Hv.
    pose proof (ulp_exp_le Hnz) as Hu.
    set (P := pow2 (ulp_exp q)) in *.
    set (m := inject_Z (round_half_even (q / P))) in *.
    assert (Herr : Qabs (Qred (m * P) - q) <= P * (1 # 2)).
    { rewrite Qred_correct. now apply Qabs_bounds. }
    destruct (Qle_bool (pow2 1024) (Qabs (Qred (m * P)))) eqn:E1.
    + exfalso. apply Qle_bool_iff in E1. rewrite Qred_correct in E1, Herr.
      pose proof (Qabs_triangle (m * P - q) q) as Ht.
      setoid_replace (m * P - q + q) with (m * P) in Ht by ring.
      assert (H52 : pow2 (-52) <= 1) by (apply (@pow2_le (-52) 0); lia).
      assert (H1074 : pow2 (-1074) <= 1) by (apply (@pow2_le (-1074) 0); lia).
      assert (H1000 : 1 <= pow2 1000) by (apply (@pow2_le 0 1000); lia).
      assert (H1024 : pow2 1000 * 4 <= pow2 1024).
      { change 4 with (pow2 2). rewrite <- pow2_plus. apply pow2_le. lia. }
      pose proof (Qabs_nonneg q) as Hq0.
      assert (pow2 (-52) * Qabs q <= 1 * Qabs q).
      { apply Qmult_le_compat_r; [exact H52 | exact Hq0]. }
      lra.
    + exists (Qred (m * P)). split; [reflexivity | exact Herr].
Qed.

Lemma rnd_rel q :
  1 # 2 <= q -> q <= 1152921504606846976 ->
  exists r, rnd q = Fin r /\ q - q * eps <= r <= q + q * eps.
Proof.
  intros Hlo Hhi.
  assert (Habs : Qabs q == q) by (apply Qabs_pos; lra).
  assert (H60 : pow2 60 == 1152921504606846976) by reflexivity.
  assert (Hm1 : pow2 (-1) == 1 # 2) by reflexivity.
  assert (Hm52 : pow2 (-52) * (1 # 2) == eps) by reflexivity.
  pose proof (@pow2_le 60 1000 ltac:(lia)) as H1000.
  pose proof (@pow2_le (-1022) (-1) ltac:(lia)) as H1022.
  destruct (@rnd_finite q) as (r & Hr & Herr).
  { rewrite Habs. lra. }
  exists r. split; [exact Hr|].
  assert (Hu : pow2 (ulp_exp q) <= Qabs q * pow2 (-52)).
  { apply ulp_exp_normal. rewrite Habs. lra. }
  rewrite Habs in Hu.
  apply Qabs_Qle_condition in Herr.
  assert (Hq2 : q * pow2 (-52) * (1 # 2) == q * eps).
  { rewrite <- Hm52. ring. }
  lra.
Qed.

Lemma is_neg_false q : 0 <= q -> is_neg q = false.
Proof.
  intros H. unfold is_neg. apply Z.ltb_ge.
  unfold Qle in H. cbn in H. lia.
Qed.

Lemma is_zero_false q : ~ q == 0 -> is_zero q = false.
Proof.
  intros H. unfold is_zero. destruct (Qeq_bool q 0) eqn:E; [|reflexivity].
  apply Qeq_bool_iff in E. contradiction.
Qed.

End Rounding.

(** The model of binary64 agrees with the arithmetic of the hardware on
    samples (the kernel's primitive floats are binary64). *)
Example rnd_agrees_with_binary64 :
  rnd (1 # 10) = of_prim 0x1.999999999999ap-4%float /\
  fmul (Fin 7) (rnd (1 # 10)) = of_prim (7 * 0x1.999999999999ap-4)%float /\
  fdiv (Fin 1) (rnd (1 # 10)) = Ok (of_prim (1 / 0x1.999999999999ap-4)%float) /\
  fadd (rnd (1 # 10)) (rnd (2 # 10))
    = of_prim (0x1.999999999999ap-4 + 0x1.999999999999ap-3)%float /\
  fdiv (Fin 475) (Fin 7) = Ok (of_prim (475 / 7)%float) /\
  int_truediv 18014398509481986 2 = Ok (of_prim 0x1p+53%float) /\
  fmul (Fin 7) (Fin 10414574138294280)
    = of_prim (7 * 0x1.28000000000040p+53)%float.
Proof. vm_compute. repeat split; reflexivity. Qed.

(** ** Unit converter *)

Section UnitConverter.

Open Scope Q_scope.

Lemma Qtrunc_spec q :
  (0 <= q -> inject_Z (Qtrunc q) <= q < inject_Z (Qtrunc q) + 1) /\
  (q <= 0 -> inject_Z (Qtrunc q) - 1 < q <= inject_Z (Qtrunc q)).
Proof.
  unfold Qtrunc, is_neg.
  destruct (Qnum q <? 0)%Z eqn:E.
  - apply Z.ltb_lt in E.
    assert (Hq : q < 0) by (unfold Qlt; cbn; lia).
    pose proof (Qle_ceiling q) as H1. pose proof (Qceiling_lt q) as H2.
    unfold Z.sub in H2. rewrite inject_Z_plus in H2.
    change (inject_Z (- (1))) with (-1) in H2.
    split; intros; [lra | split; lra].
  - apply Z.ltb_ge in E.
    assert (Hq : 0 <= q) by (unfold Qle; cbn; lia).
    pose proof (Qfloor_le q) as H1. pose proof (Qlt_floor q) as H2.
    rewrite inject_Z_plus in H2. change (inject_Z 1) with 1 in H2.
    split; intros; [split; lra|].
    assert (H0 : (0 <= Qfloor q)%Z).
    { assert (Hlt : inject_Z (-1) < inject_Z (Qfloor q)).
      { change (inject_Z (-1)) with (-1). lra. }
      rewrite <- Zlt_Qlt in Hlt. lia. }
    rewrite Zle_Qle in H0. change (inject_Z 0) with 0 in H0.
    split; lra.
Qed.

(** C3, as the code has it: the conversion takes the float [7.0 * w + 5]
    and truncates it toward zero (it does not round to nearest); an
    infinite or NaN value raises. *)
Theorem col_width_to_pixels_truncates (width : float) :
  match fadd (fmul (Fin 7) width) (Fin 5) with
  | Fin v =>
      exists p, col_width_to_pixels width = Ok p /\
                (0 <= v -> inject_Z p <= v < inject_Z p + 1) /\
                (v <= 0 -> inject_Z p - 1 < v <= inject_Z p)
  | Inf _ => col_width_to_pixels width = Raise OverflowError
  | NaN => col_width_to_pixels width = Raise ValueError
  end.
Proof.
  unfold col_width_to_pixels.
  destruct (fadd (fmul (Fin 7) width) (Fin 5)) as [v | s |]; cbn [py_int].
  - exists (Qtrunc v). split; [reflexivity | apply Qtrunc_spec].
  - reflexivity.
  - reflexivity.
Qed.

(** C3 fails as stated: at width 0.25 the value [7.0 * w + 5] is exactly
    6.75, whose nearest integer is 7, and the conversion returns 6. *)
Lemma col_width_to_pixels_not_nearest :
  fadd (fmul (Fin 7) (Fin (1 # 4))) (Fin 5) = Fin (27 # 4) /\
  py_round (Fin (27 # 4)) = Ok 7%Z /\
  col_width_to_pixels (Fin (1 # 4)) = Ok 6%Z.
Proof. vm_compute. repeat split; reflexivity. Qed.

(** C4, as the code has it: for every width from 1.0 up to [2^50] the
    round trip returns a value within one unit of the width. *)
Theorem round_trip_within_one (x : Q) :
  1 <= x -> x <= 1125899906842624 ->
  exists y, round_trip (Fin x) = Ok (Fin y) /\ Qabs (y - x) <= 1.
Proof.
  intros Hlo Hhi. unfold eps in *.
  unfold round_trip, col_width_to_pixels, pixels_to_col_width. cbn [fmul].
  destruct (@rnd_rel (7 * x)) as (a & Ha & Ha1); [lra | lra |].
  rewrite Ha. cbn [fadd].
  destruct (@rnd_rel (a + 5)) as (b & Hb & Hb1);
    [unfold eps in *; lra | unfold eps in *; lra |].
  rewrite Hb. cbn [py_int]. unfold Qtrunc.
  unfold eps in *.
  rewrite is_neg_false by lra.
  pose proof (Qfloor_le b) as Hp1. pose proof (Qlt_floor b) as Hp2.
  rewrite inject_Z_plus in Hp2. change (inject_Z 1) with 1 in Hp2.
  set (p := Qfloor b) in *.
  cbn [rbind]. unfold float_of_int.
  assert (Hp5 : inject_Z (p - 5) == inject_Z p - 5).
  { unfold Zminus. rewrite inject_Z_plus. reflexivity. }
  destruct (@rnd_rel (inject_Z (p - 5))) as (c & Hc & Hc1);
    [unfold eps; rewrite Hp5; lra | unfold eps; rewrite Hp5; lra |].
  rewrite Hc. cbn [rbind]. unfold fdiv.
  rewrite is_zero_false by (intros E; discriminate E).
  destruct (@rnd_rel (c / 7)) as (v & Hv & Hv1).
  { unfold eps in *. rewrite Hp5 in Hc1. apply Qle_shift_div_l; lra. }
  { unfold eps in *. rewrite Hp5 in Hc1. apply Qle_shift_div_r; lra. }
  rewrite Hv. cbn [rbind]. unfold max2, fgt, flt.
  unfold eps in *. rewrite Hp5 in Hc1.
  assert (Hc7 : c / 7 * 7 == c) by (field).
  set (t := c / 7) in *.
  destruct (Qle_bool v 1) eqn:E; cbn [negb].
  - apply Qle_bool_iff in E. exists 1. split; [reflexivity|].
    apply Qabs_Qle_condition. split; lra.
  - apply Qle_bool_false in E. exists v. split; [reflexivity|].
    apply Qabs_Qle_condition. split; lra.
Qed.

Lemma round_trip_within_one_witness :
  exists y, round_trip (Fin 10) = Ok (Fin y) /\ Qabs (y - 10) <= 1.
Proof. apply round_trip_within_one; discriminate. Defined.

(** C4 fails as stated: 10414574138294280 is a binary64 value above 1.0,
    and its round trip is 2 units away. *)
Lemma round_trip_two_units_off :
  1 <= 10414574138294280 /\
  rnd 10414574138294280 = Fin 10414574138294280 /\
  round_trip (Fin 10414574138294280) = Ok (Fin 10414574138294282) /\
  ~ Qabs (10414574138294282 - 10414574138294280) <= 1.
Proof.
  split; [discriminate|]. split; [reflexivity|]. split; [reflexivity|].
  intros H. vm_compute in H. apply H. reflexivity.
Qed.

End UnitConverter.

(** ** Frame-code parser *)

Section FrameCodeParser.

Lemma rep_digits n st :
  rep n (step_char is_digit) st =
  if (String.length (substring 0 n (rest st)) =? n)%nat
     && all_digits (substring 0 n (rest st))
  then [mkState (pos st + n) (drop n (rest st)) (group1 st)]
  else [].
Proof.
  revert st. induction n as [|n IH]; intros [p s g]; cbn [rep rest pos group1].
  - destruct s; cbn; rewrite Nat.add_0_r; reflexivity.
  - unfold step_char at 2. cbn [rest pos group1].
    destruct s as [|c t].
    + reflexivity.
    + cbn [substring String.length all_digits drop].
      destruct (is_digit c); cbn [flat_map andb].
      * rewrite IH. cbn [rest pos group1]. rewrite app_nil_r.
        replace (S p + n)%nat with (p + S n)%nat by lia.
        change (S (String.length (substring 0 n t)) =? S n)%nat
          with (String.length (substring 0 n t) =? n)%nat.
        reflexivity.
      * rewrite andb_false_r. reflexivity.
Qed.

Lemma rep_keeps_group1 (f : state -> list state) n :
  (forall st st', In st' (f st) -> group1 st' = group1 st) ->
  forall st st', In st' (rep n f st) -> group1 st' = group1 st.
Proof.
  intros Hf. induction n as [|n IH]; intros st st' Hin; cbn in Hin.
  - destruct Hin as [<- | []]. reflexivity.
  - apply in_flat_map in Hin. destruct Hin as (st1 & H1 & H2).
    rewrite (IH _ _ H2). now apply Hf.
Qed.

Lemma run_keeps_group1 ic r :
  no_group r = true ->
  forall st st', In st' (run ic r st) -> group1 st' = group1 st.
Proof.
  induction r as [| | c | | a IHa b IHb | a IHa b IHb | a IHa | n a IHa | a IHa];
    cbn [no_group run]; intros Hng st st' Hin.
  - destruct (pos st =? 0)%nat; [|contradiction].
    destruct Hin as [<- | []]; reflexivity.
  - destruct (rest st) as [|c [|d t]]; try contradiction.
    + destruct Hin as [<- | []]; reflexivity.
    + destruct (Ascii.eqb c "010"); [|contradiction].
      destruct Hin as [<- | []]; reflexivity.
  - unfold step_char in Hin. destruct (rest st); [contradiction|].
    destruct (lit_matches ic c a); [|contradiction].
    destruct Hin as [<- | []]; reflexivity.
  - unfold step_char in Hin. destruct (rest st); [contradiction|].
    destruct (is_digit a); [|contradiction].
    destruct Hin as [<- | []]; reflexivity.
  - apply andb_prop in Hng. destruct Hng as [Ha Hb].
    apply in_flat_map in Hin. destruct Hin as (st1 & H1 & H2).
    rewrite (IHb Hb _ _ H2). now apply IHa.
  - apply andb_prop in Hng. destruct Hng as [Ha Hb].
    apply in_app_or in Hin. destruct Hin as [H | H]; [now apply IHa | now apply IHb].
  - apply in_app_or in Hin. destruct Hin as [H | [<- | []]]; [now apply IHa | reflexivity].
  - revert st st' Hin. apply rep_keeps_group1. now apply IHa.
  - discriminate.
Qed.

Lemma run_group_digits ic p s g :
  run ic (Group (Rep 8 Digit)) (mkState p s g) =
  if window8 s 0
  then [mkState (p + 8) (drop 8 s) (Some (substring 0 8 s))]
  else [].
Proof.
  cbn [run]. change (rep 8 (fun st => step_char is_digit st)) with (rep 8 (step_char is_digit)).
  rewrite rep_digits. cbn [rest pos group1]. unfold window8.
  destruct ((String.length (substring 0 8 s) =? 8)%nat && all_digits (substring 0 8 s)).
  - cbn [map pos rest]. replace (p + 8 - p)%nat with 8%nat by lia. reflexivity.
  - reflexivity.
Qed.

Lemma hd_error_In {A : Type} (l : list A) (x : A) : hd_error l = Some x -> In x l.
Proof. destruct l; cbn; [discriminate | intros [= ->]; now left]. Qed.

Lemma run_seq ic a b st :
  run ic (a @@ b) st = flat_map (run ic b) (run ic a st).
Proof. reflexivity. Qed.

Lemma strict_match_inv name m :
  re_match true strict_re name = Some m ->
  exists c t, name = String c t /\ lit_matches true "f" c = true /\
              window8 t 0 = true /\ group m = substring 0 8 t.
Proof.
  unfold re_match, strict_re. intros H. apply hd_error_In in H.
  rewrite run_seq in H. apply in_flat_map in H. destruct H as (st0 & H0 & H).
  cbn in H0. destruct H0 as [<- | []].
  rewrite run_seq in H. apply in_flat_map in H. destruct H as (st1 & H1 & H).
  cbn [run] in H1. unfold step_char in H1. cbn [rest pos group1] in H1.
  destruct name as [|c t]; [contradiction|].
  destruct (lit_matches true "f" c) eqn:Ec; [|contradiction].
  destruct H1 as [<- | []].
  rewrite run_seq in H. apply in_flat_map in H. destruct H as (st2 & H2 & H).
  rewrite run_group_digits in H2.
  destruct (window8 t 0) eqn:Ew; [|contradiction].
  destruct H2 as [<- | []].
  exists c, t. repeat split; try assumption; try reflexivity.
  unfold group.
  apply run_keeps_group1 in H; [|reflexivity].
  cbn [group1] in H. rewrite H. reflexivity.
Qed.

Lemma lit_f_not_digit c : lit_matches true "f" c = true -> is_digit c = false.
Proof.
  destruct c as [[] [] [] [] [] [] [] []]; vm_compute; intros H;
    first [reflexivity | discriminate H].
Qed.

Lemma window8_tail c t i : window8 (String c t) (S i) = window8 t i.
Proof. reflexivity. Qed.

Lemma window8_head_digit c t : window8 (String c t) 0 = true -> is_digit c = true.
Proof.
  unfold window8. cbn [substring all_digits]. intros H.
  apply andb_prop in H. destruct H as [_ H]. apply andb_prop in H. tauto.
Qed.

Lemma window8_empty i : window8 EmptyString i = false.
Proof. destruct i; reflexivity. Qed.

Lemma search_first_window s :
  forall p i,
    window8 s i = true ->
    (forall j, (j < i)%nat -> window8 s j = false) ->
    exists m, search_from false digits_re p s = Some m /\
              group m = substring i 8 s.
Proof.
  induction s as [|c t IH]; intros p i Hw Hmin.
  - rewrite window8_empty in Hw. discriminate.
  - cbn [search_from]. unfold digits_re. rewrite run_group_digits.
    destruct i as [|i].
    + rewrite Hw. eexists. split; reflexivity.
    + rewrite (Hmin 0%nat) by lia.
      rewrite window8_tail in Hw.
      destruct (IH (S p) i Hw) as (m & Hm & Hg).
      { intros j Hj. rewrite <- (window8_tail c t j). apply Hmin. lia. }
      exists m. split; [exact Hm | exact Hg].
Qed.

Lemma search_no_window s :
  forall p, (forall i, window8 s i = false) ->
            search_from false digits_re p s = None.
Proof.
  induction s as [|c t IH]; intros p Hno.
  - reflexivity.
  - cbn [search_from]. unfold digits_re. rewrite run_group_digits.
    rewrite (Hno 0%nat). apply IH.
    intros i. rewrite <- (window8_tail c t i). apply Hno.
Qed.

Lemma digits_to_Z_acc_nonneg s :
  forall acc, (0 <= acc)%Z -> all_digits s = true -> (0 <= digits_to_Z_acc acc s)%Z.
Proof.
  induction s as [|c t IH]; intros acc Hacc Hd; cbn [digits_to_Z_acc].
  - exact Hacc.
  - cbn [all_digits] in Hd. apply andb_prop in Hd. destruct Hd as [Hc Ht].
    apply IH; [|exact Ht].
    unfold is_digit, in_range in Hc. apply andb_prop in Hc. destruct Hc as [Hc _].
    apply N.leb_le in Hc. unfold digit_value. lia.
Qed.

Lemma int_or_none_window s i :
  window8 s i = true ->
  int_or_none (substring i 8 s) = Some (digits_to_Z (substring i 8 s)).
Proof.
  unfold window8, int_or_none, int_of_str. intros H.
  apply andb_prop in H. destruct H as [Hlen Hd].
  apply Nat.eqb_eq in Hlen. rewrite Hd.
  destruct (substring i 8 s); [discriminate Hlen | reflexivity].
Qed.


Example strict_re_samples :
  option_map group (re_match true strict_re "F00001234.JPeG") = Some "00001234" /\
  re_match true strict_re "f00001234.pngx" = None /\
  re_match true strict_re "xf00001234.png" = None /\
  re_match true strict_re "f0001234.png" = None /\
  option_map group (re_search false digits_re "a1234567b123456789") = Some "12345678".
Proof. vm_compute. repeat split; reflexivity. Qed.



End FrameCodeParser.

(** ** Timecode converter *)

Section TimecodeConverter.

Lemma digit_char_spec d :
  (0 <= d <= 9)%Z ->
  is_digit (digit_char d) = true /\ digit_value (digit_char d) = d.
Proof.
  intros H.
  assert (E : (d = 0 \/ d = 1 \/ d = 2 \/ d = 3 \/ d = 4 \/ d = 5 \/ d = 6
               \/ d = 7 \/ d = 8 \/ d = 9)%Z) by lia.
  repeat (destruct E as [-> | E]; [split; reflexivity|]).
  subst d. split; reflexivity.
Qed.

Lemma digits_to_Z_acc_app s1 s2 acc :
  digits_to_Z_acc acc (s1 ++ s2) = digits_to_Z_acc (digits_to_Z_acc acc s1) s2.
Proof.
  revert acc. induction s1 as [|c t IH]; intros acc; cbn; [reflexivity | apply IH].
Qed.

Lemma all_digits_app s1 s2 :
  all_digits (s1 ++ s2) = all_digits s1 && all_digits s2.
Proof.
  induction s1 as [|c t IH]; cbn; [reflexivity|].
  rewrite IH. apply andb_assoc.
Qed.

Lemma string_length_app s1 s2 :
  String.length (s1 ++ s2) = (String.length s1 + String.length s2)%nat.
Proof. induction s1 as [|c t IH]; cbn; [reflexivity | now rewrite IH]. Qed.

Lemma string_app_assoc (s1 s2 s3 : string) : (s1 ++ s2) ++ s3 = s1 ++ (s2 ++ s3).
Proof. induction s1 as [|c t IH]; cbn; [reflexivity | now rewrite IH]. Qed.

Lemma decimal_acc_app fuel :
  forall n acc, decimal_acc fuel n acc = decimal_acc fuel n EmptyString ++ acc.
Proof.
  induction fuel as [|k IH]; intros n acc; cbn [decimal_acc].
  - reflexivity.
  - destruct (n <? 10)%Z.
    + reflexivity.
    + rewrite (IH _ (String _ acc)), (IH _ (String _ EmptyString)).
      rewrite string_app_assoc. reflexivity.
Qed.

Lemma decimal_acc_S k n acc :
  decimal_acc (S k) n acc =
  if (n <? 10)%Z then String (digit_char (n mod 10)) acc
  else decimal_acc k (n / 10) (String (digit_char (n mod 10)) acc).
Proof. reflexivity. Qed.

Lemma decimal_acc_spec k :
  forall n, (0 <= n < 10 ^ Z.of_nat (S k))%Z ->
            let s := decimal_acc (S k) n EmptyString in
            all_digits s = true /\ digits_to_Z s = n /\
            (1 <= String.length s)%nat.
Proof.
  induction k as [|k IH]; intros n Hn; rewrite decimal_acc_S;
    assert (Hmod : (0 <= n mod 10 <= 9)%Z)
      by (pose proof (Z.mod_pos_bound n 10); lia);
    destruct (digit_char_spec Hmod) as [Hd Hv];
    destruct (n <? 10)%Z eqn:E.
  - apply Z.ltb_lt in E. cbn zeta.
    cbn [all_digits digits_to_Z digits_to_Z_acc String.length].
    rewrite Hd, Hv. rewrite Z.mod_small by lia. repeat split; lia.
  - apply Z.ltb_ge in E. change (10 ^ Z.of_nat 1)%Z with 10%Z in Hn. lia.
  - apply Z.ltb_lt in E. cbn zeta.
    cbn [all_digits digits_to_Z digits_to_Z_acc String.length].
    rewrite Hd, Hv. rewrite Z.mod_small by lia. repeat split; lia.
  - apply Z.ltb_ge in E. cbn zeta. rewrite decimal_acc_app.
    destruct (IH (n / 10)%Z) as (Ha & Hb & Hc).
    { split; [apply Z.div_pos; lia|].
      apply Z.div_lt_upper_bound; [lia|].
      rewrite (Nat2Z.inj_succ (S k)), Z.pow_succ_r in Hn by lia. lia. }
    rewrite all_digits_app, Ha. cbn [all_digits]. rewrite Hd.
    unfold digits_to_Z in *. rewrite digits_to_Z_acc_app, Hb.
    cbn [digits_to_Z_acc]. rewrite Hv, string_length_app.
    repeat split; [|lia].
    pose proof (Z.div_mod n 10). lia.
Qed.

Lemma decimal_spec n :
  (0 <= n)%Z ->
  all_digits (decimal n) = true /\ digits_to_Z (decimal n) = n /\
  (1 <= String.length (decimal n))%nat.
Proof.
  intros Hn. unfold decimal. apply decimal_acc_spec.
  split; [exact Hn|].
  rewrite Nat2Z.inj_succ, Z2Nat.id by apply Z.log2_nonneg.
  destruct (Z.eq_dec n 0) as [-> | Hnz]; [reflexivity|].
  pose proof (Z.log2_spec n ltac:(lia)) as [_ H].
  apply Z.lt_le_trans with (1 := H).
  apply Z.pow_le_mono_l. pose proof (Z.log2_nonneg n). lia.
Qed.

Lemma format_02d_below_100 n :
  (0 <= n <= 99)%Z -> format_02d n = two_digits n.
Proof.
  intros Hn.
  assert (Hall : forallb (fun k => String.eqb (format_02d (Z.of_nat k))
                                             (two_digits (Z.of_nat k)))
                         (seq 0 100) = true) by (vm_compute; reflexivity).
  rewrite forallb_forall in Hall.
  specialize (Hall (Z.to_nat n)).
  rewrite Z2Nat.id in Hall by lia.
  apply String.eqb_eq, Hall, in_seq. lia.
Qed.

Lemma format_02d_spec n :
  (0 <= n)%Z ->
  all_digits (format_02d n) = true /\ digits_to_Z (format_02d n) = n /\
  (2 <= String.length (format_02d n))%nat.
Proof.
  intros Hn. destruct (Z_lt_le_dec n 100) as [Hlt | Hge].
  - rewrite format_02d_below_100 by lia. unfold two_digits.
    assert (H1 : (0 <= n / 10 <= 9)%Z).
    { split; [apply Z.div_pos; lia|].
      assert (n / 10 < 10)%Z by (apply Z.div_lt_upper_bound; lia). lia. }
    assert (H2 : (0 <= n mod 10 <= 9)%Z) by (pose proof (Z.mod_pos_bound n 10); lia).
    destruct (digit_char_spec H1) as [Hd1 Hv1].
    destruct (digit_char_spec H2) as [Hd2 Hv2].
    cbn [all_digits digits_to_Z digits_to_Z_acc String.length].
    rewrite Hd1, Hd2, Hv1, Hv2. repeat split; [|lia].
    pose proof (Z.div_mod n 10). lia.
  - unfold format_02d.
    destruct (n <? 0)%Z eqn:E0; [apply Z.ltb_lt in E0; lia|].
    destruct (n <? 10)%Z eqn:E1; [apply Z.ltb_lt in E1; lia|].
    destruct (decimal_spec Hn) as (Ha & Hb & Hc).
    repeat split; [exact Ha | exact Hb |].
    (* a value of 100 or more has at least two digits *)
    destruct (decimal n) as [|c1 [|c2 t]] eqn:Ed; cbn [String.length] in *; try lia.
    exfalso. unfold digits_to_Z in Hb. cbn [digits_to_Z_acc] in Hb.
    cbn [all_digits] in Ha. rewrite andb_true_r in Ha.
    unfold is_digit, in_range in Ha. apply andb_prop in Ha. destruct Ha as [_ Ha].
    apply N.leb_le in Ha. unfold digit_value in Hb. lia.
Qed.

Lemma hms_parts s :
  (0 <= s)%Z ->
  (0 <= s / 3600)%Z /\
  (0 <= (s mod 3600) / 60 <= 59)%Z /\
  (0 <= s mod 60 <= 59)%Z /\
  s = (3600 * (s / 3600) + 60 * ((s mod 3600) / 60) + s mod 60)%Z.
Proof.
  intros Hs.
  pose proof (Z.mod_pos_bound s 3600 ltac:(lia)) as H1.
  pose proof (Z.mod_pos_bound s 60 ltac:(lia)) as H2.
  pose proof (Z.div_mod s 3600 ltac:(lia)) as H3.
  pose proof (Z.div_mod (s mod 3600) 60 ltac:(lia)) as H4.
  assert (H5 : ((s mod 3600) mod 60 = s mod 60)%Z).
  { apply Z.mod_mod_divide. exists 60%Z. reflexivity. }
  assert (H6 : (0 <= (s mod 3600) / 60)%Z) by (apply Z.div_pos; lia).
  assert (H7 : ((s mod 3600) / 60 < 60)%Z) by (apply Z.div_lt_upper_bound; lia).
  assert (H8 : (0 <= s / 3600)%Z) by (apply Z.div_pos; lia).
  repeat split; lia.
Qed.

(** C6, as the code has it: the timecode is the empty string when the
    frame index is absent or the frame rate is not greater than 0 (zero,
    negative or NaN); otherwise, when [frame / fps] is a finite float, it is
    [HH:MM:SS] for [s = floor(frame / fps)], or for [s = 0] when the
    quotient is negative: the hours are [s / 3600] in decimal with at
    least two digits and no wrap at 24, the minutes and the seconds are
    in 0-59 and written with exactly two digits. *)
Theorem timecode_contract (frame : option Z) (fps : float) :
  (frame = None \/ fgt fps (Fin 0) = false -> timecode frame fps = Ok "") /\
  (forall f x q,
      frame = Some f -> fgt fps (Fin 0) = true ->
      float_of_int f = Ok x -> fdiv x fps = Ok (Fin q) ->
      let s := Z.max 0 (Qfloor q) in
      exists hh,
        timecode frame fps
        = Ok (hh ++ ":" ++ two_digits ((s mod 3600) / 60)
                 ++ ":" ++ two_digits (s mod 60)) /\
        all_digits hh = true /\
        digits_to_Z hh = (s / 3600)%Z /\
        (2 <= String.length hh)%nat /\
        (0 <= (s mod 3600) / 60 <= 59)%Z /\
        (0 <= s mod 60 <= 59)%Z /\
        s = (3600 * (s / 3600) + 60 * ((s mod 3600) / 60) + s mod 60)%Z) /\
  (forall q, (q < 0)%Q -> seconds_to_hhmmss_floor (Fin q) = Ok "00:00:00") /\
  timecode (Some 750%Z) (Fin 25) = Ok "00:00:30" /\
  timecode (Some 90000%Z) (Fin 25) = Ok "01:00:00" /\
  timecode None (Fin 25) = Ok "" /\
  timecode (Some 10%Z) (Fin 0) = Ok "".
Proof.
  split; [|split; [|split]].
  - intros [-> | H]; [reflexivity|].
    unfold timecode. destruct frame; [rewrite H|]; reflexivity.
  - intros f x q -> Hfps Hx Hq s.
    unfold timecode. rewrite Hfps, Hx. cbn [rbind]. rewrite Hq. cbn [rbind].
    unfold seconds_to_hhmmss_floor, truthy, flt.
    assert (Hdone : forall hh mm ss,
               hh = format_02d (s / 3600) ->
               mm = format_02d ((s mod 3600) / 60) ->
               ss = format_02d (s mod 60) ->
               exists hh0,
                 Ok (hh ++ ":" ++ mm ++ ":" ++ ss)
                 = Ok (hh0 ++ ":" ++ two_digits ((s mod 3600) / 60)
                           ++ ":" ++ two_digits (s mod 60)) /\
                 all_digits hh0 = true /\
                 digits_to_Z hh0 = (s / 3600)%Z /\
                 (2 <= String.length hh0)%nat /\
                 (0 <= (s mod 3600) / 60 <= 59)%Z /\
                 (0 <= s mod 60 <= 59)%Z /\
                 s = (3600 * (s / 3600) + 60 * ((s mod 3600) / 60) + s mod 60)%Z).
    { intros hh mm ss -> -> ->.
      destruct (@hms_parts s ltac:(subst s; lia)) as (Hh & Hm & Hr & Hsum).
      destruct (format_02d_spec Hh) as (Ha & Hb & Hc).
      exists (format_02d (s / 3600)).
      rewrite (@format_02d_below_100 ((s mod 3600) / 60)) by lia.
      rewrite (@format_02d_below_100 (s mod 60)) by lia.
      repeat split; try assumption; lia. }
    destruct (is_zero q) eqn:Ez; cbn [negb orb].
    + (* seconds == 0 *)
      apply Qeq_bool_iff in Ez.
      assert (Hs : s = 0%Z).
      { subst s. rewrite Ez. reflexivity. }
      apply (Hdone "00" "00" "00"); rewrite Hs; reflexivity.
    + destruct (Qle_bool 0 q) eqn:Ep; cbn [negb].
      * (* seconds > 0 *)
        apply Qle_bool_iff in Ep. cbn [math_floor rbind].
        assert (Hs : s = Qfloor q).
        { subst s. apply Z.max_r. change 0%Z with (Qfloor 0).
          now apply Qfloor_resp_le. }
        rewrite <- Hs. apply Hdone; reflexivity.
      * (* seconds < 0 *)
        apply Qle_bool_false in Ep.
        assert (Hs : s = 0%Z).
        { subst s. apply Z.max_l.
          pose proof (Qfloor_le q) as Hf.
          assert (Hlt : (inject_Z (Qfloor q) < inject_Z 1)%Q)
            by (change (inject_Z 1) with 1%Q; lra).
          rewrite <- Zlt_Qlt in Hlt. lia. }
        apply (Hdone "00" "00" "00"); rewrite Hs; reflexivity.
  - intros q Hq. unfold seconds_to_hhmmss_floor, truthy, flt.
    destruct (Qle_bool 0 q) eqn:Ep.
    + apply Qle_bool_iff in Ep. lra.
    + cbn [negb]. rewrite orb_true_r. reflexivity.
  - vm_compute. repeat split; reflexivity.
Qed.

(** C6 fails as stated: a NaN frame rate is not [<= 0], and the timecode
    is the empty string, which is no [HH:MM:SS] text. *)
Lemma timecode_nan_rate :
  fle NaN (Fin 0) = false /\
  timecode (Some 10%Z) NaN = Ok "" /\
  (forall hh mm ss, hh ++ ":" ++ mm ++ ":" ++ ss <> "").
Proof.
  split; [reflexivity|]. split; [reflexivity|].
  intros [|c hh] mm ss; discriminate.
Qed.

End TimecodeConverter.

(** ** Arithmetic that stays finite *)

Section FiniteArithmetic.

Open Scope Q_scope.

Lemma rnd_form q :
  ~ q == 0 -> Qabs q <= pow2 1000 ->
  rnd q = Fin (Qred (inject_Z (round_half_even (q / pow2 (ulp_exp q)))
                     * pow2 (ulp_exp q))).
Proof.
  intros Hnz Hb. destruct (@rnd_finite q Hb) as (r & Hr & _).
  unfold rnd in *.
  destruct (Qeq_bool q 0) eqn:E0.
  - apply Qeq_bool_iff in E0. contradiction.
  - cbv zeta in *. destruct (Qle_bool (pow2 1024) _); [discriminate Hr | reflexivity].
Qed.

Lemma rnd_small q B :
  - B <= q <= B -> B <= 1267650600228229401496703205376 ->
  exists r, rnd q = Fin r /\ - (2 * B + 1) <= r <= 2 * B + 1.
Proof.
  intros Hq HB.
  assert (Habs : Qabs q <= B) by (apply Qabs_Qle_condition; exact Hq).
  assert (H100 : pow2 100 == 1267650600228229401496703205376) by reflexivity.
  pose proof (@pow2_le 100 1000 ltac:(lia)) as H1000.
  destruct (@rnd_finite q) as (r & Hr & Herr); [lra|].
  exists r. split; [exact Hr|].
  destruct (Qeq_dec q 0) as [Hz | Hnz].
  - unfold rnd in Hr. rewrite (proj2 (Qeq_bool_iff q 0) Hz) in Hr.
    injection Hr as <-. lra.
  - pose proof (@ulp_exp_le q Hnz) as Hu.
    assert (H52 : pow2 (-52) <= 1) by (apply (@pow2_le (-52) 0); lia).
    assert (H1074 : pow2 (-1074) <= 1) by (apply (@pow2_le (-1074) 0); lia).
    pose proof (Qabs_nonneg q) as Hq0.
    assert (pow2 (-52) * Qabs q <= 1 * Qabs q)
      by (apply Qmult_le_compat_r; assumption).
    apply Qabs_Qle_condition in Herr. lra.
Qed.

Lemma Qmult_bound x s X S :
  - X <= x <= X -> - S <= s <= S -> - (X * S) <= x * s <= X * S.
Proof.
  intros Hx Hs.
  assert (Hax : Qabs x <= X) by (apply Qabs_Qle_condition; exact Hx).
  assert (Has : Qabs s <= S) by (apply Qabs_Qle_condition; exact Hs).
  apply Qabs_Qle_condition. rewrite Qabs_Qmult.
  pose proof (Qabs_nonneg x). pose proof (Qabs_nonneg s).
  apply Qle_trans with (X * Qabs s).
  - apply Qmult_le_compat_r; assumption.
  - rewrite (Qmult_comm X (Qabs s)), (Qmult_comm X S).
    apply Qmult_le_compat_r; [assumption | lra].
Qed.

Lemma float_of_int_small z :
  (- 2 ^ 90 <= z <= 2 ^ 90)%Z ->
  exists x, float_of_int z = Ok (Fin x) /\
            - (2 * Qabs (inject_Z z) + 1) <= x <= 2 * Qabs (inject_Z z) + 1.
Proof.
  intros Hz. unfold float_of_int.
  destruct (@rnd_small (inject_Z z) (Qabs (inject_Z z))) as (r & Hr & Hb).
  - apply Qabs_Qle_condition. apply Qle_refl.
  - apply Qabs_Qle_condition.
    change 1267650600228229401496703205376 with (inject_Z (2 ^ 100)).
    split.
    + change (- inject_Z (2 ^ 100)) with (inject_Z (- 2 ^ 100)).
      rewrite <- Zle_Qle. lia.
    + rewrite <- Zle_Qle. lia.
  - rewrite Hr. exists r. split; [reflexivity | exact Hb].
Qed.

Lemma inject_Z_bounds z B :
  (- B <= z <= B)%Z -> - inject_Z B <= inject_Z z <= inject_Z B.
Proof.
  intros [H1 H2]. split.
  - rewrite <- inject_Z_opp, <- Zle_Qle. exact H1.
  - rewrite <- Zle_Qle. exact H2.
Qed.

Lemma Qabs_inject_Z_le z B :
  (- B <= z <= B)%Z -> Qabs (inject_Z z) <= inject_Z B.
Proof. intros H. apply Qabs_Qle_condition. now apply inject_Z_bounds. Qed.

Lemma round_half_even_small q B :
  - inject_Z B <= q <= inject_Z B ->
  (- (B + 1) <= round_half_even q <= B + 1)%Z.
Proof.
  intros Hq. pose proof (round_half_even_bounds q) as Hr.
  assert (H1 : inject_Z (- (B + 1) - 1) < inject_Z (round_half_even q)).
  { unfold Z.sub. rewrite !inject_Z_plus, inject_Z_opp, inject_Z_plus.
    change (inject_Z (- (1))) with (-1). change (inject_Z 1) with 1. lra. }
  assert (H2 : inject_Z (round_half_even q) < inject_Z (B + 1 + 1)).
  { rewrite !inject_Z_plus. change (inject_Z 1) with 1. lra. }
  rewrite <- Zlt_Qlt in H1, H2. lia.
Qed.

Lemma float_of_int_bounded z B :
  (- B <= z <= B)%Z -> (B <= 2 ^ 90)%Z ->
  exists x, float_of_int z = Ok (Fin x) /\
            - inject_Z (2 * B + 1) <= x <= inject_Z (2 * B + 1).
Proof.
  intros Hz HB.
  destruct (@float_of_int_small z ltac:(lia)) as (x & Hx & Hb).
  exists x. split; [exact Hx|].
  pose proof (Qabs_inject_Z_le Hz) as Ha.
  rewrite inject_Z_plus, inject_Z_mult.
  change (inject_Z 2) with 2. change (inject_Z 1) with 1. lra.
Qed.

Lemma scaled_bounded n s :
  (- 2 ^ 31 <= n <= 2 ^ 31)%Z ->
  - 2147483648 <= s <= 2147483648 ->
  exists v, scaled n (Fin s) = Ok v /\ (- 2 ^ 66 <= v <= 2 ^ 66)%Z.
Proof.
  intros Hn Hs. unfold scaled.
  destruct (@float_of_int_bounded n (2 ^ 31) Hn ltac:(lia)) as (x & Hx & Hxb).
  rewrite Hx. cbn [rbind fmul].
  change (inject_Z (2 * 2 ^ 31 + 1)) with 4294967297 in Hxb.
  assert (Hs' : - (2147483648) <= s <= 2147483648) by (split; lra).
  pose proof (Qmult_bound Hxb Hs') as Hp.
  destruct (@rnd_small (x * s) (4294967297 * 2147483648) Hp) as (r & Hr & Hrb).
  { discriminate. }
  rewrite Hr. cbn [py_round]. eexists. split; [reflexivity|].
  destruct (@round_half_even_small r (2 ^ 66 - 1)) as [H1 H2]; [|lia].
  change (inject_Z (2 ^ 66 - 1)) with 73786976294838206463.
  lra.
Qed.

Lemma pixels_to_row_points_total z :
  (- 2 ^ 90 <= z <= 2 ^ 90)%Z ->
  exists height, pixels_to_row_points z = Ok height.
Proof.
  intros Hz. unfold pixels_to_row_points.
  destruct (@float_of_int_small z Hz) as (x & Hx & _).
  destruct (fdiv (Fin 3) (Fin 4)) as [k|e] eqn:Ek; [|discriminate Ek].
  cbn [rbind]. rewrite Hx. cbn [rbind]. eexists. reflexivity.
Qed.

Lemma pixels_to_col_width_total z :
  (- 2 ^ 89 <= z <= 2 ^ 89)%Z ->
  exists width, pixels_to_col_width z = Ok width.
Proof.
  intros Hz. unfold pixels_to_col_width.
  destruct (@float_of_int_small (z - 5) ltac:(lia)) as (x & Hx & _).
  rewrite Hx. cbn [rbind]. unfold fdiv.
  rewrite is_zero_false by (intros E; discriminate E).
  cbn [rbind]. eexists. reflexivity.
Qed.

Lemma center_offset_total avail size :
  (- 2 ^ 90 <= avail - size <= 2 ^ 90)%Z ->
  exists off, center_offset avail size = Ok off.
Proof.
  intros Hd. unfold center_offset, int_truediv.
  change (2 =? 0)%Z with false. cbv iota.
  set (q := inject_Z (avail - size) / inject_Z 2).
  assert (Hq : - inject_Z (2 ^ 90) <= q <= inject_Z (2 ^ 90)).
  { pose proof (inject_Z_bounds Hd) as Hb.
    assert (Hq2 : q * 2 == inject_Z (avail - size)).
    { unfold q. change (inject_Z 2) with 2. field. }
    change (inject_Z (2 ^ 90)) with 1237940039285380274899124224 in *. lra. }
  destruct (@rnd_small q (inject_Z (2 ^ 90)) Hq) as (r & Hr & _).
  { discriminate. }
  rewrite Hr. cbn [rbind py_int]. eexists. reflexivity.
Qed.

End FiniteArithmetic.

(** ** Layout engine: the shape of a run *)

Section RunShape.

Lemma write_row_eq c i row name :
  write_row c i row name =
  match display_size c i with
  | Raise e => ([], Raise e)
  | Ok (img_path, w, h) =>
      match timecode (parse_frame_from_filename name) (c_fps c) with
      | Raise e => ([], Raise e)
      | Ok tc =>
          match pixels_to_row_points (h + 2 * c_pad_y c) with
          | Raise e => ([], Raise e)
          | Ok height =>
              match make_opts c w h (h + 2 * c_pad_y c) with
              | Raise e => ([Set_row row height (row_format c)], Raise e)
              | Ok opts =>
                  ([Set_row row height (row_format c);
                    image_event c row name img_path opts;
                    Write row 1 (CStr tc) (row_format c)], Ok tt)
              end
          end
      end
  end.
Proof.
  unfold write_row, image_event, iobind, lift, emit.
  destruct (display_size c i) as [[[p w] h] | e]; [|reflexivity].
  destruct (timecode _ _) as [tc | e]; [|reflexivity].
  destruct (pixels_to_row_points _) as [height | e]; [|reflexivity].
  destruct (make_opts _ _ _ _) as [opts | e]; [|reflexivity].
  destruct (insert_raises _ _); reflexivity.
Qed.

Lemma write_rows_cons c i row name rest :
  write_rows c i row (name :: rest) =
  match write_row c i row name with
  | (t1, Ok _) =>
      let '(t2, r) := write_rows c (S i) (row + 1) rest in ((t1 ++ t2)%list, r)
  | (t1, Raise e) => (t1, Raise e)
  end.
Proof.
  cbn [write_rows]. unfold iobind.
  destruct (write_row c i row name) as [t1 [[] | e]]; reflexivity.
Qed.

Lemma write_rows_ok c imgs :
  forall i row evs,
    write_rows c i row imgs = (evs, Ok tt) ->
    evs = rows_trace c i row imgs /\
    forall k name, nth_error imgs k = Some name ->
                   snd (write_row c (i + k) (row + Z.of_nat k) name) = Ok tt.
Proof.
  induction imgs as [|n rest IH]; intros i row evs H.
  - cbn in H. injection H as <-. split; [reflexivity|].
    intros [|k] name Hk; discriminate Hk.
  - rewrite write_rows_cons in H. cbn [rows_trace].
    destruct (write_row c i row n) as [t1 [[] | e]] eqn:E1; [|discriminate].
    destruct (write_rows c (S i) (row + 1) rest) as [t2 r] eqn:E2.
    injection H as <- ->. destruct (IH _ _ _ E2) as [-> Hall].
    split; [reflexivity|].
    intros [|k] name Hk; cbn in Hk.
    + injection Hk as <-. rewrite Nat.add_0_r, Z.add_0_r, E1. reflexivity.
    + specialize (Hall k name Hk).
      replace (i + S k)%nat with (S i + k)%nat by lia.
      replace (row + Z.of_nat (S k))%Z with (row + 1 + Z.of_nat k)%Z by lia.
      exact Hall.
Qed.

Lemma write_rows_all_ok c imgs :
  forall i row,
    (forall k name, nth_error imgs k = Some name ->
                    snd (write_row c (i + k) (row + Z.of_nat k) name) = Ok tt) ->
    write_rows c i row imgs = (rows_trace c i row imgs, Ok tt).
Proof.
  induction imgs as [|n rest IH]; intros i row Hall.
  - reflexivity.
  - rewrite write_rows_cons. cbn [rows_trace].
    pose proof (Hall 0%nat n eq_refl) as H0.
    rewrite Nat.add_0_r, Z.add_0_r in H0.
    destruct (write_row c i row n) as [t1 r1]. cbn in H0. subst r1. cbn [fst].
    rewrite IH; [reflexivity|].
    intros k name Hk. specialize (Hall (S k) name Hk).
    replace (i + S k)%nat with (S i + k)%nat in Hall by lia.
    replace (row + Z.of_nat (S k))%Z with (row + 1 + Z.of_nat k)%Z in Hall by lia.
    exact Hall.
Qed.

Lemma rows_trace_In c imgs :
  forall i row e,
    In e (rows_trace c i row imgs) <->
    exists k name, nth_error imgs k = Some name /\
                   In e (fst (write_row c (i + k) (row + Z.of_nat k) name)).
Proof.
  induction imgs as [|n rest IH]; intros i row e; cbn [rows_trace].
  - split; [contradiction|]. intros ([|k] & name & Hk & _); discriminate Hk.
  - rewrite in_app_iff, IH. split.
    + intros [H | (k & name & Hk & H)].
      * exists 0%nat, n. rewrite Nat.add_0_r, Z.add_0_r. now split.
      * exists (S k), name. split; [exact Hk|].
        replace (i + S k)%nat with (S i + k)%nat by lia.
        replace (row + Z.of_nat (S k))%Z with (row + 1 + Z.of_nat k)%Z by lia.
        exact H.
    + intros ([|k] & name & Hk & H); cbn in Hk.
      * injection Hk as <-. rewrite Nat.add_0_r, Z.add_0_r in H. now left.
      * right. exists k, name. split; [exact Hk|].
        replace (i + S k)%nat with (S i + k)%nat in H by lia.
        replace (row + Z.of_nat (S k))%Z with (row + 1 + Z.of_nat k)%Z in H by lia.
        exact H.
Qed.

Lemma main_eq w a :
  main w a =
  match list_images_sorted w with
  | Raise e => ([], Raise e)
  | Ok [] => ([Print_stderr "No images to export."], Raise (SystemExit 2))
  | Ok imgs =>
      match preprocess w (use_physical w a) (for_ (scale a) (Fin (1 # 4))) imgs with
      | Raise e => ((setup_events w a ++ cleanup_events w a)%list, Raise e)
      | Ok processed =>
          let c := run_context w a processed in
          match pixels_to_col_width (c_col_pixels c) with
          | Raise e =>
              ((setup_events w a ++ workbook_events ++ cleanup_events w a)%list,
               Raise e)
          | Ok width =>
              match write_rows c 0 1 imgs with
              | (rows, Ok _) =>
                  ((setup_events w a ++ workbook_events ++ header_events width
                      ++ rows ++ [Close; Print_ok] ++ cleanup_events w a)%list,
                   Ok 0%Z)
              | (rows, Raise e) =>
                  ((setup_events w a ++ workbook_events ++ header_events width
                      ++ rows ++ cleanup_events w a)%list,
                   Raise e)
              end
          end
      end
  end.
Proof.
  unfold main, setup_events, cleanup_events, workbook_events, header_events,
    run_context.
  unfold iobind at 1. unfold lift at 1.
  destruct (list_images_sorted w) as [[|n imgs] | e]; [reflexivity| |reflexivity].
  cbn [c_col_pixels].
  generalize (use_physical w a). intros up.
  unfold finally, iobind, lift, emit, ret.
  destruct (preprocess w up _ (n :: imgs)) as [processed | e].
  - destruct (pixels_to_col_width _) as [width | e].
    + destruct (write_rows _ 0 1 (n :: imgs)) as [rows [[] | e]];
        destruct (resize a); destruct (PIL_AVAILABLE w); destruct up;
          cbn [fst snd app]; rewrite ?app_nil_r, <- ?app_assoc; reflexivity.
    + destruct (resize a); destruct (PIL_AVAILABLE w); destruct up;
        cbn [fst snd app]; reflexivity.
  - destruct (resize a); destruct (PIL_AVAILABLE w); destruct up;
      cbn [fst snd app]; reflexivity.
Qed.

Lemma substring_suffix pre suf :
  substring (String.length pre) (String.length suf) (pre ++ suf) = suf.
Proof.
  induction pre as [|c t IH]; cbn [String.length append substring].
  - induction suf as [|d u IHu]; cbn; [reflexivity | now rewrite IHu].
  - exact IH.
Qed.

Lemma substring_split n s :
  (n <= String.length s)%nat ->
  exists pre, s = pre ++ substring n (String.length s - n) s /\
              String.length pre = n.
Proof.
  revert s. induction n as [|n IH]; intros s Hn.
  - exists EmptyString. split; [|reflexivity]. cbn [append].
    rewrite Nat.sub_0_r. clear Hn.
    induction s as [|c t IHt]; cbn; [reflexivity | now rewrite <- IHt].
  - destruct s as [|c t]; cbn [String.length] in Hn; [lia|].
    destruct (IH t ltac:(lia)) as (pre & Hpre & Hlen).
    exists (String c pre). cbn [append substring String.length Nat.sub].
    split; [now rewrite <- Hpre | now rewrite Hlen].
Qed.

Lemma endswith_iff s suf :
  endswith s suf = true <-> exists pre, s = pre ++ suf.
Proof.
  unfold endswith. split.
  - intros H. apply andb_prop in H. destruct H as [Hle Heq].
    apply Nat.leb_le in Hle. apply String.eqb_eq in Heq.
    destruct (@substring_split (String.length s - String.length suf) s
                ltac:(lia)) as (pre & Hpre & _).
    exists pre. rewrite Hpre at 1.
    replace (String.length s - (String.length s - String.length suf))%nat
      with (String.length suf) by lia.
    now rewrite Heq.
  - intros (pre & ->). rewrite string_length_app.
    replace (String.length pre + String.length suf - String.length suf)%nat
      with (String.length pre) by lia.
    rewrite substring_suffix, String.eqb_refl, andb_true_r.
    apply Nat.leb_le. lia.
Qed.

Lemma lower_app s1 s2 : lower (s1 ++ s2) = lower s1 ++ lower s2.
Proof. induction s1 as [|c t IH]; cbn; [reflexivity | now rewrite IH]. Qed.

Lemma lower_split pre :
  forall s suf, lower s = pre ++ suf ->
                exists stem ext, s = stem ++ ext /\ lower ext = suf.
Proof.
  induction pre as [|c t IH]; intros s suf H.
  - exists EmptyString, s. split; [reflexivity | exact H].
  - destruct s as [|d u]; [discriminate H|].
    cbn in H. injection H as _ H.
    destruct (IH _ _ H) as (stem & ext & -> & He).
    exists (String d stem), ext. split; [reflexivity | exact He].
Qed.

Lemma qualifying_iff name :
  qualifying name <-> endswith_any (lower name) image_suffixes = true.
Proof.
  unfold qualifying, endswith_any. rewrite existsb_exists. split.
  - intros (stem & ext & -> & Hin).
    exists (lower ext). split; [exact Hin|].
    apply endswith_iff. exists (lower stem). apply lower_app.
  - intros (suf & Hin & He). apply endswith_iff in He.
    destruct He as (pre & He).
    destruct (@lower_split _ _ _ He) as (stem & ext & -> & Hl).
    exists stem, ext. split; [reflexivity | now rewrite Hl].
Qed.

Lemma list_images_sorted_In w names :
  listdir w = Ok names ->
  exists imgs, list_images_sorted w = Ok imgs /\
               forall n, In n imgs <-> In n names /\ qualifying n.
Proof.
  intros H. unfold list_images_sorted. rewrite H.
  eexists. split; [reflexivity|].
  intros n. rewrite filter_In, <- qualifying_iff.
  assert (HP : Permutation names (StringSort.sort names))
    by apply StringSort.Permuted_sort.
  split; intros [H1 H2]; (split; [|exact H2]).
  - eapply Permutation_in; [symmetry; exact HP | exact H1].
  - eapply Permutation_in; [exact HP | exact H1].
Qed.

(** C9: when the source directory does not exist or holds no qualifying
    image file, the run prints one message, exits with status 2 and
    touches nothing: no directory, no workbook, no output file. *)
Theorem no_images_is_fatal (w : world) (a : args) :
  listdir w = Raise FileNotFoundError \/
  (exists names, listdir w = Ok names /\
                 forall n, In n names -> ~ qualifying n) ->
  main w a = ([Print_stderr "No images to export."], Raise (SystemExit 2)) /\
  exit_status (snd (main w a)) = 2%Z /\
  ~ In Workbook (fst (main w a)) /\
  ~ In Close (fst (main w a)).
Proof.
  intros H.
  assert (Himgs : list_images_sorted w = Ok []).
  { destruct H as [H | (names & H & Hno)].
    - unfold list_images_sorted. now rewrite H.
    - destruct (@list_images_sorted_In w _ H) as (imgs & Hi & Hin).
      rewrite Hi. f_equal. destruct imgs as [|n rest]; [reflexivity|].
      exfalso. destruct (proj1 (Hin n) (or_introl eq_refl)) as [H1 H2].
      exact (Hno n H1 H2). }
  assert (Hmain : main w a
                  = ([Print_stderr "No images to export."],
                     Raise (SystemExit 2))).
  { rewrite main_eq, Himgs. reflexivity. }
  rewrite Hmain. cbn [fst snd exit_status].
  repeat split; try reflexivity; intros [E | []]; discriminate E.
Qed.

Lemma no_images_is_fatal_witness :
  main empty_world sample_args
  = ([Print_stderr "No images to export."], Raise (SystemExit 2)) /\
  exit_status (snd (main empty_world sample_args)) = 2%Z /\
  ~ In Workbook (fst (main empty_world sample_args)) /\
  ~ In Close (fst (main empty_world sample_args)).
Proof.
  apply no_images_is_fatal. right.
  exists ["notes.txt"; "clip.mp4"]. split; [reflexivity|].
  intros n Hn Hq. apply qualifying_iff in Hq.
  destruct Hn as [<- | [<- | []]]; vm_compute in Hq; discriminate Hq.
Defined.

(** *** Totality of an ordinary run *)

Lemma search_some_inv s :
  forall p m, search_from false digits_re p s = Some m ->
              exists i, window8 s i = true /\ group m = substring i 8 s.
Proof.
  induction s as [|c t IH]; intros p m H; cbn [search_from] in H;
    unfold digits_re in H; rewrite run_group_digits in H.
  - cbn in H. discriminate.
  - destruct (window8 (String c t) 0) eqn:E.
    + injection H as <-. exists 0%nat. split; [exact E | reflexivity].
    + destruct (IH _ _ H) as (i & Hw & Hg).
      exists (S i). split; [exact Hw | exact Hg].
Qed.

Lemma parse_frame_some_inv name n :
  parse_frame_from_filename name = Some n ->
  exists i, window8 name i = true /\ n = digits_to_Z (substring i 8 name).
Proof.
  unfold parse_frame_from_filename.
  destruct (re_match true strict_re name) as [m|] eqn:Em.
  - destruct (strict_match_inv _ Em) as (c & t & -> & _ & Hw & Hg).
    intros H. exists 1%nat. split; [exact Hw|].
    rewrite Hg in H. change (substring 0 8 t) with (substring 1 8 (String c t)) in H.
    rewrite (@int_or_none_window (String c t) 1 Hw) in H. now injection H.
  - destruct (re_search false digits_re name) as [m|] eqn:Es; [|discriminate].
    destruct (search_some_inv _ _ Es) as (i & Hw & Hg).
    intros H. exists i. split; [exact Hw|].
    rewrite Hg, (int_or_none_window _ _ Hw) in H. now injection H.
Qed.

Lemma digits_to_Z_acc_lt s :
  forall acc, (0 <= acc)%Z -> all_digits s = true ->
              (digits_to_Z_acc acc s < (acc + 1) * 10 ^ Z.of_nat (String.length s))%Z.
Proof.
  induction s as [|c t IH]; intros acc Hacc Hd.
  - cbn. lia.
  - cbn [digits_to_Z_acc String.length]. cbn [all_digits] in Hd.
    apply andb_prop in Hd. destruct Hd as [Hc Ht].
    unfold is_digit, in_range in Hc. apply andb_prop in Hc.
    destruct Hc as [Hc1 Hc2]. apply N.leb_le in Hc1, Hc2.
    assert (Hv : (0 <= digit_value c <= 9)%Z) by (unfold digit_value; lia).
    specialize (IH (10 * acc + digit_value c)%Z ltac:(lia) Ht).
    rewrite Nat2Z.inj_succ, Z.pow_succ_r by lia.
    assert (Hp : (0 < 10 ^ Z.of_nat (String.length t))%Z)
      by (apply Z.pow_pos_nonneg; lia).
    nia.
Qed.

Lemma parse_frame_bounds name n :
  parse_frame_from_filename name = Some n -> (0 <= n < 10 ^ 8)%Z.
Proof.
  intros H. destruct (parse_frame_some_inv _ H) as (i & Hw & ->).
  unfold window8 in Hw. apply andb_prop in Hw. destruct Hw as [Hl Hd].
  apply Nat.eqb_eq in Hl. split.
  - apply digits_to_Z_acc_nonneg; [lia | exact Hd].
  - pose proof (@digits_to_Z_acc_lt (substring i 8 name) 0 ltac:(lia) Hd) as Hlt.
    rewrite Hl in Hlt. exact Hlt.
Qed.

Lemma seconds_to_hhmmss_floor_total q :
  exists tc, seconds_to_hhmmss_floor (Fin q) = Ok tc.
Proof.
  unfold seconds_to_hhmmss_floor.
  destruct (negb (truthy (Fin q)) || flt (Fin q) (Fin 0));
    cbn [math_floor rbind]; eexists; reflexivity.
Qed.

Lemma timecode_total frame f :
  (forall n, frame = Some n -> (0 <= n < 10 ^ 8)%Z) ->
  sane_fps f ->
  exists tc, timecode frame f = Ok tc.
Proof.
  intros Hframe Hf. unfold timecode.
  destruct frame as [n|]; [|eexists; reflexivity].
  destruct (fgt f (Fin 0)) eqn:Eg; [|eexists; reflexivity].
  specialize (Hframe n eq_refl).
  destruct (@float_of_int_bounded n (10 ^ 8) ltac:(lia) ltac:(lia))
    as (x & Hx & Hxb).
  rewrite Hx. cbn [rbind].
  change (inject_Z (2 * 10 ^ 8 + 1)) with 200000001%Q in Hxb.
  destruct f as [r | s |]; cbn [fdiv].
  - unfold fgt, flt in Eg. apply negb_true_iff in Eg.
    apply Qle_bool_false in Eg. cbn [sane_fps] in Hf.
    destruct Hf as [Hf | Hf]; [lra|].
    rewrite is_zero_false by (intros E; rewrite E in Eg; discriminate Eg).
    assert (Hinv : (- (2147483648) <= / r <= 2147483648)%Q).
    { assert (H0 : (0 < / r)%Q) by (apply Qinv_lt_0_compat; exact Eg).
      split; [lra|].
      assert (H1 : (/ r * (1 # 2147483648) <= / r * r)%Q).
      { apply Qmult_le_l; [exact H0 | exact Hf]. }
      assert (H2 : (/ r * r == 1)%Q) by (field; lra).
      lra. }
    pose proof (Qmult_bound Hxb Hinv) as Hp.
    destruct (@rnd_small (x / r) (200000001 * 2147483648) Hp) as (q & Hq & _).
    { discriminate. }
    rewrite Hq. cbn [rbind]. apply seconds_to_hhmmss_floor_total.
  - cbn [rbind]. apply seconds_to_hhmmss_floor_total.
  - discriminate Eg.
Qed.

Lemma fold_left_max_spec l :
  forall x, (x <= fold_left Z.max l x)%Z /\
            (forall y, In y l -> (y <= fold_left Z.max l x)%Z) /\
            (fold_left Z.max l x = x \/ In (fold_left Z.max l x) l).
Proof.
  induction l as [|z l IH]; intros x; cbn [fold_left].
  - split; [lia|]. split; [contradiction | now left].
  - destruct (IH (Z.max x z)) as (H1 & H2 & H3).
    split; [lia|]. split.
    + intros y [<- | Hy]; [lia | now apply H2].
    + destruct H3 as [H3 | H3].
      * destruct (Z.max_spec x z) as [[_ E] | [_ E]]; rewrite E in *.
        -- right. left. now symmetry.
        -- now left.
      * right. now right.
Qed.

Lemma max_default0_spec xs :
  xs <> [] ->
  (forall x, In x xs -> (x <= max_default0 xs)%Z) /\ In (max_default0 xs) xs.
Proof.
  destruct xs as [|x l]; [congruence|]. intros _. cbn [max_default0].
  destruct (fold_left_max_spec l x) as (H1 & H2 & H3).
  split.
  - intros y [<- | Hy]; [exact H1 | now apply H2].
  - destruct H3 as [-> | H3]; [now left | now right].
Qed.

Lemma max_default0_bounded xs B :
  (0 <= B)%Z ->
  (forall x, In x xs -> (- B <= x <= B)%Z) ->
  (- B <= max_default0 xs <= B)%Z.
Proof.
  intros HB Hall. destruct xs as [|x l]; [cbn; lia|].
  apply Hall. apply max_default0_spec. discriminate.
Qed.

Lemma preprocess_cons w up s name rest :
  preprocess w up s (name :: rest) =
  match preprocess_one w up s name with
  | Ok r =>
      match preprocess w up s rest with
      | Ok rs => Ok (r :: rs)
      | Raise e => Raise e
      end
  | Raise e => Raise e
  end.
Proof.
  cbn [preprocess]. destruct (preprocess_one w up s name); [|reflexivity].
  cbn [rbind]. destruct (preprocess w up s rest); reflexivity.
Qed.

(** A successful preprocessing pass has one record per image, each the
    result of the loop body on that image alone. *)
Lemma preprocess_ok_inv w up s imgs :
  forall processed,
    preprocess w up s imgs = Ok processed ->
    List.length processed = List.length imgs /\
    forall k name, nth_error imgs k = Some name ->
                   exists r, nth_error processed k = Some r /\
                             preprocess_one w up s name = Ok r.
Proof.
  induction imgs as [|n rest IH]; intros processed H.
  - cbn in H. injection H as <-. split; [reflexivity|].
    intros [|k] name Hk; discriminate Hk.
  - rewrite preprocess_cons in H.
    destruct (preprocess_one w up s n) as [r|e] eqn:E1; [|discriminate].
    destruct (preprocess w up s rest) as [rs|e] eqn:E2; [|discriminate].
    injection H as <-. destruct (IH rs eq_refl) as [Hlen Hall].
    split; [cbn; now rewrite Hlen|].
    intros [|k] name Hk; cbn in Hk.
    + injection Hk as <-. exists r. now split.
    + now apply Hall.
Qed.

Lemma preprocess_all_ok w up s imgs :
  (forall name, In name imgs -> exists r, preprocess_one w up s name = Ok r) ->
  exists processed, preprocess w up s imgs = Ok processed.
Proof.
  induction imgs as [|n rest IH]; intros Hall.
  - eexists. reflexivity.
  - rewrite preprocess_cons.
    destruct (Hall n (or_introl eq_refl)) as (r & ->).
    destruct IH as (rs & ->); [intros m Hm; apply Hall; now right|].
    eexists. reflexivity.
Qed.

Lemma get_image_size_cases w p :
  (exists iw ih, image_size w p = Some (iw, ih) /\
                 get_image_size w p = (Some iw, Some ih)) \/
  get_image_size w p = (None, None).
Proof.
  unfold get_image_size. destruct (PIL_AVAILABLE w); [|now right].
  destruct (image_size w p) as [[iw ih]|]; [|now right].
  left. exists iw, ih. now split.
Qed.

Section OrdinaryRun.

Variable w : world.
Variable a : args.
Hypothesis Hord : ordinary w a.

Let s' : float := for_ (scale a) (Fin (1 # 4)).
Let f' : float := for_ (fps a) (Fin 0).

Lemma ordinary_scale :
  exists s, s' = Fin s /\ (- (2147483648) <= s <= 2147483648)%Q.
Proof.
  destruct Hord as (_ & _ & _ & (s & Hs & Hb) & _).
  unfold s', for_. rewrite Hs. cbn [truthy].
  destruct (is_zero s); cbn [negb].
  - exists (1 # 4)%Q. split; [reflexivity | split; lra].
  - exists s. now split.
Qed.

Lemma ordinary_fps : sane_fps f'.
Proof.
  destruct Hord as (_ & _ & _ & _ & Hf).
  unfold f', for_. destruct (truthy (fps a)); [exact Hf|].
  left. apply Qle_refl.
Qed.

Lemma ordinary_size p :
  forall ow oh, get_image_size w p = (ow, oh) ->
                (- 2 ^ 31 <= or0 ow <= 2 ^ 31 /\ - 2 ^ 31 <= or0 oh <= 2 ^ 31)%Z.
Proof.
  intros ow oh H.
  destruct (get_image_size_cases w p) as [(iw & ih & Hi & Hg) | Hg];
    rewrite Hg in H; injection H as <- <-; cbn [or0].
  - destruct Hord as (Hsz & _). exact (Hsz _ _ _ Hi).
  - lia.
Qed.

Lemma preprocess_one_ordinary up name :
  exists r, preprocess_one w up s' name = Ok r /\ bounded_record r.
Proof.
  destruct ordinary_scale as (s & Hs & Hsb). rewrite Hs.
  assert (Hsb' : (-2147483648 <= s <= 2147483648)%Q) by (split; lra).
  unfold preprocess_one, bounded_record.
  destruct (get_image_size w (Src name)) as [ow oh] eqn:Eg.
  pose proof (ordinary_size _ Eg) as [Hw Hh].
  destruct up.
  - destruct (physical_resize_image w (Src name) (Fin s)) as [[nw nh]|e] eqn:Ep.
    + eexists. split; [reflexivity|]. cbn [rec_w rec_h fst snd].
      unfold physical_resize_image in Ep.
      destruct (image_size w (Src name)) as [[iw ih]|] eqn:Ei; [|discriminate].
      destruct Hord as (Hsz & _). destruct (Hsz _ _ _ Ei) as [Hiw Hih].
      destruct (scaled_bounded Hiw Hsb') as (vw & Hvw & Hbw).
      destruct (scaled_bounded Hih Hsb') as (vh & Hvh & Hbh).
      rewrite Hvw, Hvh in Ep. cbn [rbind] in Ep.
      destruct (resize_raises w (Src name)); [discriminate|].
      injection Ep as <- <-. lia.
    + eexists. split; [reflexivity|]. cbn [rec_w rec_h fst snd]. lia.
  - destruct (scaled_bounded Hw Hsb') as (vw & Hvw & Hbw).
    destruct (scaled_bounded Hh Hsb') as (vh & Hvh & Hbh).
    rewrite Hvw, Hvh. cbn [rbind]. eexists. split; [reflexivity|].
    cbn [rec_w rec_h fst snd]. lia.
Qed.

End OrdinaryRun.

(** The display size the row loop uses is the one recorded by the
    preprocessing pass, in both modes. *)
Lemma display_size_record w a processed k name r :
  preprocess_one w (use_physical w a) (for_ (scale a) (Fin (1 # 4))) name = Ok r ->
  nth_error processed k = Some r ->
  display_size (run_context w a processed) k = Ok r.
Proof.
  intros Hone Hk. unfold display_size, getitem, run_context.
  cbn [c_processed c_physical c_world c_scale]. rewrite Hk. cbn [rbind].
  destruct r as [[p rw] rh]. unfold preprocess_one in Hone.
  destruct (use_physical w a); [reflexivity|].
  destruct (get_image_size w (Src name)) as [iw ih] eqn:Eg.
  destruct (scaled (or0 iw) _) as [sw|e] eqn:Ew; [|discriminate].
  destruct (scaled (or0 ih) _) as [sh|e] eqn:Eh; [|discriminate].
  cbn [rbind] in Hone. injection Hone as <- <- <-.
  rewrite Eg. destruct (both_positive iw ih); [|reflexivity].
  rewrite Ew, Eh. reflexivity.
Qed.

Lemma make_opts_total c w h row_pixels :
  (- 2 ^ 90 <= c_col_pixels c - w <= 2 ^ 90)%Z ->
  (- 2 ^ 90 <= row_pixels - h <= 2 ^ 90)%Z ->
  exists opts, make_opts c w h row_pixels = Ok opts.
Proof.
  intros Hx Hy. unfold make_opts.
  destruct (c_center c).
  - destruct (center_offset_total _ _ Hx) as (xo & ->).
    destruct (center_offset_total _ _ Hy) as (yo & ->).
    cbn [rbind]. destruct (c_physical c); eexists; reflexivity.
  - cbn [rbind]. destruct (c_physical c); eexists; reflexivity.
Qed.

Lemma main_nonempty_eq w a imgs :
  list_images_sorted w = Ok imgs -> imgs <> [] ->
  main w a =
  match preprocess w (use_physical w a) (for_ (scale a) (Fin (1 # 4))) imgs with
  | Raise e => ((setup_events w a ++ cleanup_events w a)%list, Raise e)
  | Ok processed =>
      let c := run_context w a processed in
      match pixels_to_col_width (c_col_pixels c) with
      | Raise e =>
          ((setup_events w a ++ workbook_events ++ cleanup_events w a)%list,
           Raise e)
      | Ok width =>
          match write_rows c 0 1 imgs with
          | (rows, Ok _) =>
              ((setup_events w a ++ workbook_events ++ header_events width
                  ++ rows ++ [Close; Print_ok] ++ cleanup_events w a)%list,
               Ok 0%Z)
          | (rows, Raise e) =>
              ((setup_events w a ++ workbook_events ++ header_events width
                  ++ rows ++ cleanup_events w a)%list,
               Raise e)
          end
      end
  end.
Proof.
  intros H Hne. rewrite main_eq, H.
  destruct imgs; [congruence | reflexivity].
Qed.

Section OrdinaryRows.

Variable w : world.
Variable a : args.
Hypothesis Hord : ordinary w a.
Variable imgs : list string.
Variable processed : list record.
Hypothesis Hpre :
  preprocess w (use_physical w a) (for_ (scale a) (Fin (1 # 4))) imgs
  = Ok processed.

Lemma processed_bounded r : In r processed -> bounded_record r.
Proof.
  intros Hin. apply In_nth_error in Hin. destruct Hin as (k & Hk).
  destruct (preprocess_ok_inv _ _ _ _ Hpre) as [Hlen Hall].
  assert (Hlt : (k < List.length imgs)%nat).
  { rewrite <- Hlen. apply nth_error_Some. congruence. }
  destruct (nth_error imgs k) as [name|] eqn:En;
    [|apply nth_error_None in En; lia].
  destruct (Hall k name En) as (r' & Hr' & Hone).
  assert (r' = r) by congruence. subst r'.
  destruct (preprocess_one_ordinary Hord (use_physical w a) name) as (r2 & H2 & Hb).
  assert (r2 = r) by congruence. now subst r2.
Qed.

Lemma col_pixels_bounded :
  (- 2 ^ 67 <= c_col_pixels (run_context w a processed) <= 2 ^ 67)%Z.
Proof.
  cbn [run_context c_col_pixels].
  destruct Hord as (_ & Hpx & _).
  assert (Hm : (- 2 ^ 66 <= max_default0 (map rec_w processed) <= 2 ^ 66)%Z).
  { apply max_default0_bounded; [lia|].
    intros x Hx. apply in_map_iff in Hx. destruct Hx as (r & <- & Hr).
    apply (@processed_bounded r Hr). }
  lia.
Qed.

Lemma pixels_to_col_width_ordinary :
  exists width,
    pixels_to_col_width (c_col_pixels (run_context w a processed)) = Ok width.
Proof.
  apply pixels_to_col_width_total. pose proof col_pixels_bounded. lia.
Qed.

(** Every row of an ordinary run is written in full. *)
Lemma write_row_ordinary k row name :
  nth_error imgs k = Some name ->
  exists r tc height opts,
    nth_error processed k = Some r /\
    preprocess_one w (use_physical w a) (for_ (scale a) (Fin (1 # 4))) name
    = Ok r /\
    timecode (parse_frame_from_filename name) (for_ (fps a) (Fin 0)) = Ok tc /\
    pixels_to_row_points (rec_h r + 2 * pad_y a) = Ok height /\
    make_opts (run_context w a processed) (rec_w r) (rec_h r)
              (rec_h r + 2 * pad_y a) = Ok opts /\
    write_row (run_context w a processed) k row name
    = ([Set_row row height (row_format (run_context w a processed));
        image_event (run_context w a processed) row name (rec_path r) opts;
        Write row 1 (CStr tc) (row_format (run_context w a processed))],
       Ok tt).
Proof.
  intros Hk.
  destruct (preprocess_ok_inv _ _ _ _ Hpre) as [_ Hall].
  destruct (Hall k name Hk) as (r & Hr & Hone).
  assert (Hb : bounded_record r).
  { apply processed_bounded. eapply nth_error_In. exact Hr. }
  destruct Hb as [Hbw Hbh].
  destruct Hord as (_ & _ & Hpy & _).
  destruct (@timecode_total (parse_frame_from_filename name)
                            (for_ (fps a) (Fin 0))) as (tc & Htc).
  { intros n Hn. exact (parse_frame_bounds _ Hn). }
  { apply (ordinary_fps Hord). }
  destruct (@pixels_to_row_points_total (rec_h r + 2 * pad_y a))
    as (height & Hh); [lia|].
  pose proof col_pixels_bounded as Hcol.
  destruct (@make_opts_total (run_context w a processed) (rec_w r) (rec_h r)
                             (rec_h r + 2 * pad_y a)) as (opts & Ho);
    [lia | lia |].
  exists r, tc, height, opts. repeat (split; [assumption|]).
  rewrite write_row_eq, (@display_size_record w a processed k name r Hone Hr).
  destruct r as [[p rw] rh]. cbn [rec_w rec_h rec_path fst snd] in *.
  cbn [run_context c_fps c_pad_y]. rewrite Htc, Hh.
  change (mkContext w _ _ _ _ _ _ _) with (run_context w a processed).
  rewrite Ho. reflexivity.
Qed.

(** An ordinary run over at least one image runs to the end. *)
Lemma main_completes :
  list_images_sorted w = Ok imgs -> imgs <> [] ->
  exists width,
    pixels_to_col_width (c_col_pixels (run_context w a processed)) = Ok width /\
    main w a
    = ((setup_events w a ++ workbook_events ++ header_events width
          ++ rows_trace (run_context w a processed) 0 1 imgs
          ++ [Close; Print_ok] ++ cleanup_events w a)%list,
       Ok 0%Z).
Proof.
  intros Himgs Hne.
  destruct pixels_to_col_width_ordinary as (width & Hwidth).
  exists width. split; [exact Hwidth|].
  rewrite (@main_nonempty_eq w a imgs Himgs Hne), Hpre. cbv zeta.
  rewrite Hwidth.
  rewrite write_rows_all_ok; [reflexivity|].
  intros k name Hk. rewrite Nat.add_0_l.
  destruct (@write_row_ordinary k (1 + Z.of_nat k) name Hk)
    as (r & tc & height & opts & _ & _ & _ & _ & _ & ->).
  reflexivity.
Qed.

End OrdinaryRows.

End RunShape.

(** ** Layout engine: centering offsets *)

Section CenteringOffsets.

Open Scope Q_scope.

Lemma Qle_bool_comp a a' b b' :
  a == a' -> b == b' -> Qle_bool a b = Qle_bool a' b'.
Proof.
  intros Ha Hb.
  destruct (Qle_bool a b) eqn:E1, (Qle_bool a' b') eqn:E2; try reflexivity.
  - apply Qle_bool_iff in E1. rewrite Ha, Hb in E1.
    apply Qle_bool_iff in E1. congruence.
  - apply Qle_bool_iff in E2. rewrite <- Ha, <- Hb in E2.
    apply Qle_bool_iff in E2. congruence.
Qed.

Lemma round_half_even_comp q q' :
  q == q' -> round_half_even q = round_half_even q'.
Proof.
  intros H. unfold round_half_even.
  assert (Hf : Qfloor q = Qfloor q') by (apply Qfloor_comp; exact H).
  rewrite Hf.
  rewrite (@Qle_bool_comp (q - inject_Z (Qfloor q')) (q' - inject_Z (Qfloor q'))
                          (1 # 2) (1 # 2)) by (try rewrite H; reflexivity).
  rewrite (@Qle_bool_comp (1 # 2) (1 # 2)
                          (q - inject_Z (Qfloor q')) (q' - inject_Z (Qfloor q')))
    by (try rewrite H; reflexivity).
  reflexivity.
Qed.

Lemma round_half_even_inject z : round_half_even (inject_Z z) = z.
Proof.
  unfold round_half_even. rewrite Qfloor_Z.
  rewrite (@Qle_bool_comp (inject_Z z - inject_Z z) 0 (1 # 2) (1 # 2))
    by (try reflexivity; ring).
  rewrite (@Qle_bool_comp (1 # 2) (1 # 2) (inject_Z z - inject_Z z) 0)
    by (try reflexivity; ring).
  reflexivity.
Qed.

Lemma is_neg_true_iff q : is_neg q = true <-> q < 0.
Proof.
  unfold is_neg, Qlt. cbn. rewrite Z.ltb_lt. lia.
Qed.

Lemma Qtrunc_comp q q' : q == q' -> Qtrunc q = Qtrunc q'.
Proof.
  intros H. unfold Qtrunc.
  destruct (is_neg q) eqn:E1, (is_neg q') eqn:E2.
  - apply Qceiling_comp; exact H.
  - apply is_neg_true_iff in E1. rewrite H in E1.
    apply is_neg_true_iff in E1. congruence.
  - apply is_neg_true_iff in E2. rewrite <- H in E2.
    apply is_neg_true_iff in E2. congruence.
  - apply Qfloor_comp; exact H.
Qed.

(** Above zero, truncation and floor agree; below, both vanish under
    [max(0, _)]. *)
Lemma max0_trunc_floor q : Z.max 0 (Qtrunc q) = Z.max 0 (Qfloor q).
Proof.
  unfold Qtrunc. destruct (is_neg q) eqn:E; [|reflexivity].
  apply is_neg_true_iff in E.
  assert (H1 : (Qceiling q <= 0)%Z).
  { change 0%Z with (Qceiling 0). apply Qceiling_resp_le. lra. }
  assert (H2 : (Qfloor q <= 0)%Z).
  { change 0%Z with (Qfloor 0). apply Qfloor_resp_le. lra. }
  lia.
Qed.

Lemma Qfloor_half d : Qfloor (inject_Z d / 2) = (d / 2)%Z.
Proof.
  unfold Qdiv, Qmult, Qinv, inject_Z, Qfloor. cbn.
  now rewrite Z.mul_1_r.
Qed.

Lemma ilog2_upper q e :
  0 < q -> q < pow2 e -> (ilog2 q < e)%Z.
Proof.
  intros Hq Hlt. apply pow2_lt_inv.
  apply Qle_lt_trans with q; [now apply ilog2_lower | exact Hlt].
Qed.

Lemma pow2_opp e : pow2 (- e) == / pow2 e.
Proof. unfold pow2. apply Qpower_opp. Qed.

(** Halving an integer below [2^53] in magnitude is exact in binary64. *)
Lemma rnd_half_exact d :
  (- 2 ^ 53 < d < 2 ^ 53)%Z ->
  exists r, rnd (inject_Z d / inject_Z 2) = Fin r /\ r == inject_Z d / 2.
Proof.
  intros Hd. change (inject_Z 2) with 2.
  set (q := inject_Z d / 2).
  destruct (Z.eq_dec d 0) as [-> | Hnz].
  - exists 0. split; reflexivity.
  - assert (Hq2 : q * 2 == inject_Z d) by (unfold q; field).
    assert (Hdb : - inject_Z (2 ^ 53) < inject_Z d < inject_Z (2 ^ 53)).
    { split; [rewrite <- inject_Z_opp|]; rewrite <- Zlt_Qlt; lia. }
    change (inject_Z (2 ^ 53)) with 9007199254740992 in Hdb.
    assert (Hqnz : ~ q == 0).
    { intros E. rewrite E in Hq2.
      assert (Hd0 : inject_Z d == inject_Z 0) by (rewrite <- Hq2; reflexivity).
      apply (proj1 (inject_Z_injective d 0)) in Hd0. contradiction. }
    assert (Habs : Qabs q < pow2 52).
    { change (pow2 52) with (Qpower 2 52).
      assert (H52 : Qpower 2 52 == 4503599627370496) by reflexivity.
      rewrite H52. apply Qabs_case; intros; lra. }
    assert (Hb : Qabs q <= pow2 1000).
    { apply Qle_trans with (pow2 52); [lra | apply pow2_le; lia]. }
    rewrite (rnd_form Hqnz Hb).
    set (u := ulp_exp q).
    assert (Hu : (u <= -1)%Z).
    { unfold u, ulp_exp.
      pose proof (@ilog2_upper (Qabs q) 52 (Qabs_pos_nonzero Hqnz) Habs). lia. }
    assert (Hquo : q / pow2 u == inject_Z (d * 2 ^ (-1 - u))).
    { rewrite inject_Z_mult, <- (@pow2_inject (-1 - u)) by lia.
      replace (-1 - u)%Z with (-1 + - u)%Z by lia.
      rewrite pow2_plus, pow2_opp.
      assert (Hm1 : pow2 (-1) == 1 # 2) by reflexivity.
      rewrite Hm1. pose proof (pow2_pos u).
      rewrite <- Hq2. field. lra. }
    rewrite (round_half_even_comp Hquo), round_half_even_inject.
    eexists. split; [reflexivity|].
    rewrite Qred_correct, inject_Z_mult, <- (@pow2_inject (-1 - u)) by lia.
    rewrite <- Qmult_assoc, <- pow2_plus.
    replace (-1 - u + u)%Z with (-1)%Z by lia.
    assert (Hm1 : pow2 (-1) == 1 # 2) by reflexivity.
    rewrite Hm1. unfold q. field.
Qed.

Close Scope Q_scope.
Open Scope Z_scope.

Lemma center_offset_floor avail size :
  center_offset avail size =
  (v <- int_truediv (avail - size) 2 ;;
   f <- math_floor v ;;
   Ok (Z.max 0 f))%py.
Proof.
  unfold center_offset.
  destruct (int_truediv (avail - size) 2) as [[q | s |] | e]; cbn [rbind py_int math_floor];
    try reflexivity.
  now rewrite max0_trunc_floor.
Qed.

Lemma center_offset_exact avail size :
  - 2 ^ 53 < avail - size < 2 ^ 53 ->
  center_offset avail size = Ok (Z.max 0 ((avail - size) / 2)).
Proof.
  intros Hd. rewrite center_offset_floor. unfold int_truediv.
  change (2 =? 0) with false. cbv iota.
  destruct (rnd_half_exact Hd) as (r & Hr & Hrq).
  rewrite Hr. cbn [rbind math_floor].
  now rewrite (Qfloor_comp _ _ Hrq), Qfloor_half.
Qed.

Lemma center_offset_nonneg avail size off :
  center_offset avail size = Ok off -> 0 <= off.
Proof.
  unfold center_offset.
  destruct (int_truediv (avail - size) 2) as [v|e]; [|discriminate].
  cbn [rbind]. destruct (py_int v) as [t|e]; [|discriminate].
  cbn [rbind]. intros [= <-]. lia.
Qed.

End CenteringOffsets.

(** ** Layout engine: columns, rows and failures *)

Section LayoutEngine.

Lemma write_row_ok_inv c i row name :
  snd (write_row c i row name) = Ok tt ->
  exists r tc height opts,
    display_size c i = Ok r /\
    timecode (parse_frame_from_filename name) (c_fps c) = Ok tc /\
    pixels_to_row_points (rec_h r + 2 * c_pad_y c) = Ok height /\
    make_opts c (rec_w r) (rec_h r) (rec_h r + 2 * c_pad_y c) = Ok opts /\
    fst (write_row c i row name)
    = [Set_row row height (row_format c);
       image_event c row name (rec_path r) opts;
       Write row 1 (CStr tc) (row_format c)].
Proof.
  rewrite write_row_eq.
  destruct (display_size c i) as [[[p w] h] | e]; [|discriminate].
  destruct (timecode _ _) as [tc | e]; [|discriminate].
  destruct (pixels_to_row_points _) as [height | e] eqn:Eh; [|discriminate].
  destruct (make_opts _ _ _ _) as [opts | e] eqn:Eo; [|discriminate].
  intros _. exists (p, w, h), tc, height, opts.
  cbn [rec_w rec_h rec_path fst snd]. repeat split; assumption.
Qed.

Lemma main_ok_inv w a trace n :
  main w a = (trace, Ok n) ->
  exists imgs processed width,
    list_images_sorted w = Ok imgs /\ imgs <> [] /\
    preprocess w (use_physical w a) (for_ (scale a) (Fin (1 # 4))) imgs
    = Ok processed /\
    pixels_to_col_width (c_col_pixels (run_context w a processed)) = Ok width /\
    (forall k name,
        nth_error imgs k = Some name ->
        snd (write_row (run_context w a processed) k (1 + Z.of_nat k) name)
        = Ok tt) /\
    trace = (setup_events w a ++ workbook_events ++ header_events width
               ++ rows_trace (run_context w a processed) 0 1 imgs
               ++ [Close; Print_ok] ++ cleanup_events w a)%list /\
    n = 0%Z.
Proof.
  intros H.
  destruct (list_images_sorted w) as [imgs|e] eqn:Ei;
    [|rewrite main_eq, Ei in H; discriminate].
  destruct imgs as [|n0 rest] eqn:En;
    [rewrite main_eq, Ei in H; discriminate|].
  rewrite <- En in *. assert (Hne : imgs <> []) by (subst imgs; discriminate).
  clear En. rewrite (@main_nonempty_eq w a imgs Ei Hne) in H.
  destruct (preprocess _ _ _ imgs) as [processed|e] eqn:Ep; [|discriminate].
  cbv zeta in H.
  destruct (pixels_to_col_width _) as [width|e] eqn:Ew; [|discriminate].
  destruct (write_rows _ 0 1 imgs) as [rows [[]|e]] eqn:Er; [|discriminate].
  injection H as <- <-.
  destruct (@write_rows_ok _ _ _ _ _ Er) as [-> Hall].
  exists imgs, processed, width. repeat split; try assumption; try reflexivity.
Qed.

(** C10: centering is off exactly when the stripped value of [--center]
    is one of the five spellings; off, the rows get no text format and
    the images no offsets; on, both. *)
Theorem center_flag (a : args) :
  (do_center a = false <->
   In (strip (center a)) ["0"; "false"; "False"; "no"; "No"]) /\
  (forall w processed,
      let c := run_context w a processed in
      (do_center a = true ->
       row_format c = Some text_fmt /\
       forall wd h row_pixels opts,
         make_opts c wd h row_pixels = Ok opts ->
         x_offset opts <> None /\ y_offset opts <> None) /\
      (do_center a = false ->
       row_format c = None /\
       forall wd h row_pixels opts,
         make_opts c wd h row_pixels = Ok opts ->
         x_offset opts = None /\ y_offset opts = None)) /\
  do_center (with_center "FALSE") = true /\
  do_center (with_center "NO") = true /\
  do_center (with_center "off") = true /\
  do_center (with_center "") = true /\
  do_center (with_center " no ") = false /\
  do_center (with_center "0") = false.
Proof.
  split; [|split].
  - unfold do_center. rewrite negb_false_iff, existsb_exists. split.
    + intros (x & Hin & Hx). apply String.eqb_eq in Hx. now rewrite Hx.
    + intros Hin. exists (strip (center a)). split; [exact Hin|].
      apply String.eqb_refl.
  - intros w processed c. unfold row_format, make_opts. subst c.
    cbn [run_context c_center]. split; intros ->.
    + split; [reflexivity|]. intros wd h rp opts H.
      destruct (center_offset _ wd) as [x|e]; [|discriminate].
      cbn [rbind] in H. destruct (center_offset rp h) as [y|e]; [|discriminate].
      cbn [rbind] in H. destruct (c_physical _); injection H as <-;
        split; discriminate.
    + split; [reflexivity|]. intros wd h rp opts H. cbn [rbind] in H.
      destruct (c_physical _); injection H as <-; split; reflexivity.
  - vm_compute. repeat split; reflexivity.
Qed.

Lemma write_row_events c i row name e :
  In e (fst (write_row c i row name)) ->
  is_col_a e = false /\
  (is_set_row e = true -> exists height, e = Set_row row height (row_format c)).
Proof.
  rewrite write_row_eq. unfold image_event.
  destruct (display_size c i) as [[[p w] h] | ?]; [|contradiction].
  destruct (timecode _ _) as [tc | ?]; [|contradiction].
  destruct (pixels_to_row_points _) as [height | ?]; [|contradiction].
  destruct (make_opts _ _ _ _) as [opts | ?]; cbn [fst In].
  - destruct (insert_raises _ _);
      intros [<- | [<- | [<- | []]]]; (split; [reflexivity|]);
        intros Hs; try discriminate Hs; now exists height.
  - intros [<- | []]. split; [reflexivity|]. intros _. now exists height.
Qed.

Lemma rows_trace_no_col_a c imgs :
  forall i row, filter is_col_a (rows_trace c i row imgs) = [].
Proof.
  induction imgs as [|n rest IH]; intros i row; cbn [rows_trace].
  - reflexivity.
  - rewrite filter_app, IH, app_nil_r.
    assert (H : forall e, In e (fst (write_row c i row n)) -> is_col_a e = false).
    { intros e He. now apply (write_row_events _ _ _ _ _ He). }
    induction (fst (write_row c i row n)) as [|e l IHl]; [reflexivity|].
    cbn [filter]. rewrite (H e (or_introl eq_refl)).
    apply IHl. intros e' He'. apply H. now right.
Qed.

Lemma rows_trace_set_rows c imgs :
  forall i row,
    (forall k name, nth_error imgs k = Some name ->
                    snd (write_row c (i + k) (row + Z.of_nat k) name) = Ok tt) ->
    List.length (filter is_set_row (rows_trace c i row imgs)) = List.length imgs.
Proof.
  induction imgs as [|n rest IH]; intros i row Hall; cbn [rows_trace].
  - reflexivity.
  - rewrite filter_app, length_app, IH.
    + pose proof (Hall 0%nat n eq_refl) as H0.
      rewrite Nat.add_0_r, Z.add_0_r in H0.
      destruct (write_row_ok_inv _ _ _ _ H0)
        as (r & tc & height & opts & _ & _ & _ & _ & ->).
      unfold image_event. destruct (insert_raises _ _); reflexivity.
    + intros k name Hk. specialize (Hall (S k) name Hk).
      replace (i + S k)%nat with (S i + k)%nat in Hall by lia.
      replace (row + Z.of_nat (S k))%Z with (row + 1 + Z.of_nat k)%Z in Hall by lia.
      exact Hall.
Qed.

Lemma setup_cleanup_plain w a :
  filter is_col_a (setup_events w a) = [] /\
  filter is_col_a (cleanup_events w a) = [] /\
  filter is_set_row (setup_events w a) = [] /\
  filter is_set_row (cleanup_events w a) = [].
Proof.
  unfold setup_events, cleanup_events.
  destruct (resize a), (PIL_AVAILABLE w), (use_physical w a);
    repeat split; reflexivity.
Qed.

(** The trace of a successful run, its rows apart, sizes column A once
    and no row. *)
Lemma run_trace_filters w a width rows :
  let trace := (setup_events w a ++ workbook_events ++ header_events width
                  ++ rows ++ [Close; Print_ok] ++ cleanup_events w a)%list in
  filter is_col_a trace
  = (Set_column "A:A" width :: filter is_col_a rows)%list /\
  filter is_set_row trace = filter is_set_row rows.
Proof.
  destruct (setup_cleanup_plain w a) as (H1 & H2 & H3 & H4).
  cbv zeta. rewrite !filter_app, H1, H2, H3, H4.
  cbn [workbook_events header_events filter is_col_a is_set_row String.eqb
       Ascii.eqb Bool.eqb app].
  rewrite !app_nil_r. split; reflexivity.
Qed.

Lemma In_rows_in_trace w a width rows e :
  In e rows ->
  In e (setup_events w a ++ workbook_events ++ header_events width
          ++ rows ++ [Close; Print_ok] ++ cleanup_events w a)%list.
Proof.
  intros H. rewrite !in_app_iff. right. right. right. now left.
Qed.

(** C1: in every run that ends normally the image column has one pixel
    width, the largest display width over all records plus twice the
    horizontal padding; the column is sized from it once, and every row
    is centered against it. *)
Theorem column_width_is_shared (w : world) (a : args) (trace : list event) :
  main w a = (trace, Ok 0%Z) -> column_shared w a trace.
Proof.
  intros H. unfold column_shared.
  destruct (@main_ok_inv _ _ _ _ H)
    as (imgs & processed & width & Hi & Hne & Hp & Hw & Hall & -> & _).
  destruct (@preprocess_ok_inv _ _ _ _ _ Hp) as [Hlen Hrec].
  exists imgs, processed, width.
  repeat (split; [assumption|]). cbv zeta.
  assert (Hmap : map rec_w processed <> []).
  { destruct processed; [|discriminate].
    destruct imgs; [congruence | discriminate Hlen]. }
  destruct (max_default0_spec Hmap) as [Hmax Hin].
  split; [|split; [|split; [|split]]].
  - intros r Hr.
    specialize (Hmax (rec_w r) (in_map rec_w _ _ Hr)). lia.
  - apply in_map_iff in Hin. destruct Hin as (r & Hr & Hin).
    exists r. split; [exact Hin | now rewrite Hr].
  - exact Hw.
  - destruct (run_trace_filters w a width
                (rows_trace (run_context w a processed) 0 1 imgs)) as [-> _].
    now rewrite rows_trace_no_col_a.
  - intros k name Hk.
    destruct (Hrec k name Hk) as (r & Hr & Hone).
    pose proof (@display_size_record w a processed k name r Hone Hr) as Hd.
    destruct (write_row_ok_inv _ _ _ _ (Hall k name Hk))
      as (r' & tc & height & opts & Hd' & _ & _ & Ho & Hev).
    assert (r' = r) by congruence. subst r'.
    exists r, opts. split; [exact Hr|]. split; [exact Hd|]. split.
    + apply In_rows_in_trace. apply rows_trace_In.
      exists k, name. split; [exact Hk|].
      rewrite Nat.add_0_l, Hev. right. now left.
    + intros Hc. unfold make_opts in Ho.
      cbn [run_context c_center c_col_pixels c_physical c_scale] in Ho.
      rewrite Hc in Ho.
      destruct (center_offset _ (rec_w r)) as [xo|e]; [|discriminate].
      cbn [rbind] in Ho. destruct (center_offset _ (rec_h r)) as [yo|e];
        [|discriminate].
      cbn [rbind] in Ho. exists xo. split; [reflexivity|].
      destruct (use_physical w a); injection Ho as <-; reflexivity.
Qed.

Lemma column_width_is_shared_witness :
  column_shared sample_world sample_args (fst (main sample_world sample_args)).
Proof. apply column_width_is_shared. vm_compute. reflexivity. Defined.

Lemma use_physical_true w a :
  use_physical w a = true -> PIL_AVAILABLE w = true.
Proof. unfold use_physical. destruct (resize a); [tauto | discriminate]. Qed.

(** In physical mode the loop body never raises. *)
Lemma preprocess_one_physical w s name :
  PIL_AVAILABLE w = true ->
  preprocess_one w true s name =
  Ok match physical_resize_image w (Src name) s with
     | Ok (nw, nh) => (Tmp name, nw, nh)
     | Raise _ =>
         match image_size w (Src name) with
         | Some (iw, ih) => (Src name, iw, ih)
         | None => (Src name, 0, 0)%Z
         end
     end.
Proof.
  intros HP. unfold preprocess_one, get_image_size. rewrite HP.
  destruct (physical_resize_image w (Src name) s) as [[nw nh]|e]; [reflexivity|].
  destruct (image_size w (Src name)) as [[iw ih]|]; reflexivity.
Qed.

Lemma sample_world_ordinary : ordinary sample_world sample_args.
Proof.
  unfold ordinary. split; [|split; [|split; [|split]]].
  - intros [n | n] iw ih; cbn [sample_world image_size]; [|discriminate].
    destruct (String.eqb n "zz.jpeg"); [discriminate|].
    intros [= <- <-]. lia.
  - cbn. lia.
  - cbn. lia.
  - exists (1 # 4)%Q. split; [reflexivity|]. split; discriminate.
  - right. discriminate.
Qed.

(** The run of the sample: three rows, the resized copies of the two
    valid images and the original file of the third. *)
Example sample_run :
  snd (main sample_world sample_args) = Ok 0%Z /\
  filter is_set_row (fst (main sample_world sample_args))
  = [Set_row 1 (Fin (405 # 2)) (Some text_fmt);
     Set_row 2 (Fin (405 # 2)) (Some text_fmt);
     Set_row 3 (Fin 1) (Some text_fmt)] /\
  In (Insert_image 1 0 (Tmp "F00000025.JPG")
                   (mkOpts (Some 0%Z) (Some 0%Z) None None))
     (fst (main sample_world sample_args)) /\
  In (Insert_image 2 0 (Tmp "f00000050.png")
                   (mkOpts (Some 0%Z) (Some 0%Z) None None))
     (fst (main sample_world sample_args)) /\
  In (Insert_image 3 0 (Src "zz.jpeg")
                   (mkOpts (Some 240%Z) (Some 0%Z) None None))
     (fst (main sample_world sample_args)).
Proof.
  vm_compute. repeat split; try reflexivity; tauto.
Qed.

End LayoutEngine.

(** ** Run outcome: scratch directory, workbook, exit status *)

Section RunOutcome.

Open Scope Z_scope.

Lemma write_row_sheet c i row name e :
  In e (fst (write_row c i row name)) -> is_sheet_event e = true.
Proof.
  rewrite write_row_eq. unfold image_event.
  destruct (display_size c i) as [[[p w] h] | ?]; [|contradiction].
  destruct (timecode _ _) as [tc | ?]; [|contradiction].
  destruct (pixels_to_row_points _) as [height | ?]; [|contradiction].
  destruct (make_opts _ _ _ _) as [opts | ?]; cbn [fst In].
  - destruct (insert_raises _ _); intros [<- | [<- | [<- | []]]]; reflexivity.
  - intros [<- | []]. reflexivity.
Qed.

(** The events of the row loop, also when it stops on an exception, are
    events of its rows. *)
Lemma write_rows_events c imgs :
  forall i row e,
    In e (fst (write_rows c i row imgs)) ->
    exists k name, nth_error imgs k = Some name /\
                   In e (fst (write_row c (i + k) (row + Z.of_nat k) name)).
Proof.
  induction imgs as [|n rest IH]; intros i row e; [contradiction|].
  rewrite write_rows_cons.
  destruct (write_row c i row n) as [t1 [[] | ex]] eqn:E1.
  - destruct (write_rows c (S i) (row + 1) rest) as [t2 r] eqn:E2.
    cbn [fst]. rewrite in_app_iff. intros [H | H].
    + exists 0%nat, n. rewrite Nat.add_0_r, Z.add_0_r, E1. now split.
    + specialize (IH (S i) (row + 1) e). rewrite E2 in IH.
      destruct (IH H) as (k & name & Hk & Hin).
      exists (S k), name. split; [exact Hk|].
      replace (i + S k)%nat with (S i + k)%nat by lia.
      replace (row + Z.of_nat (S k)) with (row + 1 + Z.of_nat k) by lia.
      exact Hin.
  - cbn [fst]. intros H. exists 0%nat, n.
    rewrite Nat.add_0_r, Z.add_0_r, E1. now split.
Qed.

Lemma write_rows_sheet c imgs i row e :
  In e (fst (write_rows c i row imgs)) -> is_sheet_event e = true.
Proof.
  intros H. destruct (write_rows_events _ _ _ _ _ H) as (k & name & _ & Hin).
  exact (write_row_sheet _ _ _ _ _ Hin).
Qed.

(** The shape of every run over at least one image: what happens between
    the setup and the cleanup, and how the run ends. *)
Lemma main_shape w a n rest :
  list_images_sorted w = Ok (n :: rest) ->
  exists body,
    fst (main w a) = (setup_events w a ++ body ++ cleanup_events w a)%list /\
    ~ In Mkdtemp body /\ ~ In Rmtree body /\
    (snd (main w a) = Ok 0 <-> In Close body) /\
    (In Close body <-> In Print_ok body) /\
    (In Close body -> In Workbook body) /\
    (forall v, snd (main w a) = Ok v -> v = 0).
Proof.
  intros Hi. rewrite (@main_nonempty_eq w a (n :: rest) Hi) by discriminate.
  destruct (preprocess _ _ _ _) as [processed|ex].
  - cbv zeta.
    destruct (pixels_to_col_width _) as [width|ex].
    + destruct (write_rows _ 0 1 (n :: rest)) as [rows [[]|ex]] eqn:Er.
      * exists (workbook_events ++ header_events width ++ rows
                  ++ [Close; Print_ok])%list.
        cbn [fst snd]. rewrite <- !app_assoc.
        split; [reflexivity|].
        assert (Hs : forall e, In e rows -> is_sheet_event e = true).
        { intros e He. apply (@write_rows_sheet (run_context w a processed) (n :: rest) 0%nat 1 e).
          now rewrite Er. }
        rewrite !in_app_iff.
        repeat split; intros; try reflexivity; try tauto;
          try (right; right; right; cbn; tauto);
          try (left; cbn; tauto);
          try congruence.
        -- intros [H | [H | [H | H]]];
             try (cbn in H; intuition discriminate).
           apply Hs in H. discriminate.
        -- intros [H | [H | [H | H]]];
             try (cbn in H; intuition discriminate).
           apply Hs in H. discriminate.
      * exists (workbook_events ++ header_events width ++ rows)%list.
        cbn [fst snd]. rewrite <- !app_assoc.
        split; [reflexivity|].
        assert (Hs : forall e, In e rows -> is_sheet_event e = true).
        { intros e He. apply (@write_rows_sheet (run_context w a processed) (n :: rest) 0%nat 1 e).
          now rewrite Er. }
        assert (Hno : forall e, is_sheet_event e = false ->
                        In e (workbook_events ++ header_events width ++ rows)%list ->
                        e = Workbook \/ e = Add_worksheet "Gallery" \/
                        e = Add_format header_fmt \/ e = Add_format text_fmt \/
                        e = Set_column "A:A" width \/
                        e = Set_column "B:B" (Fin 16) \/ e = Freeze_panes 1 0).
        { intros e Hf. rewrite !in_app_iff. intros [H | [H | H]].
          - cbn in H. intuition.
          - cbn in H. destruct H as [<- | [<- | [<- | [<- | [<- | []]]]]];
              try discriminate Hf; tauto.
          - apply Hs in H. congruence. }
        rewrite !app_assoc in Hno. rewrite <- !app_assoc in Hno.
        repeat split.
        -- intros H. apply Hno in H; [|reflexivity]. intuition discriminate.
        -- intros H. apply Hno in H; [|reflexivity]. intuition discriminate.
        -- discriminate.
        -- intros H. apply Hno in H; [|reflexivity]. intuition discriminate.
        -- intros H. apply Hno in H; [|reflexivity]. intuition discriminate.
        -- intros H. apply Hno in H; [|reflexivity]. intuition discriminate.
        -- intros _. cbn. tauto.
        -- intros v Hv. discriminate Hv.
    + exists workbook_events. cbn [fst snd].
      split; [reflexivity|].
      repeat split; try (cbn; intuition discriminate).
  - exists []. cbn [fst snd app].
    split; [reflexivity|].
    repeat split; try (cbn; intuition discriminate).
Qed.

Lemma setup_events_cases w a :
  (use_physical w a = true /\ setup_events w a = [Makedirs; Mkdtemp] /\
   cleanup_events w a = [Rmtree]) \/
  (use_physical w a = false /\ cleanup_events w a = [] /\
   (setup_events w a = [Makedirs] \/
    setup_events w a
    = [Makedirs;
       Print_stderr "Pillow not available, falling back to scale-only mode."])).
Proof.
  unfold setup_events, cleanup_events, use_physical.
  destruct (resize a), (PIL_AVAILABLE w); cbn; tauto.
Qed.

(** X1: a run creates the scratch directory exactly when it resizes
    physically and has at least one image.  A run that creates it removes
    it as its last action, whether it returns or raises, and touches it
    at no other point; a run that creates none removes none. *)
Theorem scratch_directory_is_removed (w : world) (a : args) :
  (In Mkdtemp (fst (main w a)) \/ In Rmtree (fst (main w a)) ->
   exists body,
     fst (main w a) = ([Makedirs; Mkdtemp] ++ body ++ [Rmtree])%list /\
     ~ In Mkdtemp body /\ ~ In Rmtree body) /\
  (In Mkdtemp (fst (main w a)) <->
   use_physical w a = true /\
   exists n rest, list_images_sorted w = Ok (n :: rest)).
Proof.
  destruct (list_images_sorted w) as [[|n rest]|e] eqn:Ei.
  - rewrite main_eq, Ei. cbn [fst]. split.
    + intros [[H | []] | [H | []]]; discriminate H.
    + split.
      * intros [H | []]; discriminate H.
      * intros (_ & n & rest & H). discriminate H.
  - destruct (@main_shape w a n rest Ei) as (body & -> & Hm & Hr & _).
    destruct (setup_events_cases w a)
      as [(Hu & -> & ->) | (Hu & -> & Hs)].
    + split.
      * intros _. exists body. now repeat split.
      * split; [|intros _; cbn; tauto].
        intros _. split; [exact Hu|]. now exists n, rest.
    + rewrite app_nil_r. split.
      * rewrite !in_app_iff.
        destruct Hs as [-> | ->]; cbn;
          intros [[H | H] | [H | H]]; intuition discriminate.
      * rewrite Hu. split; [|intros [H _]; discriminate H].
        rewrite in_app_iff.
        destruct Hs as [-> | ->]; cbn; intuition discriminate.
  - rewrite main_eq, Ei. cbn [fst]. split.
    + intros [[] | []].
    + split; [intros [] | intros (_ & n & rest & H); discriminate H].
Qed.

(** The closing of the workbook, the final message and the creation of
    the workbook happen between the setup and the cleanup. *)
Lemma run_end_events w a body e :
  e = Close \/ e = Print_ok \/ e = Workbook ->
  (In e (setup_events w a ++ body ++ cleanup_events w a)%list <-> In e body).
Proof.
  intros He. rewrite !in_app_iff.
  destruct (setup_events_cases w a)
    as [(_ & -> & ->) | (_ & -> & [-> | ->])]; cbn;
    intuition (subst; discriminate).
Qed.

Lemma returns_iff_closed w a :
  snd (main w a) = Ok 0 <-> In Close (fst (main w a)).
Proof.
  destruct (list_images_sorted w) as [[|n rest]|e] eqn:Ei.
  - rewrite main_eq, Ei. cbn [fst snd].
    split; [discriminate | cbn; intuition discriminate].
  - destruct (@main_shape w a n rest Ei) as (body & -> & _ & _ & Hok & _).
    rewrite (@run_end_events w a body Close) by tauto. exact Hok.
  - rewrite main_eq, Ei. cbn [fst snd].
    split; [discriminate | cbn; intuition discriminate].
Qed.

(** X2: the workbook is closed, and with it the output file written,
    exactly in the runs that return.  These are the runs that print the
    final message; they return 0 and nothing else, and they have created
    the workbook. *)
Theorem workbook_closed_only_on_success (w : world) (a : args) :
  (snd (main w a) = Ok 0 <-> In Close (fst (main w a))) /\
  (In Close (fst (main w a)) <-> In Print_ok (fst (main w a))) /\
  (In Close (fst (main w a)) -> In Workbook (fst (main w a))) /\
  (forall v, snd (main w a) = Ok v -> v = 0).
Proof.
  split; [apply returns_iff_closed|].
  destruct (list_images_sorted w) as [[|n rest]|e] eqn:Ei.
  - rewrite main_eq, Ei. cbn [fst snd].
    repeat split; try discriminate; cbn; intuition discriminate.
  - destruct (@main_shape w a n rest Ei)
      as (body & -> & _ & _ & _ & Hpr & Hwb & Hv).
    rewrite (@run_end_events w a body Close), (@run_end_events w a body Print_ok),
      (@run_end_events w a body Workbook) by tauto.
    split; [exact Hpr|]. split; [exact Hwb | exact Hv].
  - rewrite main_eq, Ei. cbn [fst snd].
    repeat split; try discriminate; cbn; intuition discriminate.
Qed.

Lemma float_of_int_error n e : float_of_int n = Raise e -> e = OverflowError.
Proof. unfold float_of_int. destruct (rnd _); congruence. Qed.

Lemma to_int_error (f : float -> result Z) x e :
  f = py_round \/ f = py_int \/ f = math_floor ->
  f x = Raise e -> arith_error e.
Proof.
  unfold arith_error.
  intros [-> | [-> | ->]]; destruct x; cbn; intros [=]; subst; tauto.
Qed.

Lemma scaled_error n s e : scaled n s = Raise e -> arith_error e.
Proof.
  unfold scaled. destruct (float_of_int n) as [x|e'] eqn:E; cbn [rbind].
  - apply to_int_error. tauto.
  - intros [= <-]. left. exact (float_of_int_error _ E).
Qed.

Lemma preprocess_one_error w up s name e :
  preprocess_one w up s name = Raise e -> arith_error e.
Proof.
  unfold preprocess_one. destruct up.
  - destruct (physical_resize_image _ _ _) as [[nw nh]|?]; [discriminate|].
    destruct (get_image_size _ _). discriminate.
  - destruct (get_image_size _ _) as [iw ih].
    destruct (scaled (or0 iw) s) as [sw|e1] eqn:E1; cbn [rbind].
    + destruct (scaled (or0 ih) s) as [sh|e2] eqn:E2; cbn [rbind];
        [discriminate|].
      intros [= <-]. exact (scaled_error _ _ E2).
    + intros [= <-]. exact (scaled_error _ _ E1).
Qed.

Lemma preprocess_error w up s imgs e :
  preprocess w up s imgs = Raise e -> arith_error e.
Proof.
  induction imgs as [|n rest IH]; [discriminate|].
  rewrite preprocess_cons.
  destruct (preprocess_one w up s n) as [r|e1] eqn:E1.
  - destruct (preprocess w up s rest) as [rs|e2]; [discriminate|].
    intros [= <-]. now apply IH.
  - intros [= <-]. exact (preprocess_one_error _ _ _ _ E1).
Qed.

Lemma pixels_to_col_width_error p e :
  pixels_to_col_width p = Raise e -> e = OverflowError.
Proof.
  unfold pixels_to_col_width.
  destruct (float_of_int (p - 5)) as [x|e'] eqn:E; cbn [rbind].
  - destruct x; discriminate.
  - intros [= <-]. exact (float_of_int_error _ E).
Qed.

Lemma pixels_to_row_points_error p e :
  pixels_to_row_points p = Raise e -> e = OverflowError.
Proof.
  unfold pixels_to_row_points.
  change (fdiv (Fin 3) (Fin 4)) with (Ok (rnd (3 / 4))). cbn [rbind].
  destruct (float_of_int p) as [x|e'] eqn:E; cbn [rbind]; [discriminate|].
  intros [= <-]. exact (float_of_int_error _ E).
Qed.

Lemma fgt_zero_divisor fps x e :
  fgt fps (Fin 0) = true -> fdiv x fps <> Raise e.
Proof.
  unfold fgt, flt, fdiv. destruct fps as [y | s |].
  - intros H. unfold is_zero.
    destruct (Qeq_bool y 0) eqn:E.
    + apply Qeq_bool_iff in E.
      assert (Hle : Qle_bool y 0 = true) by (apply Qle_bool_iff; rewrite E; apply Qle_refl).
      rewrite Hle in H. discriminate H.
    + destruct x; discriminate.
  - destruct x; discriminate.
  - discriminate.
Qed.

Lemma seconds_to_hhmmss_floor_error x e :
  seconds_to_hhmmss_floor x = Raise e -> arith_error e.
Proof.
  unfold seconds_to_hhmmss_floor.
  destruct (negb (truthy x) || flt x (Fin 0)); [discriminate|].
  destruct (math_floor x) as [s|e'] eqn:E; cbn [rbind]; [discriminate|].
  intros [= <-]. apply (@to_int_error math_floor x); tauto.
Qed.

Lemma timecode_error frame fps e :
  timecode frame fps = Raise e -> arith_error e.
Proof.
  unfold timecode. destruct frame as [f|]; [|discriminate].
  destruct (fgt fps (Fin 0)) eqn:Eg; [|discriminate].
  destruct (float_of_int f) as [x|e'] eqn:E; cbn [rbind].
  - destruct (fdiv x fps) as [secs|e'] eqn:Ed; cbn [rbind].
    + apply seconds_to_hhmmss_floor_error.
    + now destruct (@fgt_zero_divisor fps x e' Eg).
  - intros [= <-]. left. exact (float_of_int_error _ E).
Qed.

Lemma center_offset_error avail size e :
  center_offset avail size = Raise e -> arith_error e.
Proof.
  unfold center_offset, int_truediv. change (2 =? 0) with false. cbv iota.
  destruct (rnd _) as [q | s |]; cbn [rbind py_int]; try discriminate.
  - intros [= <-]. now left.
  - intros [= <-]. now right.
Qed.

Lemma make_opts_error c w h rp e :
  make_opts c w h rp = Raise e -> arith_error e.
Proof.
  unfold make_opts. destruct (c_center c).
  - destruct (center_offset (c_col_pixels c) w) as [x|e1] eqn:E1; cbn [rbind].
    + destruct (center_offset rp h) as [y|e2] eqn:E2; cbn [rbind].
      * destruct (c_physical c); discriminate.
      * intros [= <-]. exact (center_offset_error _ _ E2).
    + intros [= <-]. exact (center_offset_error _ _ E1).
  - cbn [rbind]. destruct (c_physical c); discriminate.
Qed.

Lemma display_size_error c i r e :
  nth_error (c_processed c) i = Some r ->
  display_size c i = Raise e -> arith_error e.
Proof.
  intros Hr. unfold display_size, getitem. rewrite Hr. cbn [rbind].
  destruct r as [[p w] h]. destruct (c_physical c); [discriminate|].
  destruct (get_image_size _ _) as [ow oh].
  destruct (both_positive ow oh); [|discriminate].
  destruct (scaled (or0 ow) _) as [sw|e1] eqn:E1; cbn [rbind].
  - destruct (scaled (or0 oh) _) as [sh|e2] eqn:E2; cbn [rbind];
      [discriminate|].
    intros [= <-]. exact (scaled_error _ _ E2).
  - intros [= <-]. exact (scaled_error _ _ E1).
Qed.

Lemma write_row_error c i row name r e :
  nth_error (c_processed c) i = Some r ->
  snd (write_row c i row name) = Raise e -> arith_error e.
Proof.
  intros Hr. rewrite write_row_eq.
  destruct (display_size c i) as [[[p w] h] | e1] eqn:E1.
  - destruct (timecode _ _) as [tc | e2] eqn:E2.
    + destruct (pixels_to_row_points _) as [height | e3] eqn:E3.
      * destruct (make_opts _ _ _ _) as [opts | e4] eqn:E4; [discriminate|].
        intros [= <-]. exact (make_opts_error _ _ _ _ E4).
      * intros [= <-]. left. exact (pixels_to_row_points_error _ E3).
    + intros [= <-]. exact (timecode_error _ _ E2).
  - intros [= <-]. exact (display_size_error _ _ Hr E1).
Qed.

(** When the row loop raises, one of its rows raised. *)
Lemma write_rows_raise c imgs :
  forall i row e,
    snd (write_rows c i row imgs) = Raise e ->
    exists k name, nth_error imgs k = Some name /\
                   snd (write_row c (i + k) (row + Z.of_nat k) name) = Raise e.
Proof.
  induction imgs as [|n rest IH]; intros i row e; [discriminate|].
  rewrite write_rows_cons.
  destruct (write_row c i row n) as [t1 [[] | ex]] eqn:E1.
  - destruct (write_rows c (S i) (row + 1) rest) as [t2 r] eqn:E2.
    cbn [snd]. intros ->.
    specialize (IH (S i) (row + 1) e). rewrite E2 in IH.
    destruct (IH eq_refl) as (k & name & Hk & Hr).
    exists (S k), name. split; [exact Hk|].
    replace (i + S k)%nat with (S i + k)%nat by lia.
    replace (row + Z.of_nat (S k)) with (row + 1 + Z.of_nat k) by lia.
    exact Hr.
  - cbn [snd]. intros [= ->]. exists 0%nat, n.
    rewrite Nat.add_0_r, Z.add_0_r, E1. now split.
Qed.

Lemma list_images_sorted_ok w names :
  listdir w = Ok names -> exists imgs, list_images_sorted w = Ok imgs.
Proof. intros H. unfold list_images_sorted. rewrite H. eexists. reflexivity. Qed.

(** The ways the run of [main] ends when the directory can be listed. *)
Lemma main_outcomes w a names :
  listdir w = Ok names ->
  (snd (main w a) = Ok 0 \/ snd (main w a) = Raise (SystemExit 2) \/
   snd (main w a) = Raise OverflowError \/ snd (main w a) = Raise ValueError) /\
  (snd (main w a) = Raise (SystemExit 2) <-> list_images_sorted w = Ok []).
Proof.
  intros Hl. destruct (list_images_sorted_ok w Hl) as (imgs & Hi).
  assert (Hcls : forall r,
             snd (main w a) = r ->
             imgs <> [] ->
             r = Ok 0 \/ r = Raise OverflowError \/ r = Raise ValueError).
  { intros r <- Hne. rewrite (@main_nonempty_eq w a imgs Hi Hne).
    destruct (preprocess _ _ _ imgs) as [processed|e] eqn:Ep.
    - cbv zeta. destruct (pixels_to_col_width _) as [width|e] eqn:Ew.
      + destruct (write_rows _ 0 1 imgs) as [rows [[]|e]] eqn:Er;
          cbn [snd]; [now left|].
        destruct (@write_rows_raise (run_context w a processed) imgs 0%nat 1 e)
          as (k & name & Hk & Hr); [now rewrite Er|].
        destruct (preprocess_ok_inv _ _ _ _ Ep) as [_ Hall].
        destruct (Hall k name Hk) as (r & Hrk & _).
        rewrite Nat.add_0_l in Hr.
        destruct (@write_row_error (run_context w a processed) k
                    (1 + Z.of_nat k) name r e Hrk Hr) as [-> | ->]; tauto.
      + cbn [snd]. rewrite (pixels_to_col_width_error _ Ew). tauto.
    - cbn [snd]. destruct (preprocess_error _ _ _ _ Ep) as [-> | ->]; tauto. }
  destruct imgs as [|n rest].
  - rewrite main_eq, Hi. cbn [snd]. split; [tauto|]. split; reflexivity.
  - destruct (Hcls _ eq_refl) as [-> | [-> | ->]]; try discriminate;
      rewrite Hi; (split; [tauto|]); split; discriminate.
Qed.

End RunOutcome.

(** ** Failure of an insertion *)

Section InsertionFailure.

Open Scope Z_scope.

Section InsertFailure.

Variable w : world.
Variable f : path -> bool.
Variable a : args.

Let w' : world := with_insert_raises w f.

Lemma preprocess_insert up s imgs :
  preprocess w' up s imgs = preprocess w up s imgs.
Proof.
  induction imgs as [|n rest IH]; [reflexivity|].
  rewrite !preprocess_cons, IH. reflexivity.
Qed.

Lemma write_row_insert processed i row name :
  snd (write_row (run_context w' a processed) i row name)
  = snd (write_row (run_context w a processed) i row name) /\
  outside_image_cells (fst (write_row (run_context w' a processed) i row name))
  = outside_image_cells (fst (write_row (run_context w a processed) i row name)) /\
  List.length (fst (write_row (run_context w' a processed) i row name))
  = List.length (fst (write_row (run_context w a processed) i row name)).
Proof.
  rewrite !write_row_eq.
  change (display_size (run_context w' a processed) i)
    with (display_size (run_context w a processed) i).
  destruct (display_size _ i) as [[[p iw] ih] | ?]; [|now repeat split].
  change (c_fps (run_context w' a processed))
    with (c_fps (run_context w a processed)).
  destruct (timecode _ _) as [tc | ?]; [|now repeat split].
  change (c_pad_y (run_context w' a processed))
    with (c_pad_y (run_context w a processed)).
  destruct (pixels_to_row_points _) as [height | ?]; [|now repeat split].
  change (make_opts (run_context w' a processed))
    with (make_opts (run_context w a processed)).
  destruct (make_opts _ _ _ _) as [opts | ?]; [|now repeat split].
  unfold image_event, outside_image_cells.
  change (row_format (run_context w' a processed))
    with (row_format (run_context w a processed)).
  destruct (insert_raises _ _), (insert_raises _ _); now repeat split.
Qed.

Lemma write_rows_insert processed imgs :
  forall i row,
    snd (write_rows (run_context w' a processed) i row imgs)
    = snd (write_rows (run_context w a processed) i row imgs) /\
    outside_image_cells (fst (write_rows (run_context w' a processed) i row imgs))
    = outside_image_cells (fst (write_rows (run_context w a processed) i row imgs)) /\
    List.length (fst (write_rows (run_context w' a processed) i row imgs))
    = List.length (fst (write_rows (run_context w a processed) i row imgs)).
Proof.
  induction imgs as [|n rest IH]; intros i row; [now repeat split|].
  rewrite !write_rows_cons.
  destruct (write_row_insert processed i row n) as (Hs & Hf & Hl).
  destruct (write_row (run_context w' a processed) i row n) as [t1' r1'].
  destruct (write_row (run_context w a processed) i row n) as [t1 r1].
  cbn [fst snd] in Hs, Hf, Hl. subst r1'.
  destruct r1 as [[]|e]; [|now repeat split].
  destruct (IH (S i) (row + 1)) as (Hs2 & Hf2 & Hl2).
  destruct (write_rows (run_context w' a processed) _ _ rest) as [t2' r2'].
  destruct (write_rows (run_context w a processed) _ _ rest) as [t2 r2].
  cbn [fst snd] in *. subst r2'.
  unfold outside_image_cells in *.
  rewrite !filter_app, !length_app, Hf, Hf2, Hl, Hl2. now repeat split.
Qed.

End InsertFailure.

(** X4: whether [insert_image] raises changes neither the result of a
    run, nor the number of its events, nor any event other than an image
    cell.  A path written in place of an image is the original file of an
    image of the listing, in column 0. *)
Theorem insert_failure_is_local (w : world) (f : path -> bool) (a : args) :
  snd (main (with_insert_raises w f) a) = snd (main w a) /\
  outside_image_cells (fst (main (with_insert_raises w f) a))
  = outside_image_cells (fst (main w a)) /\
  List.length (fst (main (with_insert_raises w f) a))
  = List.length (fst (main w a)) /\
  (forall row col p fmt,
      In (Write row col (CPath p) fmt) (fst (main w a)) ->
      exists imgs name,
        list_images_sorted w = Ok imgs /\ In name imgs /\ p = Src name /\
        col = 0).
Proof.
  split; [|split; [|split]].
  1-3: rewrite !main_eq;
    change (list_images_sorted (with_insert_raises w f))
      with (list_images_sorted w);
    destruct (list_images_sorted w) as [[|n rest]|e]; try reflexivity;
    change (use_physical (with_insert_raises w f) a) with (use_physical w a);
    rewrite preprocess_insert;
    destruct (preprocess w _ _ _) as [processed|e]; try reflexivity;
    cbv zeta;
    change (c_col_pixels (run_context (with_insert_raises w f) a processed))
      with (c_col_pixels (run_context w a processed));
    destruct (pixels_to_col_width _) as [width|e]; try reflexivity;
    destruct (write_rows_insert w f a processed (n :: rest) 0 1)
      as (Hs & Hf & Hl);
    destruct (write_rows (run_context (with_insert_raises w f) a processed)
                         0 1 (n :: rest)) as [t' r'];
    destruct (write_rows (run_context w a processed) 0 1 (n :: rest))
      as [t r];
    cbn [fst snd] in Hs, Hf, Hl; subst r';
    change (setup_events (with_insert_raises w f) a) with (setup_events w a);
    change (cleanup_events (with_insert_raises w f) a)
      with (cleanup_events w a);
    destruct r as [[]|e]; cbn [fst snd]; try reflexivity;
    unfold outside_image_cells in *;
    rewrite ?filter_app, ?length_app, ?Hf, ?Hl; reflexivity.
  intros row col p fmt Hin.
  destruct (list_images_sorted w) as [[|n rest]|e] eqn:Ei;
    [rewrite main_eq, Ei in Hin; destruct Hin as [H | []]; discriminate H
    | | rewrite main_eq, Ei in Hin; destruct Hin].
  rewrite (@main_nonempty_eq w a (n :: rest) Ei) in Hin by discriminate.
  assert (Hrows : forall processed,
             In (Write row col (CPath p) fmt)
                (fst (write_rows (run_context w a processed) 0 1 (n :: rest))) ->
             exists name, In name (n :: rest) /\ p = Src name /\ col = 0).
  { intros processed H.
    destruct (write_rows_events _ _ _ _ _ H) as (k & name & Hk & Hin').
    exists name. split; [eapply nth_error_In; exact Hk|].
    rewrite write_row_eq in Hin'. unfold image_event in Hin'.
    destruct (display_size _ _) as [[[p0 iw] ih] | ?]; [|destruct Hin'].
    destruct (timecode _ _) as [tc | ?]; [|destruct Hin'].
    destruct (pixels_to_row_points _) as [height | ?]; [|destruct Hin'].
    destruct (make_opts _ _ _ _) as [opts | ?]; cbn [fst In] in Hin'.
    - destruct (insert_raises _ _);
        destruct Hin' as [H' | [H' | [H' | []]]]; try discriminate H'.
      injection H' as <- <- <- <-. now split.
    - destruct Hin' as [H' | []]. discriminate H'. }
  assert (Hside : forall l,
             In (Write row col (CPath p) fmt) (setup_events w a ++ l)%list ->
             In (Write row col (CPath p) fmt) l).
  { intros l. rewrite in_app_iff. intros [H | H]; [|exact H].
    destruct (setup_events_cases w a)
      as [(_ & E & _) | (_ & _ & [E | E])]; rewrite E in H; cbn in H;
      intuition discriminate. }
  assert (Hclean : ~ In (Write row col (CPath p) fmt) (cleanup_events w a)).
  { destruct (setup_events_cases w a) as [(_ & _ & ->) | (_ & -> & _)];
      cbn; intuition discriminate. }
  destruct (preprocess _ _ _ _) as [processed|e].
  - cbv zeta in Hin.
    destruct (pixels_to_col_width _) as [width|e].
    + specialize (Hrows processed).
      destruct (write_rows _ 0 1 (n :: rest)) as [rows [[]|e]];
        cbn [fst] in Hin, Hrows; apply Hside in Hin;
        rewrite !in_app_iff in Hin;
        destruct Hin as [H | [H | [H | H]]];
        try (cbn in H; intuition discriminate);
        try (destruct (Hrows H) as (name & Hn & -> & ->);
             exists (n :: rest), name; now repeat split).
    + cbn [fst] in Hin. apply Hside in Hin. rewrite in_app_iff in Hin.
      destruct Hin as [H | H]; [cbn in H; intuition discriminate|].
      contradiction.
  - cbn [fst] in Hin. apply Hside in Hin. contradiction.
Qed.

End InsertionFailure.

(** ** Runs without Pillow *)

Section WithoutPillow.

Open Scope Z_scope.

(** X5: without Pillow a run in physical mode is the run in scale-only
    mode, with the same result, plus one notice right after the output
    directory is made; without image there is no notice. *)
Theorem missing_pillow_is_scale_only (w : world) (a : args) :
  PIL_AVAILABLE w = false ->
  snd (main w (with_resize a Physical)) = snd (main w (with_resize a ScaleOnly)) /\
  match list_images_sorted w with
  | Ok (_ :: _) =>
      exists t,
        fst (main w (with_resize a ScaleOnly)) = Makedirs :: t /\
        fst (main w (with_resize a Physical)) = Makedirs :: pillow_notice :: t
  | _ => fst (main w (with_resize a Physical))
         = fst (main w (with_resize a ScaleOnly))
  end.
Proof.
  intros HP. rewrite !main_eq.
  destruct (list_images_sorted w) as [[|n rest]|e]; [now split | | now split].
  unfold run_context, setup_events, cleanup_events, use_physical, do_center,
    with_resize, pillow_notice.
  cbn [resize fps scale center pad_x pad_y]. rewrite HP.
  destruct (preprocess _ _ _ _) as [processed|e].
  - cbv zeta. cbn [c_col_pixels].
    destruct (pixels_to_col_width _) as [width|e].
    + destruct (write_rows _ 0 1 (n :: rest)) as [rows [[]|e]];
        (split; [reflexivity|]); eexists; split; reflexivity.
    + split; [reflexivity|]. eexists; split; reflexivity.
  - split; [reflexivity|]. eexists; split; reflexivity.
Qed.

Lemma missing_pillow_is_scale_only_witness :
  PIL_AVAILABLE (without_pillow sample_world) = false /\
  snd (main (without_pillow sample_world) (with_resize sample_args Physical))
  = snd (main (without_pillow sample_world) (with_resize sample_args ScaleOnly)).
Proof.
  split; [reflexivity|].
  apply (@missing_pillow_is_scale_only (without_pillow sample_world)
           sample_args eq_refl).
Defined.

Lemma rnd_zero q : (q == 0)%Q -> rnd q = Fin 0.
Proof.
  intros H. unfold rnd.
  now rewrite (proj2 (Qeq_bool_iff q 0) H).
Qed.

Lemma scaled_zero q : scaled 0 (Fin q) = Ok 0.
Proof.
  unfold scaled. change (float_of_int 0) with (Ok (Fin 0)). cbn [rbind fmul].
  rewrite rnd_zero by ring. reflexivity.
Qed.

Lemma preprocess_no_pillow w q imgs :
  PIL_AVAILABLE w = false ->
  preprocess w false (Fin q) imgs = Ok (map (fun n => (Src n, 0, 0)) imgs).
Proof.
  intros HP. induction imgs as [|n rest IH]; [reflexivity|].
  rewrite preprocess_cons, IH. unfold preprocess_one, get_image_size.
  rewrite HP. cbn [or0]. rewrite scaled_zero. reflexivity.
Qed.

Lemma max_default0_zeros (imgs : list string) :
  max_default0 (map rec_w (map (fun n => (Src n, 0, 0)) imgs)) = 0.
Proof.
  destruct imgs as [|n rest]; [reflexivity|].
  cbn [map max_default0 rec_w fst snd].
  induction rest as [|m rest IH]; [reflexivity|]. exact IH.
Qed.

(** X6: without Pillow and with a finite scale no image size is ever
    read: column A is as wide as twice the horizontal padding, every row
    as high as twice the vertical padding, and every image inserted is
    the original file with both scale keys. *)
Theorem layout_without_pillow (w : world) (a : args) (q : Q) (e : event) :
  PIL_AVAILABLE w = false ->
  scale a = Fin q ->
  In e (fst (main w a)) ->
  match e with
  | Set_column cols width =>
      cols = "A:A" -> pixels_to_col_width (2 * pad_x a) = Ok width
  | Set_row _ height _ => pixels_to_row_points (2 * pad_y a) = Ok height
  | Insert_image _ _ p opts =>
      (exists name, p = Src name) /\
      x_scale opts = Some (for_ (scale a) (Fin (1 # 4))) /\
      y_scale opts = Some (for_ (scale a) (Fin (1 # 4)))
  | _ => True
  end.
Proof.
  intros HP Hs Hin.
  assert (Hup : use_physical w a = false).
  { unfold use_physical. rewrite HP. now destruct (resize a). }
  assert (Hq : exists q', for_ (scale a) (Fin (1 # 4)) = Fin q').
  { rewrite Hs. unfold for_. destruct (truthy (Fin q)); eexists; reflexivity. }
  destruct Hq as (q' & Hq').
  destruct (list_images_sorted w) as [[|n rest]|ex] eqn:Ei;
    [rewrite main_eq, Ei in Hin; destruct Hin as [<- | []]; exact I
    | | rewrite main_eq, Ei in Hin; destruct Hin].
  rewrite (@main_nonempty_eq w a (n :: rest) Ei) in Hin by discriminate.
  rewrite Hup, Hq', (@preprocess_no_pillow w q' (n :: rest) HP) in Hin.
  cbv zeta in Hin.
  set (processed := map (fun n => (Src n, 0, 0)) (n :: rest)) in *.
  assert (Hcol : c_col_pixels (run_context w a processed) = 2 * pad_x a).
  { unfold run_context. cbn [c_col_pixels]. unfold processed.
    now rewrite max_default0_zeros. }
  rewrite Hcol in Hin.
  assert (Hside : forall l,
             In e (setup_events w a ++ l ++ cleanup_events w a)%list ->
             In e l \/ e = Makedirs \/
             e = Print_stderr
                   "Pillow not available, falling back to scale-only mode.").
  { intros l. rewrite !in_app_iff.
    destruct (setup_events_cases w a)
      as [(Hu & _) | (_ & -> & [-> | ->])]; [congruence | |];
      cbn; intuition. }
  assert (Hrows : In e (fst (write_rows (run_context w a processed) 0 1
                                        (n :: rest))) ->
                  match e with
                  | Set_column cols width =>
                      cols = "A:A" -> pixels_to_col_width (2 * pad_x a) = Ok width
                  | Set_row _ height _ =>
                      pixels_to_row_points (2 * pad_y a) = Ok height
                  | Insert_image _ _ p opts =>
                      (exists name, p = Src name) /\
                      x_scale opts = Some (for_ (scale a) (Fin (1 # 4))) /\
                      y_scale opts = Some (for_ (scale a) (Fin (1 # 4)))
                  | _ => True
                  end).
  { intros H.
    destruct (write_rows_events _ _ _ _ _ H) as (k & name & Hk & Hin').
    rewrite write_row_eq in Hin'.
    assert (Hd : display_size (run_context w a processed) (0 + k)
                 = Ok (Src name, 0, 0)).
    { unfold display_size, getitem, run_context.
      cbn [c_processed c_physical c_world c_scale]. unfold processed.
      rewrite (map_nth_error _ _ _ Hk). cbn [rbind]. rewrite Hup.
      unfold get_image_size. rewrite HP. reflexivity. }
    rewrite Hd in Hin'.
    destruct (timecode _ _) as [tc | ?]; [|destruct Hin'].
    change (0 + 2 * c_pad_y (run_context w a processed)) with (2 * pad_y a)
      in Hin'.
    destruct (pixels_to_row_points _) as [height | ?] eqn:Eh; [|destruct Hin'].
    unfold make_opts, image_event in Hin'.
    change (c_physical (run_context w a processed)) with (use_physical w a)
      in Hin'.
    change (c_scale (run_context w a processed))
      with (for_ (scale a) (Fin (1 # 4))) in Hin'.
    rewrite Hup in Hin'.
    destruct (c_center _).
    - destruct (center_offset _ _) as [xo|?]; cbn [rbind fst In] in Hin';
        [|destruct Hin' as [<- | []]; reflexivity].
      destruct (center_offset _ _) as [yo|?]; cbn [rbind fst In] in Hin';
        [|destruct Hin' as [<- | []]; reflexivity].
      destruct (insert_raises _ _);
        destruct Hin' as [<- | [<- | [<- | []]]]; try exact I;
        try reflexivity.
      split; [now exists name | now split].
    - cbn [rbind fst In] in Hin'.
      destruct (insert_raises _ _);
        destruct Hin' as [<- | [<- | [<- | []]]]; try exact I;
        try reflexivity.
      split; [now exists name | now split]. }
  destruct (pixels_to_col_width (2 * pad_x a)) as [width|ex] eqn:Ew.
  - destruct (write_rows _ 0 1 (n :: rest)) as [rows [[]|ex]];
      cbn [fst] in Hin, Hrows.
    + rewrite !app_assoc in Hin. rewrite <- !app_assoc in Hin.
      replace (setup_events w a ++ workbook_events ++ header_events width
                 ++ rows ++ [Close; Print_ok] ++ cleanup_events w a)%list
        with (setup_events w a
                ++ (workbook_events ++ header_events width ++ rows
                      ++ [Close; Print_ok]) ++ cleanup_events w a)%list in Hin
        by (now rewrite <- !app_assoc).
      apply Hside in Hin. rewrite !in_app_iff in Hin.
      destruct Hin as [[H | [H | [H | H]]] | [-> | ->]]; try exact I.
      * cbn in H. intuition (subst; exact I).
      * cbn in H. destruct H as [<- | [<- | [<- | [<- | [<- | []]]]]];
          try exact I; [tauto | discriminate].
      * now apply Hrows.
      * cbn in H. intuition (subst; exact I).
    + replace (setup_events w a ++ workbook_events ++ header_events width
                 ++ rows ++ cleanup_events w a)%list
        with (setup_events w a
                ++ (workbook_events ++ header_events width ++ rows)
                ++ cleanup_events w a)%list in Hin
        by (now rewrite <- !app_assoc).
      apply Hside in Hin. rewrite !in_app_iff in Hin.
      destruct Hin as [[H | [H | H]] | [-> | ->]]; try exact I.
      * cbn in H. intuition (subst; exact I).
      * cbn in H. destruct H as [<- | [<- | [<- | [<- | [<- | []]]]]];
          try exact I; [tauto | discriminate].
      * now apply Hrows.
  - cbn [fst] in Hin. apply Hside in Hin.
    destruct Hin as [H | [-> | ->]]; try exact I.
    cbn in H. intuition (subst; exact I).
Qed.

End WithoutPillow.

(** ** Geometry of the rows *)

Section RowGeometry.

Open Scope Z_scope.

(** Every event of a row below the header is written by the row loop, for
    an image of the listing. *)
Lemma main_row_event w a e :
  In e (fst (main w a)) -> is_row_event e = true ->
  exists imgs processed k name,
    list_images_sorted w = Ok imgs /\
    preprocess w (use_physical w a) (for_ (scale a) (Fin (1 # 4))) imgs
    = Ok processed /\
    nth_error imgs k = Some name /\
    In e (fst (write_row (run_context w a processed) k (1 + Z.of_nat k) name)).
Proof.
  intros Hin He.
  destruct (list_images_sorted w) as [[|n rest]|ex] eqn:Ei;
    [rewrite main_eq, Ei in Hin; destruct Hin as [<- | []]; discriminate He
    | | rewrite main_eq, Ei in Hin; destruct Hin].
  rewrite (@main_nonempty_eq w a (n :: rest) Ei) in Hin by discriminate.
  assert (Hside : forall l,
             In e (setup_events w a ++ l)%list -> In e l).
  { intros l. rewrite in_app_iff. intros [H | H]; [|exact H].
    destruct (setup_events_cases w a)
      as [(_ & E & _) | (_ & _ & [E | E])]; rewrite E in H; cbn in H;
      intuition (subst; discriminate). }
  assert (Hclean : ~ In e (cleanup_events w a)).
  { destruct (setup_events_cases w a) as [(_ & _ & ->) | (_ & -> & _)];
      cbn; intuition (subst; discriminate). }
  destruct (preprocess _ _ _ _) as [processed|ex] eqn:Ep.
  - assert (Hrows : In e (fst (write_rows (run_context w a processed) 0 1
                                          (n :: rest))) ->
                    exists imgs processed k name,
                      Ok (n :: rest) = Ok imgs /\
                      preprocess w (use_physical w a)
                                 (for_ (scale a) (Fin (1 # 4))) imgs
                      = Ok processed /\
                      nth_error imgs k = Some name /\
                      In e (fst (write_row (run_context w a processed) k
                                           (1 + Z.of_nat k) name))).
    { intros H.
      destruct (write_rows_events _ _ _ _ _ H) as (k & name & Hk & Hin').
      exists (n :: rest), processed, k, name. now repeat split. }
    cbv zeta in Hin.
    destruct (pixels_to_col_width _) as [width|ex].
    + destruct (write_rows _ 0 1 (n :: rest)) as [rows [[]|ex]];
        cbn [fst] in Hin, Hrows; apply Hside in Hin;
        rewrite !in_app_iff in Hin;
        destruct Hin as [H | [H | [H | H]]];
        try (now apply Hrows); try contradiction;
        try (destruct H as [H | H]; [|contradiction]);
        cbn in H; intuition (subst; discriminate).
    + cbn [fst] in Hin. apply Hside in Hin. rewrite in_app_iff in Hin.
      destruct Hin as [H | H]; [cbn in H; intuition (subst; discriminate)|].
      contradiction.
  - cbn [fst] in Hin. apply Hside in Hin. contradiction.
Qed.

(** X7: with centering, the vertical offset of every inserted image is
    the vertical padding, or 0 when the padding is negative, whatever the
    sizes: a row is as high as its image plus the padding on both
    sides. *)
Theorem vertical_offset_is_padding (w : world) (a : args)
  (row col : Z) (p : path) (opts : insert_opts) :
  do_center a = true ->
  - 2 ^ 52 < pad_y a < 2 ^ 52 ->
  In (Insert_image row col p opts) (fst (main w a)) ->
  y_offset opts = Some (Z.max 0 (pad_y a)).
Proof.
  intros Hc Hpad Hin.
  destruct (main_row_event _ _ _ Hin eq_refl)
    as (imgs & processed & k & name & _ & _ & _ & Hrow).
  rewrite write_row_eq in Hrow. unfold image_event in Hrow.
  destruct (display_size _ _) as [[[p0 iw] ih] | ?]; [|destruct Hrow].
  destruct (timecode _ _) as [tc | ?]; [|destruct Hrow].
  destruct (pixels_to_row_points _) as [height | ?]; [|destruct Hrow].
  destruct (make_opts _ _ _ _) as [o | ?] eqn:Eo; cbn [fst In] in Hrow;
    [|destruct Hrow as [H | []]; discriminate H].
  assert (o = opts).
  { destruct (insert_raises _ _);
      destruct Hrow as [H | [H | [H | []]]]; try discriminate H.
    now injection H. }
  subst o. unfold make_opts in Eo.
  change (c_center (run_context w a processed)) with (do_center a) in Eo.
  change (c_pad_y (run_context w a processed)) with (pad_y a) in Eo.
  rewrite Hc in Eo.
  destruct (center_offset (c_col_pixels _) iw) as [xo|?]; [|discriminate Eo].
  cbn [rbind] in Eo.
  assert (Hb : - 2 ^ 53 < ih + 2 * pad_y a - ih < 2 ^ 53).
  { change (2 ^ 53) with 9007199254740992.
    change (2 ^ 52) with 4503599627370496 in Hpad. lia. }
  rewrite (center_offset_exact _ _ Hb) in Eo. cbn [rbind] in Eo.
  replace (ih + 2 * pad_y a - ih) with (pad_y a * 2) in Eo by lia.
  rewrite Z.div_mul in Eo by lia.
  destruct (c_physical _); injection Eo as <-; reflexivity.
Qed.

(** X8: with centering and a horizontal padding that is not negative,
    the image of every record fits the column: its horizontal offset is
    at least the padding, and what is left of the column on its right
    differs from the offset by at most one pixel. *)
Theorem image_fits_column (w : world) (a : args) (processed : list record)
  (r : record) (h row_pixels : Z) (opts : insert_opts) :
  In r processed ->
  do_center a = true ->
  0 <= pad_x a ->
  c_col_pixels (run_context w a processed) - rec_w r < 2 ^ 53 ->
  make_opts (run_context w a processed) (rec_w r) h row_pixels = Ok opts ->
  exists xo,
    x_offset opts = Some xo /\
    pad_x a <= xo /\
    2 * xo + rec_w r <= c_col_pixels (run_context w a processed)
                     <= 2 * xo + rec_w r + 1.
Proof.
  intros Hr Hc Hpad Hb Ho.
  assert (Hmax : rec_w r <= max_default0 (map rec_w processed)).
  { apply max_default0_spec.
    - destruct processed; [destruct Hr | discriminate].
    - apply in_map. exact Hr. }
  unfold make_opts in Ho.
  change (c_center (run_context w a processed)) with (do_center a) in Ho.
  rewrite Hc in Ho.
  cbn [run_context c_col_pixels] in *.
  assert (Hd : - 2 ^ 53 < max_default0 (map rec_w processed) + 2 * pad_x a
                          - rec_w r < 2 ^ 53).
  { change (2 ^ 53) with 9007199254740992 in *. lia. }
  rewrite (center_offset_exact _ _ Hd) in Ho. cbn [rbind] in Ho.
  destruct (center_offset row_pixels h) as [yo|?]; [|discriminate Ho].
  cbn [rbind] in Ho.
  exists (Z.max 0 ((max_default0 (map rec_w processed) + 2 * pad_x a
                    - rec_w r) / 2)).
  split; [destruct (c_physical _); injection Ho as <-; reflexivity|].
  pose proof (Z.div_mod (max_default0 (map rec_w processed) + 2 * pad_x a
                         - rec_w r) 2 ltac:(lia)) as Hdm.
  pose proof (Z.mod_pos_bound (max_default0 (map rec_w processed)
                               + 2 * pad_x a - rec_w r) 2 ltac:(lia)) as Hm.
  lia.
Qed.

Lemma timecode_cells_app t1 t2 :
  timecode_cells (t1 ++ t2) = (timecode_cells t1 ++ timecode_cells t2)%list.
Proof. apply flat_map_app. Qed.

Lemma timecode_cells_rows c imgs :
  forall i row,
    0 < row ->
    (forall k name, nth_error imgs k = Some name ->
                    snd (write_row c (i + k) (row + Z.of_nat k) name) = Ok tt) ->
    map fst (timecode_cells (rows_trace c i row imgs))
    = map (fun k => row + Z.of_nat k) (seq 0 (List.length imgs)) /\
    Forall2 (fun name cell =>
               timecode (parse_frame_from_filename name) (c_fps c)
               = Ok (snd cell))
            imgs (timecode_cells (rows_trace c i row imgs)).
Proof.
  induction imgs as [|n rest IH]; intros i row Hrow Hall; cbn [rows_trace].
  - split; [reflexivity | constructor].
  - pose proof (Hall 0%nat n eq_refl) as H0.
    rewrite Nat.add_0_r, Z.add_0_r in H0.
    destruct (write_row_ok_inv _ _ _ _ H0)
      as (r & tc & height & opts & _ & Htc & _ & _ & Hev).
    rewrite timecode_cells_app, Hev.
    assert (Hcell : timecode_cells
                      [Set_row row height (row_format c);
                       image_event c row n (rec_path r) opts;
                       Write row 1 (CStr tc) (row_format c)]
                    = [(row, tc)]).
    { unfold timecode_cells, image_event. cbn [flat_map].
      destruct (insert_raises _ _); cbn [app];
        change (1 =? 1) with true;
        rewrite (proj2 (Z.ltb_lt 0 row) Hrow); reflexivity. }
    rewrite Hcell.
    destruct (IH (S i) (row + 1)) as [IH1 IH2]; [lia | |].
    { intros k name Hk. specialize (Hall (S k) name Hk).
      replace (i + S k)%nat with (S i + k)%nat in Hall by lia.
      replace (row + Z.of_nat (S k)) with (row + 1 + Z.of_nat k) in Hall by lia.
      exact Hall. }
    split.
    + cbn [app map fst List.length seq]. rewrite IH1, Z.add_0_r. f_equal.
      rewrite <- seq_shift, map_map. apply map_ext. intros k. lia.
    + cbn [app]. constructor; [exact Htc | exact IH2].
Qed.

(** X9: in a run that returns, column B below the header holds one
    cell per image, in rows 1, 2, ... without gap and in the order of the
    listing, each with the timecode of its image. *)
Theorem timecode_column_follows_listing (w : world) (a : args)
  (trace : list event) (imgs : list string) :
  main w a = (trace, Ok 0) ->
  list_images_sorted w = Ok imgs ->
  map fst (timecode_cells trace)
  = map (fun k => 1 + Z.of_nat k) (seq 0 (List.length imgs)) /\
  Forall2 (fun name cell =>
             timecode (parse_frame_from_filename name) (for_ (fps a) (Fin 0))
             = Ok (snd cell))
          imgs (timecode_cells trace).
Proof.
  intros Hmain Hi.
  destruct (@main_ok_inv _ _ _ _ Hmain)
    as (imgs' & processed & width & Hi' & _ & _ & _ & Hall & -> & _).
  assert (imgs' = imgs) by congruence. subst imgs'.
  rewrite !timecode_cells_app.
  assert (Hs : timecode_cells (setup_events w a) = []).
  { destruct (setup_events_cases w a)
      as [(_ & -> & _) | (_ & _ & [-> | ->])]; reflexivity. }
  assert (Hc : timecode_cells (cleanup_events w a) = []).
  { destruct (setup_events_cases w a) as [(_ & _ & ->) | (_ & -> & _)];
      reflexivity. }
  rewrite Hs, Hc.
  change (timecode_cells workbook_events) with (@nil (Z * string)).
  change (timecode_cells (header_events width)) with (@nil (Z * string)).
  change (timecode_cells [Close; Print_ok]) with (@nil (Z * string)).
  cbn [app]. rewrite app_nil_r.
  apply (@timecode_cells_rows (run_context w a processed) imgs 0%nat 1);
    [lia|].
  intros k name Hk. rewrite Nat.add_0_l. exact (Hall k name Hk).
Qed.

End RowGeometry.

(** ** Runs that complete, runs that cannot *)

Section Completion.

Open Scope Z_scope.

Lemma rows_trace_image_cells c imgs :
  forall i row,
    (forall k name, nth_error imgs k = Some name ->
                    snd (write_row c (i + k) (row + Z.of_nat k) name) = Ok tt) ->
    List.length (filter is_image_cell (rows_trace c i row imgs))
    = List.length imgs.
Proof.
  induction imgs as [|n rest IH]; intros i row Hall; cbn [rows_trace].
  - reflexivity.
  - rewrite filter_app, length_app, IH.
    + pose proof (Hall 0%nat n eq_refl) as H0.
      rewrite Nat.add_0_r, Z.add_0_r in H0.
      destruct (write_row_ok_inv _ _ _ _ H0)
        as (r & tc & height & opts & _ & _ & _ & _ & ->).
      unfold image_event. destruct (insert_raises _ _); reflexivity.
    + intros k name Hk. specialize (Hall (S k) name Hk).
      replace (i + S k)%nat with (S i + k)%nat in Hall by lia.
      replace (row + Z.of_nat (S k)) with (row + 1 + Z.of_nat k) in Hall by lia.
      exact Hall.
Qed.

(** When every library call returns, an ordinary run over at least one
    image returns 0 in either mode, with one row and one image cell per
    image. *)
Lemma main_ordinary_completes (w : world) (a : args) (imgs : list string) :
  ordinary w a ->
  list_images_sorted w = Ok imgs ->
  imgs <> [] ->
  snd (main w a) = Ok 0 /\
  List.length (filter is_set_row (fst (main w a))) = List.length imgs /\
  List.length (filter is_image_cell (fst (main w a))) = List.length imgs /\
  exists pre,
    fst (main w a) = (pre ++ [Close; Print_ok] ++ cleanup_events w a)%list.
Proof.
  intros Hord Hi Hne.
  destruct (@preprocess_all_ok w (use_physical w a)
              (for_ (scale a) (Fin (1 # 4))) imgs) as (processed & Hp).
  { intros name _.
    destruct (@preprocess_one_ordinary w a Hord (use_physical w a) name)
      as (r & Hr & _).
    now exists r. }
  destruct (@main_completes w a Hord imgs processed Hp Hi Hne)
    as (width & _ & ->).
  cbn [fst snd]. split; [reflexivity|].
  assert (Hrows : forall k name,
             nth_error imgs k = Some name ->
             snd (write_row (run_context w a processed) (0 + k)
                            (1 + Z.of_nat k) name) = Ok tt).
  { intros k name Hk. rewrite Nat.add_0_l.
    destruct (@write_row_ordinary w a Hord imgs processed Hp k
                                  (1 + Z.of_nat k) name Hk)
      as (r & tc & height & opts & _ & _ & _ & _ & _ & ->).
    reflexivity. }
  split; [|split].
  - destruct (run_trace_filters w a width
                (rows_trace (run_context w a processed) 0 1 imgs)) as [_ ->].
    now apply rows_trace_set_rows.
  - rewrite !filter_app.
    assert (Hs : filter is_image_cell (setup_events w a) = []).
    { destruct (setup_events_cases w a)
        as [(_ & -> & _) | (_ & _ & [-> | ->])]; reflexivity. }
    assert (Hc : filter is_image_cell (cleanup_events w a) = []).
    { destruct (setup_events_cases w a) as [(_ & _ & ->) | (_ & -> & _)];
        reflexivity. }
    rewrite Hs, Hc. cbn [workbook_events header_events filter is_image_cell app].
    rewrite app_nil_r.
    now apply rows_trace_image_cells.
  - eexists. rewrite !app_assoc. reflexivity.
Qed.

Lemma rnd_not_nan q : rnd q <> NaN.
Proof.
  unfold rnd. destruct (Qeq_bool q 0); [discriminate|].
  destruct (Qle_bool _ _); discriminate.
Qed.

Lemma scaled_non_finite n s :
  (forall q, s <> Fin q) -> exists e, scaled n s = Raise e /\ arith_error e.
Proof.
  intros Hs. unfold scaled, float_of_int, arith_error.
  destruct (rnd (inject_Z n)) as [x | b |] eqn:E; cbn [rbind].
  - destruct s as [q | b |]; [now destruct (Hs q) | |]; cbn [fmul py_round].
    + destruct (is_zero x); eexists; split; try reflexivity; tauto.
    + eexists; split; try reflexivity; tauto.
  - eexists; split; try reflexivity; tauto.
  - now destruct (rnd_not_nan _ E).
Qed.

(** X11: when the images are not resized physically, a scale that is
    NaN or infinite ends the run on the first image with OverflowError or
    ValueError: the output directory is made, and no workbook is
    created. *)
Theorem non_finite_scale_is_fatal (w : world) (a : args)
  (n : string) (rest : list string) :
  use_physical w a = false ->
  list_images_sorted w = Ok (n :: rest) ->
  (forall q, scale a <> Fin q) ->
  exists e, main w a = (setup_events w a, Raise e) /\ arith_error e.
Proof.
  intros Hup Hi Hs.
  assert (Hfor : for_ (scale a) (Fin (1 # 4)) = scale a).
  { unfold for_. destruct (scale a) as [q | b |]; [now destruct (Hs q) | |];
      reflexivity. }
  rewrite (@main_nonempty_eq w a (n :: rest) Hi) by discriminate.
  rewrite Hup, Hfor, preprocess_cons. unfold preprocess_one.
  destruct (get_image_size w (Src n)) as [iw ih].
  destruct (scaled_non_finite (or0 iw) Hs) as (e & -> & He).
  cbn [rbind]. exists e. split; [|exact He].
  unfold cleanup_events. rewrite Hup, app_nil_r. reflexivity.
Qed.

Lemma non_finite_scale_is_fatal_witness :
  use_physical sample_world nan_scale_args = false /\
  list_images_sorted sample_world = Ok sample_images /\
  (forall q, scale nan_scale_args <> Fin q) /\
  exists e, main sample_world nan_scale_args
            = (setup_events sample_world nan_scale_args, Raise e) /\
            arith_error e.
Proof.
  split; [reflexivity|]. split; [vm_compute; reflexivity|].
  split; [discriminate|].
  apply (@non_finite_scale_is_fatal sample_world nan_scale_args
           "F00000025.JPG" ["f00000050.png"; "zz.jpeg"]).
  - reflexivity.
  - vm_compute. reflexivity.
  - discriminate.
Defined.

End Completion.

(** ** Directory listing *)

Section Listing.

Lemma ascii_compare_cases (a b : ascii) :
  CompareSpec (a = b) (N_of_ascii a < N_of_ascii b)%N
              (N_of_ascii b < N_of_ascii a)%N (Ascii.compare a b).
Proof.
  unfold Ascii.compare.
  destruct (N.compare_spec (N_of_ascii a) (N_of_ascii b)) as [H | H | H];
    constructor; try exact H.
  apply (f_equal ascii_of_N) in H. now rewrite !ascii_N_embedding in H.
Qed.

Lemma str_le_trans a : forall b c, str_le a b -> str_le b c -> str_le a c.
Proof.
  unfold str_le, String.leb.
  induction a as [|x a IH]; intros [|y b] [|z c]; cbn [String.compare];
    try (intros; reflexivity); try discriminate.
  destruct (ascii_compare_cases x y) as [Exy | Hxy | Hxy];
    destruct (ascii_compare_cases y z) as [Eyz | Hyz | Hyz];
    try discriminate; intros H1 H2; try reflexivity;
    match goal with
    | |- context [Ascii.compare ?u ?v] =>
        destruct (ascii_compare_cases u v) as [E | H | H]
    end; subst; try lia; try reflexivity.
  now apply IH with b.
Qed.

Lemma str_le_antisym a b : str_le a b -> str_le b a -> a = b.
Proof. apply String.leb_antisym. Qed.

Lemma sorted_filter (f : string -> bool) l :
  StronglySorted str_le l -> StronglySorted str_le (filter f l).
Proof.
  induction 1 as [|x l Hs IH Hall]; cbn [filter]; [constructor|].
  destruct (f x); [|exact IH].
  constructor; [exact IH|].
  apply Forall_forall. intros y Hy. apply filter_In in Hy.
  rewrite Forall_forall in Hall. now apply Hall.
Qed.

Lemma sort_sorted names : StronglySorted str_le (StringSort.sort names).
Proof.
  apply StringSort.StronglySorted_sort.
  intros a b c. apply str_le_trans.
Qed.

(** Two sorted lists with the same elements are the same list. *)
Lemma sorted_unique l1 :
  forall l2, StronglySorted str_le l1 -> StronglySorted str_le l2 ->
             Permutation l1 l2 -> l1 = l2.
Proof.
  induction l1 as [|x t1 IH]; intros l2 H1 H2 HP.
  - apply Permutation_nil in HP. now subst.
  - destruct l2 as [|y t2];
      [apply Permutation_sym, Permutation_nil in HP; discriminate|].
    apply StronglySorted_inv in H1. destruct H1 as [Hs1 Hall1].
    apply StronglySorted_inv in H2. destruct H2 as [Hs2 Hall2].
    rewrite Forall_forall in Hall1, Hall2.
    assert (x = y).
    { assert (Hy : In y (x :: t1))
        by (eapply Permutation_in; [symmetry; exact HP | now left]).
      assert (Hx : In x (y :: t2))
        by (eapply Permutation_in; [exact HP | now left]).
      destruct Hy as [-> | Hy]; [reflexivity|].
      destruct Hx as [-> | Hx]; [reflexivity|].
      apply str_le_antisym; [now apply Hall1 | now apply Hall2]. }
    subst y. f_equal. apply IH; try assumption.
    eapply Permutation_cons_inv. exact HP.
Qed.

Lemma filter_permutation (f : string -> bool) l1 l2 :
  Permutation l1 l2 -> Permutation (filter f l1) (filter f l2).
Proof.
  induction 1 as [| x l1 l2 _ IH | x y l | l1 l2 l3 _ IH1 _ IH2];
    cbn [filter].
  - constructor.
  - destruct (f x); [now constructor | exact IH].
  - destruct (f x), (f y); try apply Permutation_refl. apply perm_swap.
  - now apply Permutation_trans with (filter f l2).
Qed.

(** X12: the listing holds the names of the directory that end in an
    image extension, in any case, each as often as the directory lists
    it, in ascending order of code points. *)
Theorem listing_is_sorted_selection (w : world) (names : list string) :
  listdir w = Ok names ->
  exists imgs,
    list_images_sorted w = Ok imgs /\
    StronglySorted str_le imgs /\
    Permutation imgs (filter has_image_suffix names) /\
    (forall name, In name imgs <-> In name names /\ qualifying name).
Proof.
  intros Hl. unfold list_images_sorted. rewrite Hl.
  eexists. split; [reflexivity|]. split; [|split].
  - apply sorted_filter, sort_sorted.
  - apply filter_permutation. symmetry. apply StringSort.Permuted_sort.
  - intros name. rewrite filter_In, <- qualifying_iff.
    assert (HP : Permutation names (StringSort.sort names))
      by apply StringSort.Permuted_sort.
    split; intros [H1 H2]; (split; [|exact H2]).
    + eapply Permutation_in; [symmetry; exact HP | exact H1].
    + eapply Permutation_in; [exact HP | exact H1].
Qed.

Lemma preprocess_listing w names up s imgs :
  preprocess (with_listing w names) up s imgs = preprocess w up s imgs.
Proof.
  induction imgs as [|n rest IH]; [reflexivity|].
  rewrite !preprocess_cons, IH. reflexivity.
Qed.

Lemma write_rows_listing w names a processed imgs :
  forall i row,
    write_rows (run_context (with_listing w names) a processed) i row imgs
    = write_rows (run_context w a processed) i row imgs.
Proof.
  induction imgs as [|n rest IH]; intros i row; [reflexivity|].
  rewrite !write_rows_cons, IH. reflexivity.
Qed.

(** X13: the order in which the directory lists its entries changes
    neither the listing nor the run. *)
Theorem listing_ignores_directory_order (w : world) (names names' : list string)
  (a : args) :
  listdir w = Ok names ->
  Permutation names names' ->
  list_images_sorted (with_listing w names') = list_images_sorted w /\
  main (with_listing w names') a = main w a.
Proof.
  intros Hl HP.
  assert (Hsort : StringSort.sort names' = StringSort.sort names).
  { apply sorted_unique; try apply sort_sorted.
    apply Permutation_trans with names';
      [symmetry; apply StringSort.Permuted_sort|].
    apply Permutation_trans with names; [now symmetry|].
    apply StringSort.Permuted_sort. }
  assert (Hlist : list_images_sorted (with_listing w names')
                  = list_images_sorted w).
  { unfold list_images_sorted. rewrite Hl. cbn [with_listing listdir].
    now rewrite Hsort. }
  split; [exact Hlist|].
  rewrite !main_eq, Hlist.
  destruct (list_images_sorted w) as [[|n rest]|e]; try reflexivity.
  change (use_physical (with_listing w names') a) with (use_physical w a).
  rewrite preprocess_listing.
  destruct (preprocess w _ _ _) as [processed|e]; [|reflexivity].
  cbv zeta. rewrite write_rows_listing. reflexivity.
Qed.

End Listing.

(** ** Frame names *)

Section FrameNames.

Lemma parse_frame_at_first_window name i :
  window8 name i = true ->
  (forall j, (j < i)%nat -> window8 name j = false) ->
  parse_frame_from_filename name = Some (digits_to_Z (substring i 8 name)) /\
  search_only name = Some (digits_to_Z (substring i 8 name)).
Proof.
  intros Hw Hmin.
  assert (Hsearch : search_only name = Some (digits_to_Z (substring i 8 name))).
  { unfold search_only, re_search.
    destruct (search_first_window name 0 Hw Hmin) as (m & -> & ->).
    now apply int_or_none_window. }
  split; [|exact Hsearch].
  unfold parse_frame_from_filename.
  destruct (re_match true strict_re name) as [m|] eqn:Em; [|exact Hsearch].
  destruct (strict_match_inv _ Em) as (c & t & -> & Hc & Hw1 & Hg).
  assert (Hw0 : window8 (String c t) 0 = false).
  { destruct (window8 (String c t) 0) eqn:E; [|reflexivity].
    apply window8_head_digit in E. rewrite (lit_f_not_digit _ Hc) in E.
    discriminate. }
  assert (Hi : i = 1%nat).
  { destruct i as [|[|i]]; [congruence | reflexivity |].
    pose proof (Hmin 1%nat ltac:(lia)) as Hw1'.
    rewrite window8_tail in Hw1'. congruence. }
  subst i. rewrite Hg. apply (int_or_none_window (String c t) 1 Hw).
Qed.

Lemma parse_frame_without_window name :
  (forall i, window8 name i = false) ->
  parse_frame_from_filename name = None /\ search_only name = None.
Proof.
  intros Hno.
  assert (Hsearch : search_only name = None).
  { unfold search_only, re_search. now rewrite search_no_window. }
  split; [|exact Hsearch].
  unfold parse_frame_from_filename.
  destruct (re_match true strict_re name) as [m|] eqn:Em; [|exact Hsearch].
  destruct (strict_match_inv _ Em) as (c & t & -> & Hc & Hw1 & Hg).
  rewrite <- (window8_tail c t 0), Hno in Hw1. discriminate.
Qed.

(** A name has a leftmost window of eight digits, or none. *)
Lemma first_window_cases name :
  (forall i, window8 name i = false) \/
  exists i, window8 name i = true /\
            forall j, (j < i)%nat -> window8 name j = false.
Proof.
  induction name as [|c t IH].
  - left. apply window8_empty.
  - destruct (window8 (String c t) 0) eqn:E0.
    + right. exists 0%nat. split; [exact E0 | intros j Hj; lia].
    + destruct IH as [Hno | (i & Hw & Hmin)].
      * left. intros [|i]; [exact E0 | rewrite window8_tail; apply Hno].
      * right. exists (S i). split; [exact Hw|].
        intros [|j] Hj; [exact E0|]. rewrite window8_tail. apply Hmin. lia.
Qed.

(** X14: the strict pattern never decides the result: the parser
    returns what its fallback search returns when it is run alone. *)
Theorem strict_pattern_is_redundant (name : string) :
  parse_frame_from_filename name = search_only name.
Proof.
  destruct (first_window_cases name) as [Hno | (i & Hw & Hmin)].
  - destruct (@parse_frame_without_window _ Hno) as [-> ->]. reflexivity.
  - destruct (@parse_frame_at_first_window _ _ Hw Hmin) as [-> ->].
    reflexivity.
Qed.

Lemma decimal_acc_length fuel :
  forall n acc k,
    (0 <= n < 10 ^ Z.of_nat (S k))%Z ->
    (String.length (decimal_acc fuel n acc) <= S k + String.length acc)%nat.
Proof.
  induction fuel as [|f IH]; intros n acc k Hn; [cbn; lia|].
  rewrite decimal_acc_S.
  destruct (n <? 10)%Z eqn:E; [cbn [String.length]; lia|].
  apply Z.ltb_ge in E.
  destruct k as [|k]; [change (10 ^ Z.of_nat 1)%Z with 10%Z in Hn; lia|].
  specialize (IH (n / 10)%Z (String (digit_char (n mod 10)) acc) k).
  cbn [String.length] in IH.
  assert (Hq : (0 <= n / 10 < 10 ^ Z.of_nat (S k))%Z).
  { split; [apply Z.div_pos; lia|].
    apply Z.div_lt_upper_bound; [lia|].
    rewrite <- Z.pow_succ_r by lia. rewrite <- Nat2Z.inj_succ. tauto. }
  specialize (IH Hq). lia.
Qed.

Lemma zeros_spec k :
  all_digits (zeros k) = true /\ String.length (zeros k) = k /\
  digits_to_Z_acc 0 (zeros k) = 0%Z.
Proof.
  induction k as [|k (IH1 & IH2 & IH3)]; [now repeat split|].
  cbn [zeros all_digits String.length digits_to_Z_acc].
  rewrite IH1, IH2. repeat split. exact IH3.
Qed.

Lemma eight_digits_spec n :
  (0 <= n < 10 ^ 8)%Z ->
  String.length (eight_digits n) = 8%nat /\
  all_digits (eight_digits n) = true /\
  digits_to_Z (eight_digits n) = n.
Proof.
  intros Hn. unfold eight_digits.
  destruct (@decimal_spec n ltac:(lia)) as (Hd & Hv & Hl).
  assert (Hlen : (String.length (decimal n) <= 8)%nat).
  { unfold decimal.
    pose proof (@decimal_acc_length (S (Z.to_nat (Z.log2 n))) n EmptyString 7
                  Hn) as H.
    cbn [String.length] in H. lia. }
  destruct (zeros_spec (8 - String.length (decimal n))) as (Z1 & Z2 & Z3).
  rewrite string_length_app, all_digits_app, Z1, Z2, Hd.
  unfold digits_to_Z. rewrite digits_to_Z_acc_app, Z3.
  repeat split; [lia | exact Hv].
Qed.

(** X15: a frame index read from a name lies in 0..99999999, and every
    such index is read back from the name made of the letter f, its
    eight digits and any extension. *)
Theorem frame_name_round_trip :
  (forall name n,
      parse_frame_from_filename name = Some n -> (0 <= n < 10 ^ 8)%Z) /\
  (forall n ext,
      (0 <= n < 10 ^ 8)%Z ->
      parse_frame_from_filename (frame_name n ext) = Some n).
Proof.
  split; [exact parse_frame_bounds|].
  assert (Hsub : forall n ext,
             (0 <= n < 10 ^ 8)%Z ->
             substring 1 8 (frame_name n ext) = eight_digits n).
  { intros n ext Hn. destruct (eight_digits_spec Hn) as (Hlen & _).
    unfold frame_name. cbn [substring]. revert Hlen.
    generalize (eight_digits n). intros ds Hlen.
    do 9 (destruct ds as [|? ds]; try discriminate Hlen).
    cbn. destruct ext; reflexivity. }
  intros n ext Hn. destruct (eight_digits_spec Hn) as (Hlen & Hd & Hv).
  rewrite <- Hv at 2. rewrite <- (Hsub n ext Hn).
  apply parse_frame_at_first_window.
  - unfold window8. rewrite (Hsub n ext Hn), Hlen, Hd. reflexivity.
  - intros j Hj. assert (j = 0%nat) by lia. subst j.
    destruct (window8 (frame_name n ext) 0) eqn:E; [|reflexivity].
    apply window8_head_digit in E. discriminate E.
Qed.

Lemma lower_char_digit c :
  is_digit (lower_char c) = is_digit c /\
  (is_digit c = true -> lower_char c = c).
Proof.
  destruct c as [[] [] [] [] [] [] [] []]; vm_compute; split;
    first [reflexivity | intros H; first [reflexivity | discriminate H]].
Qed.

Lemma lower_substring s :
  forall i n, substring i n (lower s) = lower (substring i n s).
Proof.
  induction s as [|c t IH]; intros [|i] [|n]; cbn [lower substring];
    try reflexivity; try apply IH.
  now rewrite IH.
Qed.

Lemma lower_length s : String.length (lower s) = String.length s.
Proof. induction s as [|c t IH]; cbn; [reflexivity | now rewrite IH]. Qed.

Lemma lower_digits s :
  all_digits (lower s) = all_digits s /\
  (all_digits s = true -> lower s = s).
Proof.
  induction s as [|c t (IH1 & IH2)]; [now split|].
  cbn [lower all_digits]. destruct (lower_char_digit c) as [H1 H2].
  rewrite H1, IH1. split; [reflexivity|].
  intros H. apply andb_prop in H. destruct H as [Hc Ht].
  now rewrite (H2 Hc), (IH2 Ht).
Qed.

Lemma window8_lower s i : window8 (lower s) i = window8 s i.
Proof.
  unfold window8. rewrite lower_substring, lower_length.
  now rewrite (proj1 (lower_digits _)).
Qed.

(** X16: lower-casing a name does not change the frame index read
    from it. *)
Theorem frame_index_ignores_case (name : string) :
  parse_frame_from_filename (lower name) = parse_frame_from_filename name.
Proof.
  destruct (first_window_cases name) as [Hno | (i & Hw & Hmin)].
  - rewrite (proj1 (@parse_frame_without_window name Hno)).
    apply parse_frame_without_window.
    intros i. now rewrite window8_lower.
  - rewrite (proj1 (@parse_frame_at_first_window name i Hw Hmin)).
    assert (Hd : all_digits (substring i 8 name) = true).
    { unfold window8 in Hw. apply andb_prop in Hw. tauto. }
    rewrite <- (proj2 (lower_digits _) Hd), <- lower_substring.
    apply parse_frame_at_first_window.
    + now rewrite window8_lower.
    + intros j Hj. rewrite window8_lower. now apply Hmin.
Qed.

End FrameNames.

(** ** Outcomes of the timecode converter *)

Section TimecodeOutcomes.

Lemma Qfloor_unit q : (0 <= q < 1)%Q -> Qfloor q = 0%Z.
Proof.
  intros [H0 H1].
  pose proof (Qfloor_le q) as Hle. pose proof (Qlt_floor q) as Hlt.
  assert (A : (inject_Z (Qfloor q) < inject_Z 1)%Q).
  { apply Qle_lt_trans with q; [exact Hle | exact H1]. }
  assert (B : (inject_Z 0 < inject_Z (Qfloor q + 1))%Q).
  { apply Qle_lt_trans with q; [exact H0 | exact Hlt]. }
  rewrite <- Zlt_Qlt in A, B. lia.
Qed.

(** X17: [seconds_to_hhmmss_floor] returns for every finite number of
    seconds, with 00:00:00 below one second, and for minus infinity; it
    raises OverflowError at plus infinity and ValueError at NaN. *)
Theorem seconds_to_hhmmss_floor_outcomes (seconds : float) :
  match seconds with
  | Fin q =>
      (exists tc, seconds_to_hhmmss_floor seconds = Ok tc) /\
      ((q < 1)%Q -> seconds_to_hhmmss_floor seconds = Ok "00:00:00")
  | Inf true => seconds_to_hhmmss_floor seconds = Ok "00:00:00"
  | Inf false => seconds_to_hhmmss_floor seconds = Raise OverflowError
  | NaN => seconds_to_hhmmss_floor seconds = Raise ValueError
  end.
Proof.
  destruct seconds as [q | [] |]; try reflexivity.
  split; [apply seconds_to_hhmmss_floor_total|].
  intros Hq. unfold seconds_to_hhmmss_floor.
  destruct (negb (truthy (Fin q)) || flt (Fin q) (Fin 0)) eqn:E;
    [reflexivity|].
  apply orb_false_elim in E. destruct E as [_ E].
  unfold flt in E. apply negb_false_iff, Qle_bool_iff in E.
  cbn [math_floor rbind]. rewrite Qfloor_unit by (split; assumption).
  reflexivity.
Qed.

(** X18: for a frame index below 10^8 the timecode of a row can only
    fail with OverflowError, and only at a positive frame rate below
    2^-31; such a failure exists (frame 1 at the rate 2^-1074).  An
    infinite rate gives 00:00:00 when it is positive and the empty string
    when it is negative. *)
Theorem timecode_outcomes (frame : option Z) (fps : float) :
  (forall n, frame = Some n -> (0 <= n < 10 ^ 8)%Z) ->
  (forall e,
      timecode frame fps = Raise e ->
      e = OverflowError /\
      exists n q, frame = Some n /\ fps = Fin q /\
                  (0 < q < 1 # 2147483648)%Q) /\
  (fps = Inf false -> frame <> None -> timecode frame fps = Ok "00:00:00") /\
  (fps = Inf true -> timecode frame fps = Ok "") /\
  timecode (Some 1%Z) (Fin (1 # 2 ^ 1074)) = Raise OverflowError.
Proof.
  intros Hframe. split; [|split; [|split]]; [| | |vm_compute; reflexivity].
  - intros e He.
    destruct frame as [n|]; [|discriminate He].
    destruct fps as [q | b |].
    + assert (Hq : (0 < q < 1 # 2147483648)%Q).
      { destruct (Qlt_le_dec 0 q) as [H0 | H0];
          [destruct (Qlt_le_dec q (1 # 2147483648)) as [H1 | H1]|].
        - now split.
        - destruct (@timecode_total (Some n) (Fin q) Hframe) as (tc & Htc);
            [right; exact H1 | congruence].
        - destruct (@timecode_total (Some n) (Fin q) Hframe) as (tc & Htc);
            [left; exact H0 | congruence]. }
      split; [|exists n, q; now repeat split].
      unfold timecode in He.
      destruct (fgt (Fin q) (Fin 0)); [|discriminate He].
      destruct (float_of_int n) as [x|e'] eqn:Ex; cbn [rbind] in He;
        [|injection He as <-; exact (float_of_int_error _ Ex)].
      unfold fdiv in He.
      rewrite is_zero_false in He
        by (intros E; destruct Hq as [Hq _]; rewrite E in Hq; discriminate Hq).
      assert (Hsec : forall y, seconds_to_hhmmss_floor (rnd y) = Raise e ->
                               e = OverflowError).
      { intros y Hy. destruct (rnd y) as [r | [] |] eqn:Er.
        - destruct (seconds_to_hhmmss_floor_total r) as (tc & Htc). congruence.
        - discriminate Hy.
        - now injection Hy.
        - now destruct (rnd_not_nan _ Er). }
      destruct x as [xq | b |]; cbn [rbind] in He.
      * exact (Hsec _ He).
      * unfold float_of_int in Ex. destruct (rnd (inject_Z n)); discriminate Ex.
      * unfold float_of_int in Ex.
        destruct (rnd (inject_Z n)) eqn:Er; try discriminate Ex.
        now destruct (rnd_not_nan _ Er).
    + destruct (@timecode_total (Some n) (Inf b) Hframe) as (tc & Htc);
        [exact I | congruence].
    + discriminate He.
  - intros -> Hf. destruct frame as [n|]; [|congruence].
    unfold timecode. cbn [fgt flt negb].
    destruct (@float_of_int_bounded n (10 ^ 8)) as (x & -> & _);
      [specialize (Hframe n eq_refl); lia | lia |].
    reflexivity.
  - intros ->. unfold timecode. destruct frame; reflexivity.
Qed.

End TimecodeOutcomes.

(** ** Exact and nearly exact arithmetic *)

Section ExactArithmetic.

Open Scope Q_scope.

(** A value with at most 53 significant bits is a binary64 value. *)
Lemma rnd_exact q m k :
  q == inject_Z m * pow2 k ->
  (- 2 ^ 53 < m < 2 ^ 53)%Z -> (-1074 <= k <= 900)%Z ->
  exists r, rnd q = Fin r /\ r == q.
Proof.
  intros Hq Hm Hk.
  destruct (Z.eq_dec m 0) as [-> | Hmnz].
  - assert (Hz : q == 0) by (rewrite Hq; ring).
    exists 0. split; [now apply rnd_zero | now symmetry].
  - pose proof (pow2_pos k) as Hpk.
    assert (Hmb : - inject_Z (2 ^ 53) < inject_Z m < inject_Z (2 ^ 53)).
    { split; [rewrite <- inject_Z_opp|]; rewrite <- Zlt_Qlt; lia. }
    assert (Hm0 : ~ inject_Z m == 0).
    { intros E. change 0 with (inject_Z 0) in E.
      apply (proj1 (inject_Z_injective m 0)) in E. contradiction. }
    assert (Hqnz : ~ q == 0).
    { intros E. rewrite Hq in E. apply Qmult_integral in E.
      destruct E as [E | E]; [contradiction | lra]. }
    assert (Habs : Qabs q < pow2 (53 + k)).
    { rewrite Hq, Qabs_Qmult, (Qabs_pos (pow2 k)) by lra.
      rewrite pow2_plus, (@pow2_inject 53) by lia.
      apply Qmult_lt_compat_r; [exact Hpk|].
      apply Qabs_case; intros; lra. }
    assert (Hb : Qabs q <= pow2 1000).
    { apply Qle_trans with (pow2 (53 + k)); [lra | apply pow2_le; lia]. }
    rewrite (rnd_form Hqnz Hb).
    set (u := ulp_exp q).
    assert (Hu : (u <= k)%Z).
    { unfold u, ulp_exp.
      pose proof (@ilog2_upper (Qabs q) (53 + k) (Qabs_pos_nonzero Hqnz) Habs).
      lia. }
    pose proof (pow2_pos u) as Hpu.
    assert (Hquo : q / pow2 u == inject_Z (m * 2 ^ (k - u))).
    { rewrite inject_Z_mult, <- (@pow2_inject (k - u)) by lia.
      replace (k - u)%Z with (k + - u)%Z by lia.
      rewrite pow2_plus, pow2_opp, Hq. field. lra. }
    rewrite (round_half_even_comp Hquo), round_half_even_inject.
    eexists. split; [reflexivity|].
    rewrite Qred_correct, inject_Z_mult, <- (@pow2_inject (k - u)) by lia.
    rewrite <- Qmult_assoc, <- pow2_plus.
    replace (k - u + u)%Z with k by lia. now symmetry.
Qed.

(** Conversion of an integer below [2^53] in magnitude is exact. *)
Lemma float_of_int_exact z :
  (- 2 ^ 53 < z < 2 ^ 53)%Z ->
  exists r, float_of_int z = Ok (Fin r) /\ r == inject_Z z.
Proof.
  intros Hz. unfold float_of_int.
  destruct (@rnd_exact (inject_Z z) z 0) as (r & -> & Hr);
    [change (pow2 0) with 1; ring | exact Hz | lia |].
  now exists r.
Qed.

(** Below [2^31] in magnitude, rounding moves a value by less than
    [2^-21]. *)
Lemma rnd_near q :
  - 2147483648 <= q <= 2147483648 ->
  exists r, rnd q = Fin r /\ q - (1 # 2097152) <= r <= q + (1 # 2097152).
Proof.
  intros Hq.
  assert (Habs : Qabs q <= 2147483648) by (apply Qabs_Qle_condition; exact Hq).
  assert (H31 : pow2 31 == 2147483648) by reflexivity.
  pose proof (@pow2_le 31 1000 ltac:(lia)) as H1000.
  destruct (Qeq_dec q 0) as [Hz | Hnz].
  - exists 0. split; [now apply rnd_zero | rewrite Hz; split; discriminate].
  - destruct (@rnd_finite q) as (r & Hr & Herr); [lra|].
    exists r. split; [exact Hr|].
    pose proof (@ulp_exp_le q Hnz) as Hu.
    assert (H52 : pow2 (-52) == 1 # 4503599627370496) by reflexivity.
    assert (H1074 : pow2 (-1074) <= 1 # 4503599627370496).
    { rewrite <- H52. apply pow2_le. lia. }
    pose proof (Qabs_nonneg q) as Hq0.
    rewrite H52 in Hu.
    apply Qabs_Qle_condition in Herr. lra.
Qed.

(** X19: below 2^51 in magnitude the row height is computed without
    rounding error: it is 1.0 up to 1 pixel and exactly three quarters
    of the pixels from 2 pixels on. *)
Theorem row_points_are_exact (pixels : Z) :
  (- 2 ^ 51 < pixels < 2 ^ 51)%Z ->
  exists r,
    pixels_to_row_points pixels = Ok (Fin r) /\
    ((pixels <= 1)%Z -> r = 1) /\
    ((2 <= pixels)%Z -> r == (3 # 4) * inject_Z pixels).
Proof.
  intros Hp. unfold pixels_to_row_points.
  change (fdiv (Fin 3) (Fin 4)) with (Ok (rnd (3 / 4))).
  assert (H34 : rnd (3 / 4) = Fin (3 # 4)) by (vm_compute; reflexivity).
  rewrite H34. cbn [rbind].
  destruct (@float_of_int_exact pixels) as (x & -> & Hx);
    [change (2 ^ 53)%Z with 9007199254740992%Z;
     change (2 ^ 51)%Z with 2251799813685248%Z in Hp; lia|].
  cbn [rbind fmul].
  destruct (@rnd_exact ((3 # 4) * x) (3 * pixels) (-2)) as (r & -> & Hr).
  { rewrite Hx, inject_Z_mult.
    assert (H2 : pow2 (-2) == 1 # 4) by reflexivity.
    rewrite H2. change (inject_Z 3) with 3. field. }
  { change (2 ^ 53)%Z with 9007199254740992%Z.
    change (2 ^ 51)%Z with 2251799813685248%Z in Hp. lia. }
  { lia. }
  rewrite Hx in Hr. unfold max2, fgt, flt.
  destruct (Qle_bool r 1) eqn:E; cbn [negb].
  - apply Qle_bool_iff in E. exists 1. split; [reflexivity|].
    split; [reflexivity|].
    intros H2. exfalso.
    assert (Hq : inject_Z 2 <= inject_Z pixels) by (rewrite <- Zle_Qle; lia).
    change (inject_Z 2) with 2 in Hq. lra.
  - apply Qle_bool_false in E. exists r. split; [reflexivity|].
    split; [|intros _; exact Hr].
    intros H1. exfalso.
    assert (Hq : inject_Z pixels <= inject_Z 1) by (rewrite <- Zle_Qle; lia).
    change (inject_Z 1) with 1 in Hq. lra.
Qed.

Lemma inject_Z_sub a b : inject_Z (a - b) == inject_Z a - inject_Z b.
Proof. unfold Z.sub. rewrite inject_Z_plus, inject_Z_opp. reflexivity. Qed.

(** The width of a column of [pixels] pixels: 1.0 up to 12 pixels, and
    [(pixels - 5) / 7] within one rounding above. *)
Lemma col_width_value pixels :
  (- 2 ^ 31 <= pixels <= 2 ^ 50)%Z ->
  exists r,
    pixels_to_col_width pixels = Ok (Fin r) /\
    ((pixels <= 12)%Z -> r = 1) /\
    ((13 <= pixels)%Z ->
     1 < r /\
     (inject_Z pixels - 5) / 7 - (inject_Z pixels - 5) / 7 * eps <= r
     <= (inject_Z pixels - 5) / 7 + (inject_Z pixels - 5) / 7 * eps).
Proof.
  intros Hp.
  change (2 ^ 31)%Z with 2147483648%Z in Hp.
  change (2 ^ 50)%Z with 1125899906842624%Z in Hp.
  assert (HpQ : inject_Z (-2147483648) <= inject_Z pixels
                <= inject_Z 1125899906842624)
    by (split; rewrite <- Zle_Qle; lia).
  change (inject_Z (-2147483648)) with (-2147483648) in HpQ.
  change (inject_Z 1125899906842624) with 1125899906842624 in HpQ.
  unfold pixels_to_col_width.
  destruct (@float_of_int_exact (pixels - 5)) as (x & -> & Hx);
    [change (2 ^ 53)%Z with 9007199254740992%Z; lia|].
  rewrite inject_Z_sub in Hx. change (inject_Z 5) with 5 in Hx.
  cbn [rbind]. unfold fdiv. rewrite is_zero_false by discriminate.
  assert (Hx7 : x / 7 * 7 == x) by field.
  assert (Hq : x / 7 == (inject_Z pixels - 5) / 7) by (now rewrite Hx).
  cbn [rbind]. unfold max2, fgt, flt.
  destruct (Z_le_gt_dec pixels 12) as [H12 | H13].
  - assert (Hr1 : exists r, rnd (x / 7) = Fin r /\ r <= 1).
    { destruct (Z.eq_dec pixels 12) as [-> | Hne].
      - destruct (@rnd_exact (x / 7) 1 0) as (r & Hr & Hrq).
        + rewrite Hq. reflexivity.
        + lia.
        + lia.
        + exists r. split; [exact Hr|]. rewrite Hrq, Hq. discriminate.
      - assert (H11 : inject_Z pixels <= inject_Z 11)
          by (rewrite <- Zle_Qle; lia).
        change (inject_Z 11) with 11 in H11.
        destruct (@rnd_near (x / 7)) as (r & Hr & Hrb); [split; lra|].
        exists r. split; [exact Hr | lra]. }
    destruct Hr1 as (r & -> & Hr).
    apply Qle_bool_iff in Hr. rewrite Hr. cbn [negb].
    exists 1. split; [reflexivity|]. split; [reflexivity | lia].
  - assert (H13Q : inject_Z 13 <= inject_Z pixels)
      by (rewrite <- Zle_Qle; lia).
    change (inject_Z 13) with 13 in H13Q.
    destruct (@rnd_rel (x / 7)) as (r & -> & Hrb); [lra | lra |].
    unfold eps in *.
    assert (Hgt : 1 < r) by lra.
    destruct (Qle_bool r 1) eqn:E;
      [apply Qle_bool_iff in E; lra|].
    cbn [negb]. exists r. split; [reflexivity|]. split; [lia|].
    intros _. split; [exact Hgt|]. rewrite <- Hq. exact Hrb.
Qed.

(** X20: for a pixel width from -2^31 to 2^50 the column width is at
    least 1.0; it is 1.0 exactly up to 12 pixels, and from 13 pixels on
    it is [(pixels - 5) / 7] up to a relative error of 2^-53. *)
Theorem col_width_never_below_one (pixels : Z) :
  (- 2 ^ 31 <= pixels <= 2 ^ 50)%Z ->
  exists r,
    pixels_to_col_width pixels = Ok (Fin r) /\
    1 <= r /\
    ((pixels <= 12)%Z <-> r == 1) /\
    ((13 <= pixels)%Z ->
     Qabs (r - (inject_Z pixels - 5) / 7) <= (inject_Z pixels - 5) / 7 * eps).
Proof.
  intros Hp. destruct (col_width_value Hp) as (r & Hr & H12 & H13).
  exists r. split; [exact Hr|].
  destruct (Z_le_gt_dec pixels 12) as [Hle | Hgt].
  - rewrite (H12 Hle). split; [discriminate|]. split; [|lia].
    split; [reflexivity | intros _; exact Hle].
  - destruct (H13 ltac:(lia)) as (Hr1 & Hrb).
    split; [lra|]. split.
    + split; [lia | intros E; rewrite E in Hr1; discriminate Hr1].
    + intros _. apply Qabs_Qle_condition. split; lra.
Qed.

(** X21: from -2^31 to 2^50, a pixel width converted to a column width
    and back is 12 up to 12 pixels, and from 12 pixels on the same
    number of pixels or one less; one less happens: 120 pixels come back
    as 119. *)
Theorem pixel_round_trip_loses_at_most_one (pixels : Z) :
  (- 2 ^ 31 <= pixels <= 2 ^ 50)%Z ->
  (exists p,
      pixel_round_trip pixels = Ok p /\
      ((pixels <= 12)%Z -> p = 12%Z) /\
      ((12 <= pixels)%Z -> (pixels - 1 <= p <= pixels)%Z)) /\
  pixel_round_trip 120 = Ok 119%Z.
Proof.
  intros Hp. split; [|vm_compute; reflexivity]. unfold pixel_round_trip.
  destruct (col_width_value Hp) as (r & -> & H12 & H13).
  cbn [rbind].
  destruct (Z_le_gt_dec pixels 12) as [Hle | Hgt].
  - rewrite (H12 Hle). exists 12%Z.
    split; [vm_compute; reflexivity|]. split; [reflexivity | lia].
  - destruct (H13 ltac:(lia)) as (Hr1 & Hrb). clear H12 H13.
    change (2 ^ 31)%Z with 2147483648%Z in Hp.
    change (2 ^ 50)%Z with 1125899906842624%Z in Hp.
    assert (HpQ : inject_Z 13 <= inject_Z pixels <= inject_Z 1125899906842624)
      by (split; rewrite <- Zle_Qle; lia).
    change (inject_Z 13) with 13 in HpQ.
    change (inject_Z 1125899906842624) with 1125899906842624 in HpQ.
    set (P := inject_Z pixels) in *.
    assert (Hq7 : (P - 5) / 7 * 7 == P - 5) by field.
    set (t := (P - 5) / 7) in *.
    unfold eps in *.
    unfold col_width_to_pixels. cbn [fmul].
    destruct (@rnd_rel (7 * r)) as (a & -> & Ha); [lra | lra |].
    cbn [fadd]. unfold eps in *.
    destruct (@rnd_rel (a + 5)) as (b & -> & Hb); [lra | lra |].
    cbn [py_int]. unfold eps in *. unfold Qtrunc.
    rewrite is_neg_false by lra.
    pose proof (Qfloor_le b) as Hf1. pose proof (Qlt_floor b) as Hf2.
    rewrite inject_Z_plus in Hf2. change (inject_Z 1) with 1 in Hf2.
    exists (Qfloor b). split; [reflexivity|]. split; [lia|].
    intros _.
    assert (A : inject_Z (pixels - 2) < inject_Z (Qfloor b)).
    { rewrite inject_Z_sub. change (inject_Z 2) with 2. fold P. lra. }
    assert (B : inject_Z (Qfloor b) < inject_Z (pixels + 1)).
    { rewrite inject_Z_plus. change (inject_Z 1) with 1. fold P. lra. }
    rewrite <- Zlt_Qlt in A, B. lia.
Qed.

(** A dimension scaled by a factor in (0, 1]: the nearest integer to the
    product, which never exceeds the dimension. *)
Lemma scaled_shrinks n s :
  (1 <= n <= 2 ^ 31)%Z -> 0 < s <= 1 ->
  exists v,
    scaled n (Fin s) = Ok v /\
    (0 <= v <= n)%Z /\
    inject_Z n * s - 1 < inject_Z v < inject_Z n * s + 1 /\
    (s == 1 -> v = n).
Proof.
  intros Hn Hs. unfold scaled.
  change (2 ^ 31)%Z with 2147483648%Z in Hn.
  destruct (@float_of_int_exact n) as (x & -> & Hx);
    [change (2 ^ 53)%Z with 9007199254740992%Z; lia|].
  cbn [rbind fmul].
  assert (HnQ : inject_Z 1 <= inject_Z n <= inject_Z 2147483648)
    by (split; rewrite <- Zle_Qle; lia).
  change (inject_Z 1) with 1 in HnQ.
  change (inject_Z 2147483648) with 2147483648 in HnQ.
  set (N := inject_Z n) in *.
  assert (Hprod : 0 < x * s <= N).
  { rewrite Hx. split.
    - apply Qmult_lt_0_compat; lra.
    - setoid_replace N with (N * 1) at 2 by ring.
      apply Qmult_le_l; lra. }
  destruct (@rnd_near (x * s)) as (r & Hr & Hrb); [split; lra|].
  rewrite Hr. cbn [py_round].
  pose proof (round_half_even_bounds r) as Hb.
  exists (round_half_even r). split; [reflexivity|].
  assert (A : inject_Z (-1) < inject_Z (round_half_even r))
    by (change (inject_Z (-1)) with (-1); lra).
  assert (B : inject_Z (round_half_even r) < inject_Z (n + 1)).
  { rewrite inject_Z_plus. change (inject_Z 1) with 1. fold N. lra. }
  rewrite <- Zlt_Qlt in A, B.
  split; [lia|]. split.
  - rewrite <- Hx. split; lra.
  - intros H1.
    destruct (@rnd_exact (x * s) n 0) as (r' & Hr' & Hrq).
    + rewrite Hx, H1. change (pow2 0) with 1. reflexivity.
    + change (2 ^ 53)%Z with 9007199254740992%Z. lia.
    + lia.
    + assert (r' = r) by congruence. subst r'.
      assert (Hrn : r == inject_Z n).
      { rewrite Hrq, Hx, H1. unfold N. ring. }
      rewrite (round_half_even_comp Hrn). apply round_half_even_inject.
Qed.

(** X22: the physical resize of an image of at most 2^31 pixels a side
    by a factor in (0, 1] never enlarges it and never yields 0: each new
    dimension lies between 1 and the old one, above the exact product
    minus 1, and it is the old one when the factor is 1. *)
Theorem physical_resize_never_enlarges (w : world) (src : path) (s : Q)
  (iw ih : Z) :
  image_size w src = Some (iw, ih) ->
  resize_raises w src = false ->
  (1 <= iw <= 2 ^ 31)%Z -> (1 <= ih <= 2 ^ 31)%Z ->
  0 < s <= 1 ->
  exists nw nh,
    physical_resize_image w src (Fin s) = Ok (nw, nh) /\
    (1 <= nw <= iw)%Z /\ (1 <= nh <= ih)%Z /\
    inject_Z iw * s - 1 < inject_Z nw /\
    inject_Z ih * s - 1 < inject_Z nh /\
    (s == 1 -> nw = iw /\ nh = ih).
Proof.
  intros Hsz Hrr Hw Hh Hs. unfold physical_resize_image.
  rewrite Hsz, Hrr.
  destruct (scaled_shrinks Hw Hs) as (vw & -> & Hvw & Haw & H1w).
  destruct (scaled_shrinks Hh Hs) as (vh & -> & Hvh & Hah & H1h).
  cbn [rbind]. exists (Z.max 1 vw), (Z.max 1 vh).
  split; [reflexivity|].
  assert (Mw : inject_Z vw <= inject_Z (Z.max 1 vw))
    by (rewrite <- Zle_Qle; lia).
  assert (Mh : inject_Z vh <= inject_Z (Z.max 1 vh))
    by (rewrite <- Zle_Qle; lia).
  repeat split; try lia; try lra.
  - rewrite (H1w H). lia.
  - rewrite (H1h H). lia.
Qed.

End ExactArithmetic.

(** ** Format of a resized copy *)

Section SaveFormat.

Lemma lower_char_dot c : Ascii.eqb (lower_char c) "." = Ascii.eqb c ".".
Proof.
  destruct c as [[] [] [] [] [] [] [] []]; vm_compute; reflexivity.
Qed.

Lemma rfind_dot_lower s : rfind_dot (lower s) = rfind_dot s.
Proof.
  induction s as [|c t IH]; [reflexivity|].
  cbn [lower rfind_dot]. now rewrite IH, lower_char_dot.
Qed.

Lemma rfind_dot_app s1 s2 :
  rfind_dot (s1 ++ s2) =
  match rfind_dot s2 with
  | Some i => Some (String.length s1 + i)%nat
  | None => rfind_dot s1
  end.
Proof.
  induction s1 as [|c t IH]; cbn [append rfind_dot String.length].
  - now destruct (rfind_dot s2).
  - rewrite IH. now destruct (rfind_dot s2).
Qed.

Lemma has_stem_app s1 s2 :
  has_stem (String.length s1) (s1 ++ s2) = negb (all_dots s1).
Proof.
  induction s1 as [|c t IH]; cbn [append has_stem String.length all_dots].
  - now destruct s2.
  - rewrite IH. now destruct (Ascii.eqb c ".").
Qed.

Lemma drop_app s1 s2 : drop (String.length s1) (s1 ++ s2) = s2.
Proof.
  induction s1 as [|c t IH]; cbn [append drop String.length];
    [now destruct s2 | exact IH].
Qed.

(** X23: the resized copy of a listed image is saved as JPEG when the
    name ends in .jpg or .jpeg, in any case, and as PNG when it ends in
    .png; unless nothing but dots comes before the extension: such a name
    has no extension for [os.path.splitext], and the copy is saved as
    PNG whatever the name says. *)
Theorem save_format_follows_extension (stem ext : string) :
  In (lower ext) image_suffixes ->
  save_format (stem ++ ext) =
  if all_dots stem then PNG
  else if String.eqb (lower ext) ".png" then PNG else JPEG.
Proof.
  intros Hext.
  assert (Hdot : rfind_dot ext = Some 0%nat).
  { rewrite <- rfind_dot_lower.
    destruct Hext as [<- | [<- | [<- | []]]]; reflexivity. }
  unfold save_format, splitext_ext.
  rewrite rfind_dot_app, Hdot, Nat.add_0_r, has_stem_app, drop_app.
  destruct (all_dots stem); cbn [negb]; [reflexivity|].
  destruct Hext as [<- | [<- | [<- | []]]]; reflexivity.
Qed.

(** [os.path.splitext] on sample names. *)
Example splitext_samples :
  splitext_ext ".jpg" = "" /\ splitext_ext "..jpg" = "" /\
  splitext_ext "x.tar.JPG" = ".JPG" /\ splitext_ext ".x.png" = ".png" /\
  splitext_ext "...png" = "" /\ splitext_ext "c" = "".
Proof. repeat split; reflexivity. Qed.

End SaveFormat.

(** ** Order and exactness of timecodes and widths *)

Section OutputOrder.

Open Scope Q_scope.

Lemma ilog2_spec_upper q : 0 < q -> q < pow2 (ilog2 q + 1).
Proof.
  intros Hq. unfold ilog2.
  destruct (Qle_bool _ q) eqn:E.
  - clear E. destruct q as [n d]. cbn [Qnum Qden].
    assert (Hn : (0 < n)%Z) by (unfold Qlt in Hq; cbn in Hq; lia).
    pose proof (Z.log2_spec n Hn) as [_ Hn2].
    pose proof (Z.log2_spec (Z.pos d) (Pos2Z.is_pos d)) as [Hd1 _].
    pose proof (Z.log2_nonneg n) as Hln.
    pose proof (Z.log2_nonneg (Z.pos d)) as Hld.
    set (ln := Z.log2 n) in *. set (ld := Z.log2 (Z.pos d)) in *.
    assert (Hsplit : pow2 (ln - ld + 1) * pow2 ld == pow2 (ln + 1)).
    { rewrite <- pow2_plus. replace (ln - ld + 1 + ld)%Z with (ln + 1)%Z by lia.
      reflexivity. }
    rewrite (@pow2_inject (ln + 1)) in Hsplit by lia.
    assert (Hd' : pow2 ld <= inject_Z (Z.pos d)).
    { rewrite pow2_inject by lia. rewrite <- Zle_Qle. lia. }
    assert (Hn' : inject_Z n < inject_Z (2 ^ (ln + 1))).
    { rewrite <- Zlt_Qlt. replace (ln + 1)%Z with (Z.succ ln) by lia. lia. }
    pose proof (pow2_pos (ln - ld + 1)) as Hp.
    assert (Hq' : n # d == inject_Z n / inject_Z (Z.pos d)) by apply Qmake_Qdiv.
    rewrite Hq'.
    assert (Hdpos : 0 < inject_Z (Z.pos d)) by (unfold Qlt; cbn; lia).
    apply Qlt_shift_div_r; [exact Hdpos|].
    apply Qlt_le_trans with (inject_Z (2 ^ (ln + 1))); [exact Hn'|].
    rewrite <- Hsplit. apply Qmult_le_l; assumption.
  - apply Qle_bool_false in E.
    replace (Z.log2 (Qnum q) - Z.log2 (Z.pos (Qden q)) - 1 + 1)%Z
      with (Z.log2 (Qnum q) - Z.log2 (Z.pos (Qden q)))%Z by lia.
    exact E.
Qed.

Lemma ilog2_mono q q' : 0 < q -> q <= q' -> (ilog2 q <= ilog2 q')%Z.
Proof.
  intros Hq Hle.
  assert (H : pow2 (ilog2 q) < pow2 (ilog2 q' + 1)).
  { apply Qle_lt_trans with q; [now apply ilog2_lower|].
    apply Qle_lt_trans with q'; [exact Hle|].
    apply ilog2_spec_upper. lra. }
  apply pow2_lt_inv in H. lia.
Qed.

Lemma round_half_even_floor q :
  (Qfloor q <= round_half_even q <= Qfloor q + 1)%Z.
Proof.
  unfold round_half_even.
  destruct (Qle_bool _ _); [destruct (Qle_bool _ _); [destruct (Z.even _)|]|];
    lia.
Qed.

Lemma round_half_even_mono q q' :
  q <= q' -> (round_half_even q <= round_half_even q')%Z.
Proof.
  intros Hle.
  assert (Hf : (Qfloor q <= Qfloor q')%Z) by (now apply Qfloor_resp_le).
  destruct (Z.eq_dec (Qfloor q) (Qfloor q')) as [E | Hne].
  - unfold round_half_even. rewrite <- E.
    set (f := Qfloor q) in *.
    destruct (Qle_bool (q - inject_Z f) (1 # 2)) eqn:E1;
      destruct (Qle_bool (1 # 2) (q - inject_Z f)) eqn:E2;
      destruct (Qle_bool (q' - inject_Z f) (1 # 2)) eqn:E3;
      destruct (Qle_bool (1 # 2) (q' - inject_Z f)) eqn:E4;
      try (destruct (Z.even f)); try lia; exfalso;
      repeat match goal with
             | H : Qle_bool _ _ = true |- _ => apply Qle_bool_iff in H
             | H : Qle_bool _ _ = false |- _ => apply Qle_bool_false in H
             end; lra.
  - pose proof (round_half_even_floor q). pose proof (round_half_even_floor q').
    lia.
Qed.

Lemma Qabs_pos_eq q : 0 < q -> Qabs q = q.
Proof.
  destruct q as [n d]. unfold Qlt, Qabs. cbn. intros H.
  rewrite Z.abs_eq by lia. reflexivity.
Qed.

Lemma ulp_exp_pos q :
  0 < q -> ulp_exp q = Z.max (ilog2 q - 52) (-1074).
Proof. intros H. unfold ulp_exp. now rewrite Qabs_pos_eq. Qed.

(** Scaling by a power of two and rounding to an integer, seen from
    both sides of a power of two. *)
Lemma scaled_round_le q u k :
  q <= pow2 k -> (u <= k)%Z ->
  inject_Z (round_half_even (q / pow2 u)) * pow2 u <= pow2 k.
Proof.
  intros Hq Hu. pose proof (pow2_pos u) as Hpu.
  assert (Hk : pow2 k == inject_Z (2 ^ (k - u)) * pow2 u).
  { rewrite <- pow2_inject, <- pow2_plus by lia.
    replace (k - u + u)%Z with k by lia. reflexivity. }
  rewrite Hk. apply Qmult_le_compat_r; [|lra].
  rewrite <- Zle_Qle.
  rewrite <- (round_half_even_inject (2 ^ (k - u))).
  apply round_half_even_mono.
  apply Qle_shift_div_r; [exact Hpu|]. now rewrite <- Hk.
Qed.

Lemma scaled_round_ge q u k :
  pow2 k <= q -> (u <= k)%Z ->
  pow2 k <= inject_Z (round_half_even (q / pow2 u)) * pow2 u.
Proof.
  intros Hq Hu. pose proof (pow2_pos u) as Hpu.
  assert (Hk : pow2 k == inject_Z (2 ^ (k - u)) * pow2 u).
  { rewrite <- pow2_inject, <- pow2_plus by lia.
    replace (k - u + u)%Z with k by lia. reflexivity. }
  rewrite Hk. apply Qmult_le_compat_r; [|lra].
  rewrite <- Zle_Qle.
  rewrite <- (round_half_even_inject (2 ^ (k - u))).
  apply round_half_even_mono.
  apply Qle_shift_div_l; [exact Hpu|]. now rewrite <- Hk.
Qed.

(** Rounding to binary64 keeps the order of positive values. *)
Lemma rnd_mono q q' :
  0 < q -> q <= q' -> q' <= pow2 1000 ->
  exists r r', rnd q = Fin r /\ rnd q' = Fin r' /\ 0 <= r /\ r <= r'.
Proof.
  intros Hq Hle Hb.
  assert (Hq' : 0 < q') by lra.
  assert (Hnz : ~ q == 0) by lra.
  assert (Hnz' : ~ q' == 0) by lra.
  rewrite (@rnd_form q), (@rnd_form q'); try assumption;
    try (rewrite Qabs_pos_eq by assumption; lra).
  eexists. eexists. split; [reflexivity|]. split; [reflexivity|].
  rewrite !Qred_correct.
  pose proof (ilog2_mono Hq Hle) as He.
  pose proof (ilog2_lower Hq) as Hl. pose proof (ilog2_lower Hq') as Hl'.
  pose proof (ilog2_spec_upper Hq) as Hup.
  rewrite (ulp_exp_pos Hq), (ulp_exp_pos Hq').
  set (e := ilog2 q) in *. set (e' := ilog2 q') in *.
  set (u := Z.max (e - 52) (-1074)). set (u' := Z.max (e' - 52) (-1074)).
  pose proof (pow2_pos u) as Hpu. pose proof (pow2_pos u') as Hpu'.
  split.
  - apply Qmult_le_0_compat; [|lra].
    change 0 with (inject_Z 0). rewrite <- Zle_Qle.
    rewrite <- (round_half_even_inject 0).
    apply round_half_even_mono. change (inject_Z 0) with 0.
    apply Qle_shift_div_l; [exact Hpu | lra].
  - destruct (Z.eq_dec u u') as [E | Hne].
    + rewrite <- E. apply Qmult_le_compat_r; [|lra].
      rewrite <- Zle_Qle. apply round_half_even_mono.
      apply Qmult_le_compat_r; [exact Hle|].
      apply Qlt_le_weak, Qinv_lt_0_compat, Hpu.
    + assert (Hu : (u < u')%Z) by (unfold u, u'; lia).
      assert (Hu' : u' = (e' - 52)%Z) by (unfold u, u' in *; lia).
      apply Qle_trans with (pow2 e').
      * apply scaled_round_le; [|unfold u, u' in *; lia].
        apply Qle_trans with (pow2 (e + 1)); [lra|].
        apply pow2_le. unfold u, u' in *. lia.
      * apply scaled_round_ge; [exact Hl' | lia].
Qed.

(** A finite result of [rnd] is a fraction in lowest terms. *)
Lemma rnd_reduced q r : rnd q = Fin r -> Qred r = r.
Proof.
  assert (Hidem : forall t, Qred (Qred t) = Qred t)
    by (intros t; apply Qred_complete, Qred_correct).
  unfold rnd. destruct (Qeq_bool q 0); [intros [= <-]; reflexivity|].
  cbv zeta. set (t := inject_Z _ * pow2 _).
  destruct (Qle_bool _ _); [discriminate|].
  intros [= <-]. exact (Hidem t).
Qed.

(** The float of an integer below [2^53] in magnitude, in lowest terms. *)
Lemma float_of_int_value z :
  (- 2 ^ 53 < z < 2 ^ 53)%Z -> float_of_int z = Ok (Fin (inject_Z z)).
Proof.
  intros Hz. destruct (float_of_int_exact Hz) as (r & Hr & Hrz).
  rewrite Hr. do 2 f_equal.
  assert (Hred : Qred r = r).
  { apply (@rnd_reduced (inject_Z z)). unfold float_of_int in Hr.
    destruct (rnd (inject_Z z)); [|discriminate Hr|discriminate Hr].
    now injection Hr as ->. }
  rewrite <- Hred, (Qred_complete _ _ Hrz).
  unfold Qred, inject_Z. cbn [Qnum Qden].
  pose proof (Z.ggcd_correct_divisors z 1) as Hd.
  pose proof (Z.ggcd_gcd z 1) as Hg. rewrite Z.gcd_1_r in Hg.
  destruct (Z.ggcd z 1) as [g [aa bb]]. cbn [fst snd] in *. subst g.
  destruct Hd as [Ha Hb].
  replace aa with z by lia. replace bb with 1%Z by lia. reflexivity.
Qed.

Lemma Qfloor_between q k :
  inject_Z k <= q -> q < inject_Z (k + 1) -> Qfloor q = k.
Proof.
  intros H0 H1.
  pose proof (Qfloor_le q) as Hle. pose proof (Qlt_floor q) as Hlt.
  assert (A : inject_Z (Qfloor q) < inject_Z (k + 1)) by lra.
  assert (B : inject_Z k < inject_Z (Qfloor q + 1)) by lra.
  rewrite <- Zlt_Qlt in A, B. lia.
Qed.

(** The timecode of a frame, from the float its quotient rounds to. *)
Lemma timecode_seconds n f r :
  (0 <= n < 10 ^ 8)%Z -> 0 < f ->
  rnd (inject_Z n / f) = Fin r -> 0 <= r ->
  timecode (Some n) (Fin f) = Ok (hhmmss (Qfloor r)).
Proof.
  intros Hn Hf Hr Hr0. unfold timecode.
  assert (Hg : fgt (Fin f) (Fin 0) = true).
  { unfold fgt, flt. destruct (Qle_bool f 0) eqn:E; [|reflexivity].
    apply Qle_bool_iff in E. lra. }
  rewrite Hg, float_of_int_value
    by (change (2 ^ 53)%Z with 9007199254740992%Z;
        change (10 ^ 8)%Z with 100000000%Z in Hn; lia).
  cbn [rbind]. unfold fdiv, is_zero.
  destruct (Qeq_bool f 0) eqn:E0; [apply Qeq_bool_iff in E0; lra|].
  cbn [rbind]. rewrite Hr.
  unfold seconds_to_hhmmss_floor, truthy, flt, is_zero.
  destruct (Qeq_bool r 0) eqn:Ez.
  - apply Qeq_bool_iff in Ez. cbn [negb orb].
    rewrite (Qfloor_comp _ _ Ez). reflexivity.
  - cbn [negb orb].
    destruct (Qle_bool 0 r) eqn:El;
      [|apply Qle_bool_false in El; lra].
    cbn [negb math_floor rbind]. reflexivity.
Qed.

(** X24: at a finite frame rate of at least 2^-31 a later frame never
    gets an earlier timecode: for frame indices [n <= n'] below 10^8
    both timecodes are written, for whole seconds [s <= s']. *)
Theorem timecode_never_runs_backwards (n n' : Z) (f : Q) :
  (0 <= n <= n')%Z -> (n' < 10 ^ 8)%Z -> 1 # 2147483648 <= f ->
  exists s s',
    timecode (Some n) (Fin f) = Ok (hhmmss s) /\
    timecode (Some n') (Fin f) = Ok (hhmmss s') /\
    (0 <= s <= s')%Z.
Proof.
  intros Hn Hn' Hf.
  assert (Hf0 : 0 < f) by lra.
  assert (H8 : (10 ^ 8 = 100000000)%Z) by reflexivity.
  assert (Hq' : 0 <= inject_Z n' / f <= pow2 1000).
  { assert (HnQ : inject_Z 0 <= inject_Z n' <= inject_Z 100000000)
      by (split; rewrite <- Zle_Qle; lia).
    change (inject_Z 0) with 0 in HnQ.
    change (inject_Z 100000000) with 100000000 in HnQ.
    split.
    - apply Qle_shift_div_l; [exact Hf0 | lra].
    - apply Qle_shift_div_r; [exact Hf0|].
      assert (H58 : pow2 58 * (1 # 2147483648) == 134217728) by reflexivity.
      assert (H1000 : pow2 58 <= pow2 1000) by (apply pow2_le; lia).
      pose proof (pow2_pos 58) as Hp58.
      apply Qle_trans with (pow2 58 * (1 # 2147483648)); [lra|].
      apply Qle_trans with (pow2 58 * f).
      + apply Qmult_le_l; [exact Hp58 | exact Hf].
      + apply Qmult_le_compat_r; lra. }
  assert (Hle : inject_Z n / f <= inject_Z n' / f).
  { apply Qmult_le_compat_r.
    - rewrite <- Zle_Qle. lia.
    - apply Qlt_le_weak, Qinv_lt_0_compat, Hf0. }
  assert (Hfl : forall r, 0 <= r -> (0 <= Qfloor r)%Z).
  { intros r Hr. change 0%Z with (Qfloor 0). now apply Qfloor_resp_le. }
  destruct (Z.eq_dec n 0) as [-> | Hnz].
  - assert (Hr : rnd (inject_Z 0 / f) = Fin 0).
    { apply rnd_zero. unfold Qdiv. change (inject_Z 0) with 0. ring. }
    destruct (Z.eq_dec n' 0) as [-> | Hnz'].
    + exists 0%Z, 0%Z.
      rewrite (@timecode_seconds 0 f 0) by (try assumption; lia || lra).
      repeat split; reflexivity || lia.
    + assert (Hpos : 0 < inject_Z n' / f).
      { apply Qlt_shift_div_l; [exact Hf0|].
        setoid_replace (0 * f) with (inject_Z 0) by (change (inject_Z 0) with 0; ring).
        rewrite <- Zlt_Qlt. lia. }
      destruct (@rnd_mono (inject_Z n' / f) (inject_Z n' / f))
        as (r' & r2 & Hr' & _ & Hr0 & _); [exact Hpos | lra | lra |].
      exists 0%Z, (Qfloor r').
      rewrite (@timecode_seconds 0 f 0) by (try assumption; lia || lra).
      rewrite (@timecode_seconds n' f r') by (try assumption; lia).
      pose proof (Hfl r' Hr0).
      repeat split; reflexivity || lia.
  - assert (Hpos : 0 < inject_Z n / f).
    { apply Qlt_shift_div_l; [exact Hf0|].
      setoid_replace (0 * f) with (inject_Z 0) by (change (inject_Z 0) with 0; ring).
      rewrite <- Zlt_Qlt. lia. }
    destruct (@rnd_mono (inject_Z n / f) (inject_Z n' / f))
      as (r & r' & Hr & Hr' & Hr0 & Hrr); [exact Hpos | exact Hle | lra |].
    exists (Qfloor r), (Qfloor r').
    rewrite (@timecode_seconds n f r) by (try assumption; lia).
    rewrite (@timecode_seconds n' f r') by (try assumption; lia || lra).
    pose proof (Hfl r Hr0).
    pose proof (Qfloor_resp_le _ _ Hrr).
    repeat split; reflexivity || lia.
Qed.

(** Rounding to binary64 does not fall below an integer the value has
    reached. *)
Lemma rnd_ge_int k q :
  (0 <= k < 2 ^ 53)%Z -> inject_Z k <= q -> q <= pow2 1000 ->
  exists r, rnd q = Fin r /\ inject_Z k <= r.
Proof.
  intros Hk Hkq Hb.
  assert (Hk0 : inject_Z 0 <= inject_Z k) by (rewrite <- Zle_Qle; lia).
  change (inject_Z 0) with 0 in Hk0.
  destruct (Qeq_dec q 0) as [Hz | Hnz].
  - exists 0. split; [now apply rnd_zero | lra].
  - assert (Hq : 0 < q) by lra.
    destruct (Z.eq_dec k 0) as [-> | Hkz].
    + destruct (@rnd_mono q q) as (r & _ & Hr & _ & Hr0 & _);
        [exact Hq | lra | exact Hb |].
      exists r. split; [exact Hr | exact Hr0].
    + assert (Hkp : 0 < inject_Z k).
      { change 0 with (inject_Z 0). rewrite <- Zlt_Qlt. lia. }
      destruct (@rnd_mono (inject_Z k) q) as (r0 & r & Hr0 & Hr & _ & Hle);
        [exact Hkp | exact Hkq | exact Hb |].
      exists r. split; [exact Hr|].
      destruct (@rnd_exact (inject_Z k) k 0) as (r1 & Hr1 & Hr1k);
        [change (pow2 0) with 1; ring | lia | lia |].
      rewrite Hr0 in Hr1. injection Hr1 as ->. lra.
Qed.

(** X25: at a whole frame rate from 1 to 1000000 the timecode of a
    frame below 10^8 is the one of the integer quotient of the frame
    index by the rate: the division on floats never moves a frame across
    a second. *)
Theorem integer_rate_timecode_is_exact (n F : Z) :
  (0 <= n < 10 ^ 8)%Z -> (1 <= F <= 1000000)%Z ->
  timecode (Some n) (Fin (inject_Z F)) = Ok (hhmmss (n / F)).
Proof.
  intros Hn HF.
  assert (H8 : (10 ^ 8 = 100000000)%Z) by reflexivity.
  set (k := (n / F)%Z).
  assert (Hdiv : (k * F <= n <= k * F + F - 1)%Z).
  { pose proof (Z.div_mod n F ltac:(lia)) as Hdm.
    pose proof (Z.mod_pos_bound n F ltac:(lia)) as Hm.
    unfold k. lia. }
  assert (Hk : (0 <= k <= n)%Z).
  { split; [apply Z.div_pos; lia|]. unfold k. nia. }
  assert (HFq : inject_Z 1 <= inject_Z F <= inject_Z 1000000)
    by (split; rewrite <- Zle_Qle; lia).
  change (inject_Z 1) with 1 in HFq.
  change (inject_Z 1000000) with 1000000 in HFq.
  assert (HnQ : inject_Z 0 <= inject_Z n <= inject_Z 100000000)
    by (split; rewrite <- Zle_Qle; lia).
  change (inject_Z 0) with 0 in HnQ.
  change (inject_Z 100000000) with 100000000 in HnQ.
  assert (Hlo : inject_Z (k * F) <= inject_Z n) by (rewrite <- Zle_Qle; lia).
  assert (Hhi : inject_Z n <= inject_Z ((k + 1) * F - 1))
    by (rewrite <- Zle_Qle; lia).
  rewrite inject_Z_mult in Hlo.
  rewrite inject_Z_sub, inject_Z_mult in Hhi. change (inject_Z 1) with 1 in Hhi.
  set (q := inject_Z n / inject_Z F).
  assert (Hq0 : inject_Z k <= q).
  { apply Qle_shift_div_l; [lra | exact Hlo]. }
  assert (Hq1 : q < inject_Z (k + 1) - (1 # 2097152)).
  { apply Qlt_shift_div_r; [lra|]. lra. }
  assert (Hqn : q <= inject_Z n).
  { apply Qle_shift_div_r; [lra|].
    assert (0 <= inject_Z n * (inject_Z F - 1))
      by (apply Qmult_le_0_compat; lra).
    lra. }
  assert (Hk0 : inject_Z 0 <= inject_Z k) by (rewrite <- Zle_Qle; lia).
  change (inject_Z 0) with 0 in Hk0.
  destruct (@rnd_near q) as (r & Hr & Hrb); [split; lra|].
  destruct (@rnd_ge_int k q) as (r' & Hr' & Hkr).
  { change (2 ^ 53)%Z with 9007199254740992%Z. lia. }
  { exact Hq0. }
  { assert (H27 : pow2 27 == 134217728) by reflexivity.
    pose proof (@pow2_le 27 1000 ltac:(lia)). lra. }
  rewrite Hr in Hr'. injection Hr' as <-.
  rewrite (@timecode_seconds n (inject_Z F) r); [|lia|lra|exact Hr|lra].
  do 2 f_equal. apply Qfloor_between; lra.
Qed.

(** The column width from 13 pixels on: the rounded quotient itself. *)
Lemma col_width_form pixels :
  (13 <= pixels <= 2 ^ 50)%Z ->
  exists r,
    rnd (inject_Z (pixels - 5) / 7) = Fin r /\ 1 < r /\
    pixels_to_col_width pixels = Ok (Fin r).
Proof.
  intros Hp.
  change (2 ^ 50)%Z with 1125899906842624%Z in Hp.
  assert (HpQ : inject_Z 8 <= inject_Z (pixels - 5)
                <= inject_Z 1125899906842624)
    by (split; rewrite <- Zle_Qle; lia).
  change (inject_Z 8) with 8 in HpQ.
  change (inject_Z 1125899906842624) with 1125899906842624 in HpQ.
  unfold pixels_to_col_width.
  rewrite float_of_int_value
    by (change (2 ^ 53)%Z with 9007199254740992%Z; lia).
  cbn [rbind]. unfold fdiv. rewrite is_zero_false by discriminate.
  cbn [rbind].
  set (x := inject_Z (pixels - 5)) in *.
  assert (Hx7 : x / 7 * 7 == x) by field.
  destruct (@rnd_rel (x / 7)) as (r & Hr & Hrb); [lra | lra |].
  unfold eps in Hrb.
  assert (Hgt : 1 < r) by lra.
  exists r. split; [exact Hr|]. split; [exact Hgt|].
  rewrite Hr. unfold max2, fgt, flt.
  destruct (Qle_bool r 1) eqn:E; [apply Qle_bool_iff in E; lra|].
  reflexivity.
Qed.

(** X26: from -2^31 to 2^50 pixels, a larger pixel width never gets a
    smaller column width. *)
Theorem col_width_is_monotone (pixels pixels' : Z) :
  (- 2 ^ 31 <= pixels <= pixels')%Z -> (pixels' <= 2 ^ 50)%Z ->
  exists v v',
    pixels_to_col_width pixels = Ok (Fin v) /\
    pixels_to_col_width pixels' = Ok (Fin v') /\
    v <= v'.
Proof.
  intros Hp Hp'.
  destruct (Z_le_gt_dec pixels 12) as [H12 | H13].
  - destruct (@col_width_value pixels) as (v & Hv & Hv1 & _); [lia|].
    destruct (@col_width_value pixels') as (v' & Hv' & Hv1' & Hv2'); [lia|].
    exists v, v'. split; [exact Hv|]. split; [exact Hv'|].
    rewrite (Hv1 H12).
    destruct (Z_le_gt_dec pixels' 12) as [H12' | H13'].
    + rewrite (Hv1' H12'). discriminate.
    + destruct (Hv2' ltac:(lia)) as (Hgt & _). lra.
  - destruct (@col_width_form pixels) as (v & Hv & _ & Hcv); [lia|].
    destruct (@col_width_form pixels') as (v' & Hv' & _ & Hcv'); [lia|].
    exists v, v'. split; [exact Hcv|]. split; [exact Hcv'|].
    change (2 ^ 50)%Z with 1125899906842624%Z in Hp'.
    assert (HpQ : inject_Z 8 <= inject_Z (pixels - 5))
      by (rewrite <- Zle_Qle; lia).
    assert (HpQ' : inject_Z (pixels - 5) <= inject_Z (pixels' - 5))
      by (rewrite <- Zle_Qle; lia).
    assert (HpQ2 : inject_Z (pixels' - 5) <= inject_Z 1125899906842624)
      by (rewrite <- Zle_Qle; lia).
    change (inject_Z 8) with 8 in HpQ.
    change (inject_Z 1125899906842624) with 1125899906842624 in HpQ2.
    set (x := inject_Z (pixels - 5)) in *.
    set (x' := inject_Z (pixels' - 5)) in *.
    assert (Hx7 : x / 7 * 7 == x) by field.
    assert (Hx7' : x' / 7 * 7 == x') by field.
    destruct (@rnd_mono (x / 7) (x' / 7)) as (r & r' & Hr & Hr' & _ & Hle).
    + lra.
    + lra.
    + assert (H50 : pow2 50 == 1125899906842624) by reflexivity.
      pose proof (@pow2_le 50 1000 ltac:(lia)). lra.
    + rewrite Hv in Hr. rewrite Hv' in Hr'.
      injection Hr as <-. injection Hr' as <-. exact Hle.
Qed.

End OutputOrder.

(** ** Sample inputs *)

Section SampleInputs.

Open Scope Z_scope.

Lemma layout_without_pillow_witness :
  PIL_AVAILABLE (without_pillow sample_world) = false /\
  scale sample_args = Fin (1 # 4) /\
  In (Set_row 1 (Fin 1) (Some text_fmt))
     (fst (main (without_pillow sample_world) sample_args)) /\
  pixels_to_row_points (2 * pad_y sample_args) = Ok (Fin 1).
Proof.
  assert (Hin : In (Set_row 1 (Fin 1) (Some text_fmt))
                   (fst (main (without_pillow sample_world) sample_args))).
  { vm_compute. tauto. }
  split; [reflexivity|]. split; [reflexivity|]. split; [exact Hin|].
  exact (@layout_without_pillow (without_pillow sample_world) sample_args
           (1 # 4) (Set_row 1 (Fin 1) (Some text_fmt)) eq_refl eq_refl Hin).
Defined.

Lemma vertical_offset_is_padding_witness :
  do_center padded_args = true /\
  - 2 ^ 52 < pad_y padded_args < 2 ^ 52 /\
  In (Insert_image 3 0 (Src "zz.jpeg") (mkOpts (Some 244) (Some 3) None None))
     (fst (main sample_world padded_args)) /\
  y_offset (mkOpts (Some 244) (Some 3) None None)
  = Some (Z.max 0 (pad_y padded_args)).
Proof.
  assert (Hin : In (Insert_image 3 0 (Src "zz.jpeg")
                      (mkOpts (Some 244) (Some 3) None None))
                   (fst (main sample_world padded_args))).
  { vm_compute. tauto. }
  assert (Hpad : - 2 ^ 52 < pad_y padded_args < 2 ^ 52) by (cbn; lia).
  split; [reflexivity|]. split; [exact Hpad|]. split; [exact Hin|].
  exact (@vertical_offset_is_padding sample_world padded_args 3 0
           (Src "zz.jpeg") (mkOpts (Some 244) (Some 3) None None)
           eq_refl Hpad Hin).
Defined.

Lemma image_fits_column_witness :
  In (Src "b.png", 100, 50) sample_records /\
  exists xo,
    x_offset (mkOpts (Some 194) (Some 3) None None) = Some xo /\
    pad_x padded_args <= xo /\
    2 * xo + 100
    <= c_col_pixels (run_context sample_world padded_args sample_records)
    <= 2 * xo + 100 + 1.
Proof.
  assert (Hin : In (Src "b.png", 100, 50) sample_records)
    by (right; left; reflexivity).
  split; [exact Hin|].
  apply (@image_fits_column sample_world padded_args sample_records
           (Src "b.png", 100, 50) 50 56 (mkOpts (Some 194) (Some 3) None None)
           Hin eq_refl).
  - cbn. lia.
  - vm_compute. reflexivity.
  - vm_compute. reflexivity.
Defined.

Lemma timecode_column_follows_listing_witness :
  list_images_sorted sample_world = Ok sample_images /\
  map fst (timecode_cells (fst (main sample_world sample_args)))
  = map (fun k => 1 + Z.of_nat k) (seq 0 (List.length sample_images)).
Proof.
  assert (Hl : list_images_sorted sample_world = Ok sample_images)
    by (vm_compute; reflexivity).
  assert (Hm : main sample_world sample_args
               = (fst (main sample_world sample_args), Ok 0)).
  { rewrite (surjective_pairing (main sample_world sample_args)) at 1.
    apply f_equal. vm_compute. reflexivity. }
  split; [exact Hl|].
  apply (@timecode_column_follows_listing sample_world sample_args _ _ Hm Hl).
Defined.

Lemma listing_is_sorted_selection_witness :
  exists imgs,
    list_images_sorted sample_world = Ok imgs /\
    StronglySorted str_le imgs /\
    Permutation imgs
      (filter has_image_suffix
              ["f00000050.png"; "notes.txt"; "F00000025.JPG"; "zz.jpeg"]) /\
    (forall name,
        In name imgs <->
        In name ["f00000050.png"; "notes.txt"; "F00000025.JPG"; "zz.jpeg"] /\
        qualifying name).
Proof.
  apply (@listing_is_sorted_selection sample_world _ eq_refl).
Defined.

Lemma listing_ignores_directory_order_witness :
  Permutation ["f00000050.png"; "notes.txt"; "F00000025.JPG"; "zz.jpeg"]
              ["notes.txt"; "f00000050.png"; "F00000025.JPG"; "zz.jpeg"] /\
  main (with_listing sample_world
          ["notes.txt"; "f00000050.png"; "F00000025.JPG"; "zz.jpeg"])
       sample_args
  = main sample_world sample_args.
Proof.
  assert (HP : Permutation
                 ["f00000050.png"; "notes.txt"; "F00000025.JPG"; "zz.jpeg"]
                 ["notes.txt"; "f00000050.png"; "F00000025.JPG"; "zz.jpeg"])
    by apply perm_swap.
  split; [exact HP|].
  apply (@listing_ignores_directory_order sample_world _ _ sample_args
           eq_refl HP).
Defined.

Lemma timecode_outcomes_witness :
  (forall n, Some 750 = Some n -> 0 <= n < 10 ^ 8) /\
  (Inf false = Inf false -> Some 750 <> None ->
   timecode (Some 750) (Inf false) = Ok "00:00:00").
Proof.
  assert (H : forall n, Some 750 = Some n -> 0 <= n < 10 ^ 8).
  { intros n [= <-]. lia. }
  split; [exact H|].
  apply (@timecode_outcomes (Some 750) (Inf false) H).
Defined.

Lemma row_points_are_exact_witness :
  - 2 ^ 51 < 270 < 2 ^ 51 /\
  exists r,
    pixels_to_row_points 270 = Ok (Fin r) /\
    (270 <= 1 -> r = 1%Q) /\
    (2 <= 270 -> (r == (3 # 4) * inject_Z 270)%Q).
Proof.
  assert (H : - 2 ^ 51 < 270 < 2 ^ 51) by lia.
  split; [exact H | exact (@row_points_are_exact 270 H)].
Defined.

Lemma col_width_never_below_one_witness :
  - 2 ^ 31 <= 480 <= 2 ^ 50 /\
  exists r, pixels_to_col_width 480 = Ok (Fin r) /\ (1 <= r)%Q.
Proof.
  assert (H : - 2 ^ 31 <= 480 <= 2 ^ 50) by lia.
  split; [exact H|].
  destruct (@col_width_never_below_one 480 H) as (r & Hr & H1 & _).
  exists r. now split.
Defined.

Lemma pixel_round_trip_loses_at_most_one_witness :
  - 2 ^ 31 <= 120 <= 2 ^ 50 /\
  exists p, pixel_round_trip 120 = Ok p /\ 120 - 1 <= p <= 120.
Proof.
  assert (H : - 2 ^ 31 <= 120 <= 2 ^ 50) by lia.
  split; [exact H|].
  destruct (@pixel_round_trip_loses_at_most_one 120 H)
    as ((p & Hp & _ & Hb) & _).
  exists p. split; [exact Hp | apply Hb; lia].
Defined.

Lemma physical_resize_never_enlarges_witness :
  image_size sample_world (Src "f00000050.png") = Some (1920, 1080) /\
  exists nw nh,
    physical_resize_image sample_world (Src "f00000050.png") (Fin (1 # 4))
    = Ok (nw, nh) /\
    1 <= nw <= 1920 /\ 1 <= nh <= 1080.
Proof.
  split; [reflexivity|].
  assert (H1 : 1 <= 1920 <= 2 ^ 31) by lia.
  assert (H2 : 1 <= 1080 <= 2 ^ 31) by lia.
  assert (H3 : (0 < 1 # 4 <= 1)%Q) by (split; [reflexivity | discriminate]).
  destruct (@physical_resize_never_enlarges sample_world
              (Src "f00000050.png") (1 # 4) 1920 1080 eq_refl eq_refl H1 H2 H3)
    as (nw & nh & H & Hw & Hh & _).
  exists nw, nh. split; [exact H|]. split; [exact Hw | exact Hh].
Defined.

Lemma save_format_follows_extension_witness :
  In (lower ".JPG") image_suffixes /\
  save_format ("F00000025" ++ ".JPG") = JPEG.
Proof.
  assert (H : In (lower ".JPG") image_suffixes) by (left; reflexivity).
  split; [exact H|].
  exact (@save_format_follows_extension "F00000025" ".JPG" H).
Defined.

Lemma timecode_never_runs_backwards_witness :
  (0 <= 1499 <= 1500 /\ 1500 < 10 ^ 8 /\ (1 # 2147483648 <= 25)%Q) /\
  exists s s',
    timecode (Some 1499) (Fin 25) = Ok (hhmmss s) /\
    timecode (Some 1500) (Fin 25) = Ok (hhmmss s') /\
    0 <= s <= s'.
Proof.
  assert (H1 : 0 <= 1499 <= 1500) by lia.
  assert (H2 : 1500 < 10 ^ 8) by reflexivity.
  assert (H3 : (1 # 2147483648 <= 25)%Q) by discriminate.
  split; [split; [exact H1 | split; [exact H2 | exact H3]]|].
  exact (@timecode_never_runs_backwards 1499 1500 25 H1 H2 H3).
Defined.

Lemma integer_rate_timecode_is_exact_witness :
  (0 <= 1499 < 10 ^ 8 /\ 1 <= 25 <= 1000000) /\
  timecode (Some 1499) (Fin (inject_Z 25)) = Ok "00:00:59".
Proof.
  assert (H1 : 0 <= 1499 < 10 ^ 8) by (split; [lia | reflexivity]).
  assert (H2 : 1 <= 25 <= 1000000) by lia.
  split; [split; [exact H1 | exact H2]|].
  exact (@integer_rate_timecode_is_exact 1499 25 H1 H2).
Defined.

Lemma col_width_is_monotone_witness :
  (- 2 ^ 31 <= 480 <= 481 /\ 481 <= 2 ^ 50) /\
  exists v v',
    pixels_to_col_width 480 = Ok (Fin v) /\
    pixels_to_col_width 481 = Ok (Fin v') /\
    (v <= v')%Q.
Proof.
  assert (H1 : - 2 ^ 31 <= 480 <= 481) by lia.
  assert (H2 : 481 <= 2 ^ 50) by lia.
  split; [split; [exact H1 | exact H2]|].
  exact (@col_width_is_monotone 480 481 H1 H2).
Defined.

End SampleInputs.

(** ** The run with its unguarded library calls *)

Section UnguardedRun.

Open Scope Z_scope.

(** With a library in which every call returns, the run is [main]. *)
Lemma unguarded_all_return l w a :
  all_return l -> Unguarded.main l w a = main w a.
Proof.
  destruct l as [m t b c]. unfold all_return. cbn.
  intros (-> & -> & -> & ->). reflexivity.
Qed.

Lemma unguarded_no_images l w a :
  (list_images_sorted w = Ok [] \/ exists e, list_images_sorted w = Raise e) ->
  Unguarded.main l w a = main w a.
Proof.
  unfold Unguarded.main, main. unfold iobind at 1 3. unfold lift at 1 3.
  intros [-> | (e & ->)]; reflexivity.
Qed.

(** The run over at least one image, unguarded call by unguarded call. *)
Lemma unguarded_main_eq l w a imgs :
  list_images_sorted w = Ok imgs -> imgs <> [] ->
  Unguarded.main l w a =
  if makedirs_raises l then ([], Raise LibraryError)
  else if use_physical w a && mkdtemp_raises l
  then ([Makedirs], Raise LibraryError)
  else
    match preprocess w (use_physical w a) (for_ (scale a) (Fin (1 # 4))) imgs with
    | Raise e => ((setup_events w a ++ cleanup_events w a)%list, Raise e)
    | Ok processed =>
        if workbook_raises l
        then ((setup_events w a ++ cleanup_events w a)%list, Raise LibraryError)
        else
          let c := run_context w a processed in
          match pixels_to_col_width (c_col_pixels c) with
          | Raise e =>
              ((setup_events w a ++ workbook_events ++ cleanup_events w a)%list,
               Raise e)
          | Ok width =>
              match write_rows c 0 1 imgs with
              | (rows, Ok _) =>
                  if close_raises l
                  then ((setup_events w a ++ workbook_events
                           ++ header_events width ++ rows
                           ++ cleanup_events w a)%list,
                        Raise LibraryError)
                  else ((setup_events w a ++ workbook_events
                           ++ header_events width ++ rows
                           ++ [Close; Print_ok] ++ cleanup_events w a)%list,
                        Ok 0%Z)
              | (rows, Raise e) =>
                  ((setup_events w a ++ workbook_events ++ header_events width
                      ++ rows ++ cleanup_events w a)%list,
                   Raise e)
              end
          end
    end.
Proof.
  intros Hi Hne.
  unfold Unguarded.main, call, setup_events, cleanup_events, workbook_events,
    header_events, run_context, use_physical.
  unfold iobind at 1. unfold lift at 1. rewrite Hi.
  destruct imgs as [|n rest]; [congruence|].
  cbn [c_col_pixels].
  destruct l as [fm ft fw fc]. cbn [makedirs_raises mkdtemp_raises
                                    workbook_raises close_raises].
  unfold finally, iobind, lift, emit, ret.
  destruct fm; [reflexivity|].
  destruct (resize a), (PIL_AVAILABLE w); cbn [andb];
    try (destruct ft; [reflexivity|]);
    (destruct (preprocess w _ _ (n :: rest)) as [processed | e];
     [destruct fw; [reflexivity|];
      destruct (pixels_to_col_width _) as [width | e];
      [destruct (write_rows _ 0 1 (n :: rest)) as [rows [[] | e]];
       try destruct fc;
       cbn [fst snd app]; rewrite ?app_nil_r, <- ?app_assoc; reflexivity
      |cbn [fst snd app]; reflexivity]
     |cbn [fst snd app]; reflexivity]).
Qed.

(** A run over at least one image is the run of [main], unless one of
    the unguarded calls raises: then the workbook is not closed. *)
Lemma unguarded_cases l w a imgs :
  list_images_sorted w = Ok imgs -> imgs <> [] ->
  Unguarded.main l w a = main w a /\
  (snd (main w a) = Ok 0 ->
   makedirs_raises l = false /\ workbook_raises l = false /\
   close_raises l = false) \/
  snd (Unguarded.main l w a) = Raise LibraryError /\
  ~ In Close (fst (Unguarded.main l w a)) /\
  ~ all_return l.
Proof.
  intros Hi Hne.
  rewrite (@unguarded_main_eq l w a imgs Hi Hne),
    (@main_nonempty_eq w a imgs Hi Hne).
  unfold all_return.
  destruct (makedirs_raises l) eqn:Em.
  { right. cbn. split; [reflexivity|]. split; [tauto|]. intros (H & _).
    discriminate H. }
  destruct (use_physical w a && mkdtemp_raises l) eqn:Et.
  { right. apply andb_prop in Et. destruct Et as [_ Et]. cbn.
    split; [reflexivity|]. split; [intuition discriminate|].
    intros (_ & H & _). congruence. }
  destruct (preprocess _ _ _ imgs) as [processed|e];
    [|left; split; [reflexivity | discriminate]].
  destruct (workbook_raises l) eqn:Ew.
  { right. cbn [fst snd]. split; [reflexivity|]. split.
    - intros H.
      apply (proj1 (@run_end_events w a [] Close (or_introl eq_refl))) in H.
      exact H.
    - intros (_ & _ & H & _). discriminate H. }
  cbv zeta.
  destruct (pixels_to_col_width _) as [width|e];
    [|left; split; [reflexivity | discriminate]].
  destruct (write_rows _ 0 1 imgs) as [rows [[]|e]] eqn:Er;
    [|left; split; [reflexivity | discriminate]].
  destruct (close_raises l) eqn:Ec.
  - right. cbn [fst snd]. split; [reflexivity|]. split.
    + intros H.
      assert (H' : In Close (setup_events w a
                               ++ (workbook_events ++ header_events width ++ rows)
                               ++ cleanup_events w a)%list).
      { rewrite <- !app_assoc. exact H. }
      apply (proj1 (@run_end_events w a _ Close (or_introl eq_refl))) in H'.
      rewrite !in_app_iff in H'. destruct H' as [H' | [H' | H']].
      * cbn in H'. intuition discriminate.
      * cbn in H'. intuition discriminate.
      * assert (Hs : is_sheet_event Close = true).
        { apply (@write_rows_sheet (run_context w a processed) imgs 0%nat 1).
          now rewrite Er. }
        discriminate Hs.
    + intros (_ & _ & _ & H). discriminate H.
  - left. split; [reflexivity|]. intros _. repeat split; reflexivity.
Qed.

(** X3: when the directory can be listed, a run ends in one of five
    ways: it returns 0, it exits with status 2, it raises OverflowError
    or ValueError, or it raises the exception of a library call that
    [main] does not guard.  The last happens only when one of these calls
    raises, and a run returns 0 only if [os.makedirs], the creation of
    the workbook and [wb.close] returned.  Status 2 stands for a listing
    without image and for nothing else, status 0 for a closed workbook. *)
Theorem run_outcomes (l : library) (w : world) (a : args)
  (names : list string) :
  listdir w = Ok names ->
  (snd (Unguarded.main l w a) = Ok 0 \/
   snd (Unguarded.main l w a) = Raise (SystemExit 2) \/
   snd (Unguarded.main l w a) = Raise OverflowError \/
   snd (Unguarded.main l w a) = Raise ValueError \/
   snd (Unguarded.main l w a) = Raise LibraryError) /\
  (snd (Unguarded.main l w a) = Raise LibraryError -> ~ all_return l) /\
  (snd (Unguarded.main l w a) = Ok 0 ->
   makedirs_raises l = false /\ workbook_raises l = false /\
   close_raises l = false) /\
  (snd (Unguarded.main l w a) = Raise (SystemExit 2) <->
   list_images_sorted w = Ok []) /\
  (exit_status (snd (Unguarded.main l w a)) = 2 <->
   list_images_sorted w = Ok []) /\
  (exit_status (snd (Unguarded.main l w a)) = 0 <->
   In Close (fst (Unguarded.main l w a))) /\
  0 <= exit_status (snd (Unguarded.main l w a)) <= 2.
Proof.
  intros Hl. destruct (list_images_sorted_ok w Hl) as (imgs & Hi).
  destruct (main_outcomes w a Hl) as (Hways & H2).
  pose proof (returns_iff_closed w a) as Hclosed.
  assert (Hmain :
    Unguarded.main l w a = main w a /\
    (snd (main w a) = Ok 0 ->
     makedirs_raises l = false /\ workbook_raises l = false /\
     close_raises l = false) \/
    snd (Unguarded.main l w a) = Raise LibraryError /\
    ~ In Close (fst (Unguarded.main l w a)) /\
    ~ all_return l /\ imgs <> []).
  { destruct imgs as [|n rest].
    - left. split; [apply unguarded_no_images; now left|].
      rewrite main_eq, Hi. discriminate.
    - destruct (@unguarded_cases l w a (n :: rest) Hi ltac:(discriminate))
        as [H | (H1 & H3 & H4)]; [now left | right].
      repeat split; try assumption. discriminate. }
  destruct Hmain as [(-> & Hflags) | (Hr & Hnc & Hnr & Hne)].
  - split; [tauto|]. split.
    + intros H. rewrite H in Hways.
      destruct Hways as [Hw | [Hw | [Hw | Hw]]]; discriminate Hw.
    + split; [exact Hflags|]. split; [exact H2|].
      rewrite <- Hclosed.
      destruct Hways as [Hw | [Hw | [Hw | Hw]]]; rewrite Hw in *;
        cbn [exit_status]; repeat split; try tauto; try lia; try discriminate;
        try (intros _; apply H2; reflexivity);
        try (intros H; apply H2 in H; discriminate H).
  - rewrite Hr. cbn [exit_status].
    split; [tauto|]. split; [intros _; exact Hnr|].
    split; [discriminate|].
    repeat split; try discriminate; try lia; try tauto;
      try (intros H; rewrite Hi in H; congruence).
Qed.

(** X10: when the library calls that [main] does not guard return, an
    ordinary run over at least one image returns 0 in either mode; it
    writes one row and one image cell per image and ends with the closing
    of the workbook, the final message and the cleanup. *)
Theorem ordinary_run_completes (l : library) (w : world) (a : args)
  (imgs : list string) :
  all_return l ->
  ordinary w a ->
  list_images_sorted w = Ok imgs ->
  imgs <> [] ->
  snd (Unguarded.main l w a) = Ok 0 /\
  List.length (filter is_set_row (fst (Unguarded.main l w a)))
  = List.length imgs /\
  List.length (filter is_image_cell (fst (Unguarded.main l w a)))
  = List.length imgs /\
  exists pre,
    fst (Unguarded.main l w a)
    = (pre ++ [Close; Print_ok] ++ cleanup_events w a)%list.
Proof.
  intros Hl Hord Hi Hne. rewrite (unguarded_all_return w a Hl).
  exact (main_ordinary_completes Hord Hi Hne).
Qed.

(** The record of an image in physical mode, case by case. *)
Lemma preprocess_one_physical_cases w s name :
  PIL_AVAILABLE w = true ->
  preprocess_one w true s name =
  Ok match image_size w (Src name) with
     | None => (Src name, 0, 0)
     | Some (iw, ih) =>
         if resize_raises w (Src name) then (Src name, iw, ih)
         else
           match scaled iw s, scaled ih s with
           | Ok sw, Ok sh => (Tmp name, Z.max 1 sw, Z.max 1 sh)
           | _, _ => (Src name, iw, ih)
           end
     end.
Proof.
  intros HP. rewrite (@preprocess_one_physical w s name HP).
  unfold physical_resize_image.
  destruct (image_size w (Src name)) as [[iw ih]|]; [|reflexivity].
  destruct (scaled iw s) as [sw|e]; cbn [rbind].
  - destruct (scaled ih s) as [sh|e]; cbn [rbind].
    + destruct (resize_raises w (Src name)); reflexivity.
    + destruct (resize_raises w (Src name)); reflexivity.
  - destruct (resize_raises w (Src name)); reflexivity.
Qed.

(** C7, as the code has it: a failure of the physical resize stays with
    its image.  The record of that image is the original file, with the
    size Pillow reads from it, or with 0 x 0 when the file cannot be
    decoded; the other records are not affected, and when the unguarded
    library calls return an ordinary run still writes one row per
    image. *)
Theorem physical_resize_failure_is_local (w : world) (a : args)
  (imgs : list string) :
  use_physical w a = true ->
  list_images_sorted w = Ok imgs ->
  degraded_locally w a imgs.
Proof.
  intros Hup Hi. unfold degraded_locally. cbv zeta.
  pose proof (@use_physical_true w a Hup) as HP.
  set (s := for_ (scale a) (Fin (1 # 4))).
  destruct (@preprocess_all_ok w true s imgs) as (processed & Hp).
  { intros name _. eexists. apply (@preprocess_one_physical w s name HP). }
  destruct (@preprocess_ok_inv _ _ _ _ _ Hp) as [Hlen Hrec].
  exists processed. split; [exact Hp|]. split; [exact Hlen|]. split.
  - intros k name Hk. destruct (Hrec k name Hk) as (r & Hr & Hone).
    rewrite (@preprocess_one_physical_cases w s name HP) in Hone.
    injection Hone as <-.
    destruct (image_size w (Src name)) as [[iw ih]|]; [|exact Hr].
    destruct (resize_raises w (Src name)); [exact Hr|].
    destruct (scaled iw s) as [sw|e]; [|exact Hr].
    destruct (scaled ih s) as [sh|e]; exact Hr.
  - intros l Hl Hord Hne. rewrite (unguarded_all_return w a Hl).
    assert (Hp' : preprocess w (use_physical w a) s imgs = Ok processed)
      by (now rewrite Hup).
    destruct (@main_completes w a Hord imgs processed Hp' Hi Hne)
      as (width & Hw & Hmain).
    assert (Hrows : forall k name,
               nth_error imgs k = Some name ->
               snd (write_row (run_context w a processed) (0 + k)
                              (1 + Z.of_nat k) name) = Ok tt).
    { intros k name Hk. rewrite Nat.add_0_l.
      destruct (@write_row_ordinary w a Hord imgs processed Hp' k
                                    (1 + Z.of_nat k) name Hk)
        as (r & tc & height & opts & _ & _ & _ & _ & _ & ->).
      reflexivity. }
    rewrite Hmain. cbn [fst snd]. split; [reflexivity|]. split.
    + destruct (run_trace_filters w a width
                  (rows_trace (run_context w a processed) 0 1 imgs)) as [_ ->].
      now apply rows_trace_set_rows.
    + intros k name Hk.
      destruct (@write_row_ordinary w a Hord imgs processed Hp' k
                                    (1 + Z.of_nat k) name Hk)
        as (r & tc & height & opts & Hr & _ & _ & _ & _ & Hev).
      exists r, opts. split; [exact Hr|].
      apply In_rows_in_trace. apply rows_trace_In.
      exists k, name. split; [exact Hk|].
      rewrite Nat.add_0_l, Hev. right. now left.
Qed.

Lemma physical_resize_failure_is_local_witness :
  degraded_locally sample_world sample_args sample_images /\
  ordinary sample_world sample_args.
Proof.
  split.
  - apply physical_resize_failure_is_local; vm_compute; reflexivity.
  - exact sample_world_ordinary.
Defined.

(** C7 fails as stated for an image that cannot be decoded: its record
    holds 0 x 0, not the dimensions of the image, and its row is sized
    and its image placed as for an image without extent. *)
Lemma undecodable_image_has_no_size :
  image_size sample_world (Src "zz.jpeg") = None /\
  preprocess sample_world true (Fin (1 # 4)) sample_images
  = Ok [(Tmp "F00000025.JPG", 480, 270); (Tmp "f00000050.png", 480, 270);
        (Src "zz.jpeg", 0, 0)] /\
  In (Set_row 3 (Fin 1) (Some text_fmt)) (fst (main sample_world sample_args)) /\
  In (Insert_image 3 0 (Src "zz.jpeg")
                   (mkOpts (Some 240) (Some 0) None None))
     (fst (main sample_world sample_args)).
Proof.
  vm_compute. repeat split; try reflexivity; tauto.
Qed.

Lemma run_outcomes_witness :
  exists names,
    listdir sample_world = Ok names /\
    0 <= exit_status (snd (Unguarded.main reliable sample_world sample_args))
    <= 2.
Proof.
  eexists. split; [reflexivity|].
  apply (@run_outcomes reliable sample_world sample_args _ eq_refl).
Defined.

Lemma ordinary_run_completes_witness :
  all_return reliable /\
  ordinary sample_world scale_only_args /\
  snd (Unguarded.main reliable sample_world scale_only_args) = Ok 0.
Proof.
  assert (Hl : all_return reliable) by (repeat split; reflexivity).
  assert (Ho : ordinary sample_world scale_only_args).
  { exact sample_world_ordinary. }
  split; [exact Hl|]. split; [exact Ho|].
  apply (@ordinary_run_completes reliable sample_world scale_only_args
                                 sample_images Hl Ho).
  - vm_compute. reflexivity.
  - discriminate.
Defined.

End UnguardedRun.

(** ** Rows of a run: heights and offsets *)

Section RowsOfARun.

Open Scope Q_scope.

(** [int(round(n * s))] is the nearest integer to the product, up to the
    rounding of the product. *)
Lemma scaled_near n q v :
  (- 2 ^ 31 <= n <= 2 ^ 31)%Z -> - (1) <= q <= 1 ->
  scaled n (Fin q) = Ok v ->
  Qabs (inject_Z v - inject_Z n * q) <= (1 # 2) + (1 # 2097152).
Proof.
  intros Hn Hq. unfold scaled.
  rewrite float_of_int_value
    by (change (2 ^ 53)%Z with 9007199254740992%Z;
        change (2 ^ 31)%Z with 2147483648%Z in Hn; lia).
  cbn [rbind fmul].
  assert (HnQ : inject_Z (- 2 ^ 31) <= inject_Z n <= inject_Z (2 ^ 31))
    by (split; rewrite <- Zle_Qle; lia).
  change (inject_Z (- 2 ^ 31)) with (-2147483648) in HnQ.
  change (inject_Z (2 ^ 31)) with 2147483648 in HnQ.
  assert (Hp : - 2147483648 <= inject_Z n * q <= 2147483648).
  { destruct (Qlt_le_dec (inject_Z n) 0) as [Hneg | Hpos].
    - assert (H1 : 0 <= (- inject_Z n) * (1 - q)) by (apply Qmult_le_0_compat; lra).
      assert (H2 : 0 <= (- inject_Z n) * (q + 1)) by (apply Qmult_le_0_compat; lra).
      split; lra.
    - assert (H1 : 0 <= inject_Z n * (1 - q)) by (apply Qmult_le_0_compat; lra).
      assert (H2 : 0 <= inject_Z n * (q + 1)) by (apply Qmult_le_0_compat; lra).
      split; lra. }
  destruct (@rnd_near (inject_Z n * q) Hp) as (r & -> & Hr).
  cbn [py_round]. intros [= <-].
  pose proof (round_half_even_bounds r) as Hb.
  apply Qabs_Qle_condition. split; lra.
Qed.

Close Scope Q_scope.
Open Scope Z_scope.

(** C8: in scale-only mode the row of an image whose size can be read has
    the height of the scaled image, [int(round(height * scale))] plus
    twice the vertical padding, converted to points; the image is inserted
    from the original file with the scale as visual scale factors. *)
Theorem scale_only_row_height (w : world) (a : args) (trace : list event)
  (imgs : list string) (k : nat) (name : string) (ow oh : Z) :
  use_physical w a = false ->
  main w a = (trace, Ok 0%Z) ->
  list_images_sorted w = Ok imgs ->
  nth_error imgs k = Some name ->
  get_image_size w (Src name) = (Some ow, Some oh) ->
  scaled_row w a trace k name oh.
Proof.
  intros Hup H Hi Hk Hsize. unfold scaled_row. cbv zeta.
  destruct (@main_ok_inv _ _ _ _ H)
    as (imgs' & processed & width & Hi' & Hne & Hp & Hw & Hall & -> & _).
  assert (imgs' = imgs) by congruence. subst imgs'.
  destruct (@preprocess_ok_inv _ _ _ _ _ Hp) as [Hlen Hrec].
  destruct (Hrec k name Hk) as (r & Hr & Hone).
  pose proof (@display_size_record w a processed k name r Hone Hr) as Hd.
  destruct (write_row_ok_inv _ _ _ _ (Hall k name Hk))
    as (r' & tc & height & opts & Hd' & _ & Hh & Ho & Hev).
  assert (r' = r) by congruence. subst r'.
  unfold preprocess_one in Hone. rewrite Hup, Hsize in Hone. cbn [or0] in Hone.
  destruct (scaled ow _) as [sw|e]; [|discriminate].
  destruct (scaled oh _) as [sh|e] eqn:Esh; [|discriminate].
  cbn [rbind] in Hone. injection Hone as <-.
  cbn [rec_w rec_h rec_path fst snd run_context c_pad_y] in *.
  assert (Hx : exists x, float_of_int oh = Ok x /\
                         py_round (fmul x (for_ (scale a) (Fin (1 # 4)))) = Ok sh).
  { unfold scaled in Esh. destruct (float_of_int oh) as [x|e]; [|discriminate].
    exists x. split; [reflexivity | exact Esh]. }
  destruct Hx as (x & Hx & Hround).
  exists x, sh, height, opts.
  split; [exact Hx|]. split; [exact Hround|]. split.
  { intros q Hq Hqb Hoh. rewrite Hq in Esh. exact (scaled_near Hoh Hqb Esh). }
  split; [exact Hh|].
  assert (Hin : forall e,
             In e (fst (write_row (run_context w a processed) k
                                  (1 + Z.of_nat k) name)) ->
             In e (setup_events w a ++ workbook_events ++ header_events width
                     ++ rows_trace (run_context w a processed) 0 1 imgs
                     ++ [Close; Print_ok] ++ cleanup_events w a)%list).
  { intros e He. apply In_rows_in_trace. apply rows_trace_In.
    exists k, name. split; [exact Hk | exact He]. }
  split; [|split].
  - apply Hin. rewrite Hev. now left.
  - apply Hin. rewrite Hev. right. now left.
  - unfold make_opts in Ho.
    cbn [run_context c_center c_col_pixels c_physical c_scale] in Ho.
    rewrite Hup in Ho.
    destruct (do_center a).
    + destruct (center_offset _ sw) as [xo|e]; [|discriminate].
      cbn [rbind] in Ho. destruct (center_offset _ sh) as [yo|e]; [|discriminate].
      cbn [rbind] in Ho. injection Ho as <-. split; reflexivity.
    + cbn [rbind] in Ho. injection Ho as <-. split; reflexivity.
Qed.

Lemma scale_only_row_height_witness :
  scaled_row sample_world scale_only_args
             (fst (main sample_world scale_only_args))
             0 "F00000025.JPG" 1080 /\
  In (Set_row 1 (Fin (405 # 2)) (Some text_fmt))
     (fst (main sample_world scale_only_args)) /\
  In (Insert_image 1 0 (Src "F00000025.JPG")
                   (mkOpts (Some 0) (Some 0) (Some (Fin (1 # 4)))
                           (Some (Fin (1 # 4)))))
     (fst (main sample_world scale_only_args)).
Proof.
  split.
  - apply (@scale_only_row_height sample_world scale_only_args _
                                  sample_images 0 "F00000025.JPG" 1920 1080);
      vm_compute; reflexivity.
  - vm_compute. split; tauto.
Defined.

(** C2, as the code has it: in every run that returns, each image cell
    carries with centering the offsets [max(0, floor(space / 2))] for the
    space left in the column and in the row, as long as that space is
    below [2^53] in magnitude, and never a negative offset; without
    centering it carries none. *)
Theorem centering_offsets (w : world) (a : args) (trace : list event) :
  main w a = (trace, Ok 0) -> offsets_centered w a trace.
Proof.
  intros H. unfold offsets_centered.
  destruct (@main_ok_inv _ _ _ _ H)
    as (imgs & processed & width & Hi & Hne & Hp & Hw & Hall & -> & _).
  destruct (@preprocess_ok_inv _ _ _ _ _ Hp) as [Hlen Hrec].
  exists imgs, processed. split; [exact Hi|]. split; [exact Hp|].
  cbv zeta. intros k name Hk.
  destruct (Hrec k name Hk) as (r & Hr & Hone).
  pose proof (@display_size_record w a processed k name r Hone Hr) as Hd.
  destruct (write_row_ok_inv _ _ _ _ (Hall k name Hk))
    as (r' & tc & height & opts & Hd' & _ & _ & Ho & Hev).
  assert (r' = r) by congruence. subst r'.
  exists r, opts. split; [exact Hr|]. split; [exact Hd|]. split.
  { apply In_rows_in_trace. apply rows_trace_In.
    exists k, name. split; [exact Hk|].
    rewrite Nat.add_0_l, Hev. right. now left. }
  unfold make_opts in Ho.
  cbn [run_context c_center c_col_pixels c_physical c_scale c_pad_y] in Ho.
  split; intros Hc; rewrite Hc in Ho.
  - destruct (center_offset _ (rec_w r)) as [xo|e] eqn:Ex; [|discriminate].
    cbn [rbind] in Ho.
    destruct (center_offset _ (rec_h r)) as [yo|e] eqn:Ey; [|discriminate].
    cbn [rbind] in Ho. exists xo, yo.
    assert (Hopts : x_offset opts = Some xo /\ y_offset opts = Some yo).
    { destruct (use_physical w a); injection Ho as <-; split; reflexivity. }
    destruct Hopts as [Hxo Hyo].
    split; [exact Hxo|]. split; [exact Hyo|].
    split; [reflexivity|]. split; [reflexivity|].
    split; [exact (center_offset_nonneg _ _ Ex)|].
    split; [exact (center_offset_nonneg _ _ Ey)|].
    split; [|split].
    + intros Hb. rewrite (center_offset_exact _ _ Hb) in Ex. congruence.
    + intros Hb. rewrite (center_offset_exact _ _ Hb) in Ey. congruence.
    + intros Heq. rewrite Heq in Ex.
      rewrite center_offset_exact in Ex by lia.
      rewrite Z.sub_diag in Ex. cbn in Ex. congruence.
  - cbn [rbind] in Ho.
    destruct (use_physical w a); injection Ho as <-;
      repeat split; reflexivity.
Qed.

Lemma centering_offsets_witness :
  offsets_centered sample_world sample_args
                   (fst (main sample_world sample_args)).
Proof. apply centering_offsets. vm_compute. reflexivity. Defined.

(** C2 fails as stated once the space left reaches [2^53]: with a
    horizontal padding of [2^53 + 1] the column is [2^54 + 2] pixels wider
    than the image, the float division gives [2^53], and the image is
    inserted one pixel left of [floor(space / 2)]. *)
Lemma centering_offset_beyond_53_bits :
  In (Insert_image 1 0 (Tmp "F00000025.JPG")
                   (mkOpts (Some 9007199254740992) (Some 0) None None))
     (fst (main sample_world wide_pad_args)) /\
  snd (main sample_world wide_pad_args) = Ok 0 /\
  max_default0 [480; 480; 0] + 2 * pad_x wide_pad_args - 480
  = 18014398509481986 /\
  Z.max 0 (18014398509481986 / 2) = 9007199254740993 /\
  center_offset (480 + 2 * 9007199254740993) 480 = Ok 9007199254740992.
Proof.
  vm_compute. repeat split; try reflexivity. tauto.
Qed.

End RowsOfARun.

(** ** Names of any characters *)

Module UnicodeParser.

Import Unicode.

Section Facts.

Variable db : database.

Lemma rep_digits_cp n st :
  rep n (step_char (is_decimal db)) st =
  if (List.length (firstn n (rest st)) =? n)%nat
     && forallb (is_decimal db) (firstn n (rest st))
  then [mkState (pos st + n) (skipn n (rest st)) (group1 st)]
  else [].
Proof.
  revert st. induction n as [|n IH]; intros [p s g]; cbn [rep rest pos group1].
  - cbn. rewrite Nat.add_0_r. reflexivity.
  - unfold step_char at 2. cbn [rest pos group1].
    destruct s as [|c t].
    + reflexivity.
    + cbn [firstn List.length forallb skipn].
      destruct (is_decimal db c); cbn [flat_map andb].
      * rewrite IH. cbn [rest pos group1]. rewrite app_nil_r.
        replace (S p + n)%nat with (p + S n)%nat by lia.
        change (S (List.length (firstn n t)) =? S n)%nat
          with (List.length (firstn n t) =? n)%nat.
        reflexivity.
      * rewrite andb_false_r. reflexivity.
Qed.

Lemma rep_keeps_group1_cp (f : state -> list state) n :
  (forall st st', In st' (f st) -> group1 st' = group1 st) ->
  forall st st', In st' (rep n f st) -> group1 st' = group1 st.
Proof.
  intros Hf. induction n as [|n IH]; intros st st' Hin; cbn in Hin.
  - destruct Hin as [<- | []]. reflexivity.
  - apply in_flat_map in Hin. destruct Hin as (st1 & H1 & H2).
    rewrite (IH _ _ H2). now apply Hf.
Qed.

Lemma run_keeps_group1_cp ic r :
  no_group r = true ->
  forall st st', In st' (run db ic r st) -> group1 st' = group1 st.
Proof.
  induction r as [| | c | | a IHa b IHb | a IHa b IHb | a IHa | n a IHa | a IHa];
    cbn [no_group run]; intros Hng st st' Hin.
  - destruct (pos st =? 0)%nat; [|contradiction].
    destruct Hin as [<- | []]; reflexivity.
  - destruct (rest st) as [|c [|d t]]; try contradiction.
    + destruct Hin as [<- | []]; reflexivity.
    + destruct (N.eqb c 10); [|contradiction].
      destruct Hin as [<- | []]; reflexivity.
  - unfold step_char in Hin. destruct (rest st); [contradiction|].
    destruct (lit_matches db ic c n); [|contradiction].
    destruct Hin as [<- | []]; reflexivity.
  - unfold step_char in Hin. destruct (rest st); [contradiction|].
    destruct (is_decimal db n); [|contradiction].
    destruct Hin as [<- | []]; reflexivity.
  - apply andb_prop in Hng. destruct Hng as [Ha Hb].
    apply in_flat_map in Hin. destruct Hin as (st1 & H1 & H2).
    rewrite (IHb Hb _ _ H2). now apply IHa.
  - apply andb_prop in Hng. destruct Hng as [Ha Hb].
    apply in_app_or in Hin. destruct Hin as [H | H]; [now apply IHa | now apply IHb].
  - apply in_app_or in Hin. destruct Hin as [H | [<- | []]]; [now apply IHa | reflexivity].
  - revert st st' Hin. apply rep_keeps_group1_cp. now apply IHa.
  - discriminate.
Qed.

Lemma run_group_digits_cp ic p s g :
  run db ic (Group (Rep 8 Digit)) (mkState p s g) =
  if window8 db s 0
  then [mkState (p + 8) (skipn 8 s) (Some (firstn 8 s))]
  else [].
Proof.
  cbn [run].
  change (rep 8 (fun st => step_char (is_decimal db) st))
    with (rep 8 (step_char (is_decimal db))).
  rewrite rep_digits_cp. cbn [rest pos group1]. unfold window8.
  cbn [skipn].
  destruct ((List.length (firstn 8 s) =? 8)%nat
            && forallb (is_decimal db) (firstn 8 s)).
  - cbn [map pos rest]. replace (p + 8 - p)%nat with 8%nat by lia. reflexivity.
  - reflexivity.
Qed.

Lemma strict_match_inv_cp name m :
  re_match db true strict_re name = Some m ->
  exists c t, name = c :: t /\ lit_matches db true "f" c = true /\
              window8 db t 0 = true /\ group m = firstn 8 t.
Proof.
  unfold re_match, strict_re. intros H. apply hd_error_In in H.
  cbn [run] in H. apply in_flat_map in H. destruct H as (st0 & H0 & H).
  cbn in H0. destruct H0 as [<- | []].
  apply in_flat_map in H. destruct H as (st1 & H1 & H).
  unfold step_char in H1. cbn [rest pos group1] in H1.
  destruct name as [|c t]; [contradiction|].
  destruct (lit_matches db true "f" c) eqn:Ec; [|contradiction].
  destruct H1 as [<- | []].
  apply in_flat_map in H. destruct H as (st2 & H2 & H).
  change (map _ (rep 8 (fun st => step_char (is_decimal db) st) ?s))
    with (run db true (Group (Rep 8 Digit)) s) in H2.
  change (In st2 (run db true (Group (Rep 8 Digit)) (mkState 1 t None))) in H2.
  rewrite run_group_digits_cp in H2.
  destruct (window8 db t 0) eqn:Ew; [|contradiction].
  destruct H2 as [<- | []].
  exists c, t. repeat split; try assumption; try reflexivity.
  unfold group.
  change (In m (run db true
                    (Lit "." @@
                     Alt (Lit "j" @@ Lit "p" @@ Opt (Lit "e") @@ Lit "g")
                         (Lit "p" @@ Lit "n" @@ Lit "g") @@ Eol)
                    (mkState (1 + 8) (skipn 8 t) (Some (firstn 8 t))))) in H.
  apply run_keeps_group1_cp in H; [|reflexivity].
  cbn [group1] in H. rewrite H. reflexivity.
Qed.

Lemma window8_tail_cp c t i : window8 db (c :: t) (S i) = window8 db t i.
Proof. reflexivity. Qed.

Lemma window8_head_digit_cp c t :
  window8 db (c :: t) 0 = true -> is_decimal db c = true.
Proof.
  unfold window8. cbn [skipn firstn forallb]. intros H.
  apply andb_prop in H. destruct H as [_ H]. apply andb_prop in H. tauto.
Qed.

Lemma window8_empty_cp i : window8 db [] i = false.
Proof. destruct i; reflexivity. Qed.

Lemma search_first_window_cp s :
  forall p i,
    window8 db s i = true ->
    (forall j, (j < i)%nat -> window8 db s j = false) ->
    exists m, search_from db false digits_re p s = Some m /\
              group m = firstn 8 (skipn i s).
Proof.
  induction s as [|c t IH]; intros p i Hw Hmin.
  - rewrite window8_empty_cp in Hw. discriminate.
  - cbn [search_from]. unfold digits_re. rewrite run_group_digits_cp.
    destruct i as [|i].
    + rewrite Hw. eexists. split; reflexivity.
    + rewrite (Hmin 0%nat) by lia.
      rewrite window8_tail_cp in Hw.
      destruct (IH (S p) i Hw) as (m & Hm & Hg).
      { intros j Hj. rewrite <- (window8_tail_cp c t j). apply Hmin. lia. }
      exists m. split; [exact Hm | exact Hg].
Qed.

Lemma search_no_window_cp s :
  forall p, (forall i, window8 db s i = false) ->
            search_from db false digits_re p s = None.
Proof.
  induction s as [|c t IH]; intros p Hno.
  - reflexivity.
  - cbn [search_from]. unfold digits_re. rewrite run_group_digits_cp.
    rewrite (Hno 0%nat). apply IH.
    intros i. rewrite <- (window8_tail_cp c t i). apply Hno.
Qed.

Hypothesis Hdb : sound db.

(** A string of decimal digits has a value, and [n] digits stay below
    [10^n]. *)
Lemma digits_value_bounds s :
  forall acc,
    (0 <= acc)%Z -> forallb (is_decimal db) s = true ->
    exists v, digits_value db acc s = Some v /\
              (0 <= v)%Z /\
              (v < (acc + 1) * 10 ^ Z.of_nat (List.length s))%Z.
Proof.
  induction s as [|c t IH]; intros acc Hacc Hd; cbn [digits_value].
  - exists acc. split; [reflexivity|]. cbn. lia.
  - cbn [forallb] in Hd. apply andb_prop in Hd. destruct Hd as [Hc Ht].
    unfold is_decimal in Hc. destruct (decimal db c) as [d|] eqn:Ed; [|discriminate].
    pose proof (proj1 Hdb c d Ed) as Hdr.
    destruct (IH (10 * acc + d)%Z ltac:(lia) Ht) as (v & Hv & Hv0 & Hvb).
    exists v. split; [exact Hv|]. split; [exact Hv0|].
    cbn [List.length]. rewrite Nat2Z.inj_succ, Z.pow_succ_r by lia.
    assert (Hp : (0 < 10 ^ Z.of_nat (List.length t))%Z)
      by (apply Z.pow_pos_nonneg; lia).
    nia.
Qed.

Lemma int_or_none_window_cp s i :
  window8 db s i = true ->
  exists v, int_or_none db (firstn 8 (skipn i s)) = Some v /\
            digits_value db 0 (firstn 8 (skipn i s)) = Some v /\
            (0 <= v < 10 ^ 8)%Z.
Proof.
  unfold window8, int_or_none, int_of_str. intros H.
  apply andb_prop in H. destruct H as [Hlen Hd].
  apply Nat.eqb_eq in Hlen.
  destruct (@digits_value_bounds (firstn 8 (skipn i s)) 0%Z ltac:(lia) Hd)
    as (v & Hv & Hv0 & Hvb).
  rewrite Hlen in Hvb. exists v. rewrite Hv.
  destruct (firstn 8 (skipn i s)); [discriminate Hlen|].
  repeat split; try reflexivity; lia.
Qed.

Lemma lit_f_not_digit_cp c :
  lit_matches db true "f" c = true -> is_decimal db c = false.
Proof.
  unfold lit_matches, is_decimal. cbn [andb].
  destruct (iscased db (N_of_ascii "f")); intros H; apply N.eqb_eq in H.
  - now rewrite (proj2 Hdb c H).
  - subst c. change (N_of_ascii "f") with 102%N.
    now rewrite (proj2 Hdb 102%N eq_refl).
Qed.

Lemma parse_first_window name i :
  window8 db name i = true ->
  (forall j, (j < i)%nat -> window8 db name j = false) ->
  exists v,
    parse_frame_from_filename db name = Some v /\
    digits_value db 0 (firstn 8 (skipn i name)) = Some v /\
    (0 <= v < 10 ^ 8)%Z.
Proof.
  intros Hw Hmin. unfold parse_frame_from_filename.
  destruct (int_or_none_window_cp name i Hw) as (v & Hint & Hv & Hvb).
  exists v. split; [|split; [exact Hv | exact Hvb]].
  destruct (re_match db true strict_re name) as [m|] eqn:Em.
  - destruct (strict_match_inv_cp _ Em) as (c & t & -> & Hc & Hw1 & Hg).
    assert (Hw0 : window8 db (c :: t) 0 = false).
    { destruct (window8 db (c :: t) 0) eqn:E; [|reflexivity].
      apply window8_head_digit_cp in E. rewrite (lit_f_not_digit_cp _ Hc) in E.
      discriminate. }
    assert (Hi : i = 1%nat).
    { destruct i as [|[|i]]; [congruence | reflexivity |].
      pose proof (Hmin 1%nat ltac:(lia)) as Hw1'.
      rewrite window8_tail_cp in Hw1'. congruence. }
    subst i. rewrite Hg. exact Hint.
  - destruct (search_first_window_cp name 0 Hw Hmin) as (m & Hm & Hg).
    unfold re_search. rewrite Hm, Hg. exact Hint.
Qed.

Lemma parse_no_window name :
  (forall i, window8 db name i = false) ->
  parse_frame_from_filename db name = None.
Proof.
  intros Hno. unfold parse_frame_from_filename.
  destruct (re_match db true strict_re name) as [m|] eqn:Em.
  - destruct (strict_match_inv_cp _ Em) as (c & t & -> & Hc & Hw1 & Hg).
    rewrite <- (window8_tail_cp c t 0), Hno in Hw1. discriminate.
  - unfold re_search. now rewrite search_no_window_cp.
Qed.

End Facts.

End UnicodeParser.

Section UnicodeNames.

Open Scope Z_scope.

(** X27: on a name of any characters the parser returns the number
    written by the leftmost 8 consecutive decimal digits, whatever their
    script, a number from 0 to 99999999; without 8 consecutive decimal
    digits it returns [None]. *)
Theorem unicode_digits_are_parsed (db : Unicode.database)
  (name : Unicode.str) :
  Unicode.sound db ->
  (forall i,
      Unicode.window8 db name i = true ->
      (forall j, (j < i)%nat -> Unicode.window8 db name j = false) ->
      exists v,
        Unicode.parse_frame_from_filename db name = Some v /\
        Unicode.digits_value db 0 (firstn 8 (skipn i name)) = Some v /\
        0 <= v < 10 ^ 8) /\
  ((forall i, Unicode.window8 db name i = false) ->
   Unicode.parse_frame_from_filename db name = None).
Proof.
  intros Hdb. split.
  - intros i Hw Hmin. exact (@UnicodeParser.parse_first_window db Hdb name i Hw Hmin).
  - apply UnicodeParser.parse_no_window.
Qed.

Lemma sample_database_sound : Unicode.sound Unicode.sample_database.
Proof.
  split.
  - intros c d. cbn [Unicode.decimal Unicode.sample_database].
    destruct ((48 <=? c)%N && (c <=? 57)%N) eqn:E1.
    + apply andb_prop in E1. destruct E1 as [H1 H2].
      apply N.leb_le in H1, H2. intros [= <-]. lia.
    + destruct ((1632 <=? c)%N && (c <=? 1641)%N) eqn:E2; [|discriminate].
      apply andb_prop in E2. destruct E2 as [H1 H2].
      apply N.leb_le in H1, H2. intros [= <-]. lia.
  - intros c. cbn [Unicode.decimal Unicode.tolower Unicode.sample_database].
    change ((65 <=? 102)%N && (102 <=? 90)%N) with false. cbv iota.
    intros H.
    assert (Hc : c = 70%N \/ c = 102%N).
    { destruct ((65 <=? c)%N && (c <=? 90)%N); lia. }
    destruct Hc as [-> | ->]; reflexivity.
Qed.

Lemma unicode_digits_are_parsed_witness :
  Unicode.sound Unicode.sample_database /\
  Unicode.parse_frame_from_filename Unicode.sample_database
                                    Unicode.arabic_indic_name
  = Some 12345678.
Proof.
  split; [exact sample_database_sound|].
  destruct (proj1 (@unicode_digits_are_parsed Unicode.sample_database
                     Unicode.arabic_indic_name sample_database_sound)
                  0%nat)
    as (v & Hp & Hv & _).
  - reflexivity.
  - intros j Hj. lia.
  - rewrite Hp. vm_compute in Hv. symmetry. exact Hv.
Defined.

(** The two patterns on code points. *)
Example unicode_re_samples :
  option_map Unicode.group
    (Unicode.re_match Unicode.sample_database true strict_re
                      (Unicode.codes "F00001234.JPeG"))
  = Some (Unicode.codes "00001234") /\
  Unicode.re_match Unicode.sample_database true strict_re
                   (Unicode.codes "f00001234.pngx") = None /\
  Unicode.re_match Unicode.sample_database true strict_re
                   Unicode.arabic_indic_name = None /\
  option_map Unicode.group
    (Unicode.re_search Unicode.sample_database false digits_re
                       Unicode.arabic_indic_name)
  = Some (firstn 8 Unicode.arabic_indic_name).
Proof. vm_compute. repeat split; reflexivity. Qed.

Lemma codes_substring s :
  forall i n, Unicode.codes (substring i n s) = firstn n (skipn i (Unicode.codes s)).
Proof.
  induction s as [|c t IH]; intros i n.
  - destruct i, n; reflexivity.
  - destruct i as [|i].
    + destruct n as [|n]; [reflexivity|].
      cbn [substring Unicode.codes skipn firstn]. f_equal.
      rewrite IH. reflexivity.
    + cbn [substring Unicode.codes skipn]. apply IH.
Qed.

Lemma codes_length s : List.length (Unicode.codes s) = String.length s.
Proof. induction s as [|c t IH]; cbn; [reflexivity | now rewrite IH]. Qed.

Section Latin1.

Variable db : Unicode.database.
Hypothesis Hlatin : Unicode.latin1_digits db.

Lemma codes_all_digits s :
  forallb (Unicode.is_decimal db) (Unicode.codes s) = all_digits s.
Proof.
  induction s as [|c t IH]; [reflexivity|].
  cbn [Unicode.codes forallb all_digits]. rewrite IH. f_equal.
  unfold Unicode.is_decimal. rewrite Hlatin. destruct (is_digit c); reflexivity.
Qed.

Lemma codes_window8 s i :
  Unicode.window8 db (Unicode.codes s) i = window8 s i.
Proof.
  unfold Unicode.window8, window8.
  rewrite <- codes_substring, codes_length, codes_all_digits. reflexivity.
Qed.

Lemma codes_digits_value s :
  forall acc,
    all_digits s = true ->
    Unicode.digits_value db acc (Unicode.codes s) = Some (digits_to_Z_acc acc s).
Proof.
  induction s as [|c t IH]; intros acc Hd; [reflexivity|].
  cbn [all_digits] in Hd. apply andb_prop in Hd. destruct Hd as [Hc Ht].
  cbn [Unicode.codes Unicode.digits_value digits_to_Z_acc].
  rewrite Hlatin, Hc. now apply IH.
Qed.

End Latin1.

(** X28: on a name whose characters are all below 256 the parser on
    code points returns what [parse_frame_from_filename] returns: the
    strings of the model are the names of such characters. *)
Theorem latin1_names_agree (db : Unicode.database) (name : string) :
  Unicode.sound db ->
  Unicode.latin1_digits db ->
  Unicode.parse_frame_from_filename db (Unicode.codes name)
  = parse_frame_from_filename name.
Proof.
  intros Hdb Hl.
  destruct (first_window_cases name) as [Hno | (i & Hw & Hmin)].
  - rewrite (proj1 (@parse_frame_without_window name Hno)).
    apply UnicodeParser.parse_no_window.
    intros i. rewrite (codes_window8 Hl). apply Hno.
  - rewrite (proj1 (@parse_frame_at_first_window name i Hw Hmin)).
    destruct (@UnicodeParser.parse_first_window db Hdb (Unicode.codes name) i)
      as (v & Hp & Hv & _).
    + rewrite (codes_window8 Hl). exact Hw.
    + intros j Hj. rewrite (codes_window8 Hl). now apply Hmin.
    + rewrite Hp. rewrite <- codes_substring in Hv.
      rewrite (codes_digits_value Hl) in Hv.
      * unfold digits_to_Z. congruence.
      * unfold window8 in Hw. apply andb_prop in Hw. tauto.
Qed.

Lemma sample_database_latin1 : Unicode.latin1_digits Unicode.sample_database.
Proof.
  intros c. destruct c as [[] [] [] [] [] [] [] []]; vm_compute; reflexivity.
Qed.

Lemma latin1_names_agree_witness :
  Unicode.sound Unicode.sample_database /\
  Unicode.latin1_digits Unicode.sample_database /\
  Unicode.parse_frame_from_filename Unicode.sample_database
                                    (Unicode.codes "img123456789.png")
  = Some 12345678.
Proof.
  split; [exact sample_database_sound|].
  split; [exact sample_database_latin1|].
  rewrite (@latin1_names_agree Unicode.sample_database "img123456789.png"
             sample_database_sound sample_database_latin1).
  reflexivity.
Defined.

End UnicodeNames.
